(** * A shallow embedding of the TPS load-test harness

    The repository holds a payload generator (payload-generator.js), a
    single-type driver (tps-test.js) and a mixed-payload driver that calls
    the payload generator.  Each JavaScript function that the verified
    properties talk about is transcribed below under its own name; the two
    drivers live in the modules [TpsTest] and [TpsTestMixed].

    Conventions of the embedding:
    - a JavaScript number that holds an integer is a [Z], which is what the
      source computes as long as no value exceeds 2^53; where the source
      divides and rounds doubles ([parseTxMix], the sample positions of
      [analyzeBlockTPS]) the model computes on binary64 floats;
    - strings are [string]s of bytes and [toLowerCase] folds the ASCII
      letters;
    - a value that may be [undefined], [null] or the empty string and is only
      tested for truthiness is an [option] together with an emptiness test;
      the [message] of a JSON-RPC error, which the endpoint chooses and the
      code calls a string method on, is a [JS.Value];
    - a [Map] is a [gmap], a [Set] whose iteration order is observed is a
      duplicate-free list in insertion order, any other [Set] is a [gset];
    - awaited RPC answers are inputs of the functions, and the requests a
      function issues are returned in a log. *)

From Stdlib Require Import ZArith Strings.String Strings.Ascii Bool.
From Stdlib Require Import Floats.PrimFloat Floats.FloatOps Floats.SpecFloat.
From stdpp Require Import gmap strings list sorting.

Local Open Scope string_scope.
Local Open Scope list_scope.
Local Open Scope Z_scope.

(** ** JavaScript primitives used by the harness *)

Module JS.

(** [String.prototype.toLowerCase] on ASCII text. *)
Definition is_upper (c : ascii) : bool :=
  let n := nat_of_ascii c in (65 <=? n)%nat && (n <=? 90)%nat.

Definition lower_char (c : ascii) : ascii :=
  if is_upper c then ascii_of_nat (nat_of_ascii c + 32) else c.

Fixpoint toLowerCase (s : string) : string :=
  match s with
  | EmptyString => EmptyString
  | String c s' => String (lower_char c) (toLowerCase s')
  end.

(** [String.prototype.includes]: [needle] occurs somewhere in [s]. *)
Fixpoint includes (s needle : string) : bool :=
  String.prefix needle s ||
  match s with
  | EmptyString => false
  | String _ s' => includes s' needle
  end.

(** Truthiness of a string-valued expression: [undefined], [null] and the
    empty string are falsy. *)
Definition truthy (v : option string) : bool :=
  match v with
  | Some s => negb (String.eqb s "")
  | None => false
  end.

(** [a || b] on possibly missing strings. *)
Definition or_else (v : option string) (d : string) : string :=
  match v with
  | Some s => if String.eqb s "" then d else s
  | None => d
  end.

(** [a || b] on possibly missing numbers: 0 is falsy. *)
Definition or_number (v : option Z) (d : Z) : Z :=
  match v with
  | Some n => if n =? 0 then d else n
  | None => d
  end.

(** A value of which the code observes only whether it is a string, and
    which, and whether it is truthy: [NotStr false] is [undefined], [null],
    0, [false] or NaN, [NotStr true] is any other number, [true], an array or
    an object. *)
Inductive Value : Type :=
  | Str (s : string)
  | NotStr (isTruthy : bool).

Definition truthyValue (v : Value) : bool :=
  match v with
  | Str s => negb (String.eqb s "")
  | NotStr isTruthy => isTruthy
  end.

Definition ofOption (v : option string) : Value :=
  match v with
  | Some s => Str s
  | None => NotStr false
  end.

(** A [Set] built from an array keeps the first occurrence of every element,
    in insertion order. *)
Fixpoint set_insertion_order `{EqDecision A} (seen l : list A) : list A :=
  match l with
  | [] => []
  | x :: l' =>
      if decide (x ∈ seen) then set_insertion_order seen l'
      else x :: set_insertion_order (x :: seen) l'
  end.

Definition new_Set `{EqDecision A} (l : list A) : list A :=
  set_insertion_order [] l.

(** An integer as a JavaScript number: the nearest binary64 float, which is
    the integer itself up to 2^53. *)
Definition of_Z (z : Z) : float :=
  SF2Prim (binary_normalize prec emax z 0 false).

(** [Math.round]: the integer closest to [x], ties towards +infinity.  The
    value of a finite double is [m * 2^e] exactly, so the rounding is done on
    integers.  [None] stands for a result that is no integer (NaN or an
    infinity). *)
Definition Math_round (x : float) : option Z :=
  match Prim2SF x with
  | S754_zero _ => Some 0
  | S754_finite sign m e =>
      let v := if sign then Z.neg m else Z.pos m in
      if 0 <=? e then Some (v * 2 ^ e)
      else Some ((2 * v + 2 ^ (- e)) / 2 ^ (- e + 1))
  | S754_infinity _ | S754_nan => None
  end.

(** [Math.floor] of a double, computed on its exact value like [Math_round]. *)
Definition Math_floor (x : float) : option Z :=
  match Prim2SF x with
  | S754_zero _ => Some 0
  | S754_finite sign m e =>
      let v := if sign then Z.neg m else Z.pos m in
      if 0 <=? e then Some (v * 2 ^ e) else Some (v / 2 ^ (- e))
  | S754_infinity _ | S754_nan => None
  end.

End JS.

(** ** Error categories of the broadcaster *)

Inductive Category : Type :=
  | gas_price_too_low
  | nonce_too_low
  | nonce_too_high
  | already_known
  | replacement_underpriced
  | insufficient_funds
  | gas_too_low
  | execution_reverted
  | timeout
  | connection_error
  | other
  | unknown.

#[export] Instance Category_eq_dec : EqDecision Category.
Proof. solve_decision. Defined.

(** The string the source returns for each category. *)
Definition category_name (c : Category) : string :=
  match c with
  | gas_price_too_low => "gas_price_too_low"
  | nonce_too_low => "nonce_too_low"
  | nonce_too_high => "nonce_too_high"
  | already_known => "already_known"
  | replacement_underpriced => "replacement_underpriced"
  | insufficient_funds => "insufficient_funds"
  | gas_too_low => "gas_too_low"
  | execution_reverted => "execution_reverted"
  | timeout => "timeout"
  | connection_error => "connection_error"
  | other => "other"
  | unknown => "unknown"
  end.

(** ** Data shared by the payload generator and the two drivers *)

(** A function of the harness either returns or throws. *)
Inductive Error : Type :=
  | TokenAddressRequired   (* 'Token address required for token transfers' *)
  | SwapAddressesRequired  (* 'Router, WETH, and Token addresses required for swaps' *)
  | TypeError              (* a property of undefined or null was read *)
  | RpcError (message : string).

Inductive Result (A : Type) : Type :=
  | Ok (a : A)
  | Throw (e : Error).
Arguments Ok {A} a.
Arguments Throw {A} e.

#[export] Instance Result_bind : MBind Result := fun A B k r =>
  match r with
  | Ok a => k a
  | Throw e => Throw e
  end.

#[export] Instance Result_ret : MRet Result := fun A a => Ok a.

(** A wallet; its address identifies the account on chain. *)
Record Sender : Type := { address : string }.

#[export] Instance Sender_eq_dec : EqDecision Sender.
Proof. solve_decision. Defined.

Inductive Calldata : Type :=
  | transfer (recipient : string) (amount : Z)
  | swapExactETHForTokens (amountOutMin : Z) (path : list (option string))
      (recipient : string) (deadline : Z).

(** The transaction object handed to the signer ([type: 2] throughout). *)
Record Tx : Type := {
  to : option string;
  value : Z;
  data : option Calldata;
  nonce : Z;
  gasLimit : Z;
  chainId : Z;
  maxFeePerGas : Z;
  maxPriorityFeePerGas : Z
}.

Record GasParams : Type := { gp_maxFeePerGas : Z; gp_maxPriorityFeePerGas : Z }.

(** The answer of [provider.getFeeData()]; a missing field is [null]. *)
Record FeeData : Type := {
  fd_maxFeePerGas : option Z;
  fd_gasPrice : option Z;
  fd_maxPriorityFeePerGas : option Z
}.

(** [a || b] on BigInt values: [null] and [0n] are falsy. *)
Definition bigint_or (a b : option Z) : option Z :=
  match a with
  | Some x => if x =? 0 then b else Some x
  | None => b
  end.

(** The fee parameters both generators derive once per batch:
    [(feeData.maxFeePerGas || feeData.gasPrice) * multiplier / 100n] and
    [feeData.maxPriorityFeePerGas || 0n]. *)
Definition deriveGasParams (feeData : FeeData) (multiplier : Z) : Result GasParams :=
  match bigint_or (fd_maxFeePerGas feeData) (fd_gasPrice feeData) with
  | None => Throw TypeError
  | Some price =>
      Ok {| gp_maxFeePerGas := Z.quot (price * multiplier) 100;
            gp_maxPriorityFeePerGas :=
              default 0 (bigint_or (fd_maxPriorityFeePerGas feeData) (Some 0)) |}
  end.

(** What generation reads from the endpoint and from the random source. *)
Record GenEnv : Type := {
  getNonce : string -> Z;        (* on-chain nonce of an address *)
  feeData : FeeData;
  multiplier : Z;                (* BigInt(Math.floor(gasMultiplier * 100)) *)
  ethRecipient : string;         (* Wallet.createRandom().address *)
  tokenRecipient : string;       (* Wallet.createRandom().address *)
  ethValue : Z;
  tokenAmount : Z;
  swapEthAmount : Z;
  deadline : Z                   (* Math.floor(Date.now() / 1000) + 3600 *)
}.

Inductive RpcCall : Type :=
  | GetNonce (addr : string)
  | GetFeeData
  | GetBlock (number : Z) (fullTransactions : bool)
  | GetTransaction (hash : string)
  | GetTransactionReceipt (hash : string).

(** ** payload-generator.js *)

Module PayloadGenerator.

Inductive TxType : Type := ETH_TRANSFER | TOKEN_TRANSFER | SWAP.

#[global] Instance TxType_eq_dec : EqDecision TxType.
Proof. solve_decision. Defined.

Record TxMix : Type := { ethTransfer : Z; tokenTransfer : Z; swap : Z }.

Definition defaultMix : TxMix :=
  {| ethTransfer := 100; tokenTransfer := 0; swap := 0 |}.

(** [Math.round((x / total) * 100)], on doubles as in the source. *)
Definition roundedShare (x total : Z) : option Z :=
  JS.Math_round
    (PrimFloat.mul (PrimFloat.div (JS.of_Z x) (JS.of_Z total)) (JS.of_Z 100)).

(** [parseTxMix].  The argument is [None] for a missing or empty string and
    otherwise the array [mixString.split(':').map(p => parseInt(p.trim()) || 0)].
    The result is [None] when a component is NaN or infinite (the parts sum
    to 0). *)
Definition parseTxMix (mixString : option (list Z)) : option TxMix :=
  match mixString with
  | None => Some defaultMix
  | Some parts =>
      let eth := default 100 (parts !! 0%nat) in
      let token := default 0 (parts !! 1%nat) in
      let swap := default 0 (parts !! 2%nat) in
      let total := eth + token + swap in
      e ← roundedShare eth total;
      t ← roundedShare token total;
      s ← roundedShare swap total;
      Some {| ethTransfer := e; tokenTransfer := t; swap := s |}
  end.

Definition getRequiredContracts (txMix : TxMix) : bool * bool :=
  ((tokenTransfer txMix >? 0) || (swap txMix >? 0), swap txMix >? 0).

Record Contracts : Type := {
  token : option string;
  router : option string;
  weth : option string
}.

Record Config : Type := {
  txCount : Z;
  txMix : option TxMix;      (* config.txMix, possibly undefined *)
  cfg_gasLimit : option Z    (* config.gasLimit, possibly undefined *)
}.

Record UnsignedTx : Type := {
  sender : Sender;
  tx : Tx;
  index : Z;
  txType : TxType
}.

Definition generateEthTransferTx (sender : Sender) (nonce : Z) (recipient : string)
    (value : Z) (gasParams : GasParams) (chainId gasLimit : Z) : Tx :=
  {| to := Some recipient; value := value; data := None; nonce := nonce;
     gasLimit := gasLimit; chainId := chainId;
     maxFeePerGas := gp_maxFeePerGas gasParams;
     maxPriorityFeePerGas := gp_maxPriorityFeePerGas gasParams |}.

Definition generateTokenTransferTx (sender : Sender) (nonce : Z)
    (tokenAddress : option string) (recipient : string) (amount : Z)
    (gasParams : GasParams) (chainId : Z) : Tx :=
  {| to := tokenAddress; value := 0;
     data := Some (transfer recipient amount); nonce := nonce;
     gasLimit := 100000; chainId := chainId;
     maxFeePerGas := gp_maxFeePerGas gasParams;
     maxPriorityFeePerGas := gp_maxPriorityFeePerGas gasParams |}.

Definition generateSwapTx (sender : Sender) (nonce : Z)
    (routerAddress wethAddress tokenAddress : option string) (ethAmount : Z)
    (gasParams : GasParams) (chainId deadline : Z) : Tx :=
  {| to := routerAddress; value := ethAmount;
     data := Some (swapExactETHForTokens 0 [wethAddress; tokenAddress]
                     (address sender) deadline);
     nonce := nonce; gasLimit := 200000; chainId := chainId;
     maxFeePerGas := gp_maxFeePerGas gasParams;
     maxPriorityFeePerGas := gp_maxPriorityFeePerGas gasParams |}.

(** The three per-type counts: the ETH and token counts are floored shares,
    the swap count is whatever is left of [txCount]. *)
Definition ethCount (txCount : Z) (m : TxMix) : Z := txCount * ethTransfer m / 100.
Definition tokenCount (txCount : Z) (m : TxMix) : Z := txCount * tokenTransfer m / 100.
Definition swapCount (txCount : Z) (m : TxMix) : Z :=
  txCount - ethCount txCount m - tokenCount txCount m.

(** The [while] loop that interleaves the types.  Each pass consumes one unit
    of [fuel]; [None] would mean the fuel ran out before the loop condition
    became false. *)
Fixpoint interleave (fuel : nat) (ethRemaining tokenRemaining swapRemaining : Z)
    : option (list TxType) :=
  if (ethRemaining >? 0) || (tokenRemaining >? 0) || (swapRemaining >? 0) then
    match fuel with
    | O => None
    | S fuel' =>
        let e := ethRemaining >? 0 in
        let t := tokenRemaining >? 0 in
        let s := swapRemaining >? 0 in
        rest ← interleave fuel'
                 (if e then ethRemaining - 1 else ethRemaining)
                 (if t then tokenRemaining - 1 else tokenRemaining)
                 (if s then swapRemaining - 1 else swapRemaining);
        Some ((if e then [ETH_TRANSFER] else []) ++
              (if t then [TOKEN_TRANSFER] else []) ++
              (if s then [SWAP] else []) ++ rest)
    end
  else Some [].

(** The loop runs as many passes as the largest of the three counts. *)
Definition txAssignments (ethCount tokenCount swapCount : Z) : option (list TxType) :=
  interleave (Z.to_nat (Z.max ethCount (Z.max tokenCount swapCount)))
    ethCount tokenCount swapCount.

(** [new Map(senders.map((s, i) => [s.address, nonces[i]]))]: entries are set
    from left to right, a later entry for the same key replaces an earlier
    one. *)
Definition initialNonces (senders : list Sender) (nonces : list Z) : gmap string Z :=
  foldl (fun m kv => <[kv.1 := kv.2]> m) ∅ (zip (address <$> senders) nonces).

Section build.
Context (senders : list Sender) (env : GenEnv) (gasParams : GasParams)
  (chainId : Z) (config : Config) (contracts : Contracts).

(** One iteration of the [for] loop over [txAssignments], for index [i]. *)
Definition buildTx (txType : TxType) (sender : Sender) (nonce : Z) : Tx :=
  match txType with
  | ETH_TRANSFER =>
      generateEthTransferTx sender nonce (ethRecipient env) (ethValue env)
        gasParams chainId (JS.or_number (cfg_gasLimit config) 21000)
  | TOKEN_TRANSFER =>
      generateTokenTransferTx sender nonce (token contracts) (tokenRecipient env)
        (tokenAmount env) gasParams chainId
  | SWAP =>
      generateSwapTx sender nonce (router contracts) (weth contracts)
        (token contracts) (swapEthAmount env) gasParams chainId (deadline env)
  end.

(** The [for] loop.  [senders[i % senders.length]] is [undefined] when there
    is no sender, and reading its address throws.  Every address of [senders]
    is a key of [senderNonces] from the start, so the lookup that follows
    always answers (lemma [buildLoop_no_missing_nonce]). *)
Fixpoint buildLoop (i : nat) (assignments : list TxType)
    (senderNonces : gmap string Z) : Result (list UnsignedTx) :=
  match assignments with
  | [] => Ok []
  | txType :: rest =>
      match senders !! (i mod length senders)%nat with
      | None => Throw TypeError
      | Some sender =>
          match senderNonces !! address sender with
          | None => Throw (RpcError "nonce missing")
          | Some nonce =>
              more ← buildLoop (S i) rest
                       (<[address sender := nonce + 1]> senderNonces);
              Ok ({| sender := sender;
                     tx := buildTx txType sender nonce;
                     index := Z.of_nat i;
                     txType := txType |} :: more)
          end
      end
  end.

End build.

Record ExpectedTxDetails : Type := {
  senderAddresses : gset string;
  exp_txMix : TxMix;
  counts : Z * Z * Z;
  recipients : string * string;
  exp_contracts : Contracts
}.

Record Payload : Type := {
  unsignedTxs : list UnsignedTx;
  expectedTxDetails : ExpectedTxDetails;
  rpcLog : list RpcCall      (* the requests sent while generating *)
}.

Definition generatePayload (senders : list Sender) (env : GenEnv) (chainId : Z)
    (config : Config) (contracts : Contracts) : Result Payload :=
  let txMix := default defaultMix (txMix config) in
  let ethCount := ethCount (txCount config) txMix in
  let tokenCount := tokenCount (txCount config) txMix in
  let swapCount := swapCount (txCount config) txMix in
  if (tokenCount >? 0) && negb (JS.truthy (token contracts)) then
    Throw TokenAddressRequired
  else if (swapCount >? 0) &&
          (negb (JS.truthy (router contracts)) || negb (JS.truthy (weth contracts))
           || negb (JS.truthy (token contracts))) then
    Throw SwapAddressesRequired
  else
    let nonces := (fun s => getNonce env (address s)) <$> senders in
    let senderNonces := initialNonces senders nonces in
    gasParams ← deriveGasParams (feeData env) (multiplier env);
    match txAssignments ethCount tokenCount swapCount with
    | None => Throw (RpcError "unreachable")
    | Some assignments =>
        txs ← buildLoop senders env gasParams chainId config contracts
                0 assignments senderNonces;
        Ok {| unsignedTxs := txs;
              expectedTxDetails :=
                {| senderAddresses :=
                     list_to_set ((fun s => JS.toLowerCase (address s)) <$> senders);
                   exp_txMix := txMix;
                   counts := (ethCount, tokenCount, swapCount);
                   recipients := (JS.toLowerCase (ethRecipient env),
                                  JS.toLowerCase (tokenRecipient env));
                   exp_contracts :=
                     {| token := JS.toLowerCase <$> token contracts;
                        router := JS.toLowerCase <$> router contracts;
                        weth := JS.toLowerCase <$> weth contracts |} |};
              rpcLog := (GetNonce <$> (address <$> senders)) ++ [GetFeeData] |}
    end.

End PayloadGenerator.

(** ** Contract setup of the mixed driver

    [setupContracts] decides from the mix which contracts are needed, keeps
    the configured addresses where they suffice, and deploys the others.
    What the deployment helpers answer is an input; the deployments that are
    made are returned in a log. *)

Module ContractSetup.
Import PayloadGenerator.

Record Deployer : Type := {
  deployToken : Result (option string);
      (* [tokenResult.contractAddress] *)
  deployUniswap : Result (option string * option string);
      (* [uniswapResult.weth.address] and [uniswapResult.router.address] *)
  addLiquidity : Contracts -> Result unit
      (* the funder's nonce, [approve], [addLiquidityETH] and [getPair], for
         the addresses at hand *)
}.

Inductive Deployment : Type :=
  | DeployToken
  | DeployUniswap
  | AddLiquidity.

Definition setupContracts (txMix : TxMix) (configured : Contracts) (d : Deployer)
    : Result (Contracts * list Deployment) :=
  let '(needsToken, needsUniswap) := getRequiredContracts txMix in
  if negb needsToken && negb needsUniswap then Ok (configured, []) else
  if JS.truthy (token configured)
     && (negb needsUniswap
         || (JS.truthy (weth configured) && JS.truthy (router configured)))
  then Ok (configured, []) else
  '(tokenAddress, deployed) ←
    (if needsToken && negb (JS.truthy (token configured)) then
       a ← deployToken d; Ok (a, [DeployToken])
     else Ok (token configured, []));
  if needsUniswap && negb (JS.truthy (router configured)) then
    '(wethAddress, routerAddress) ← deployUniswap d;
    let contracts :=
      {| token := tokenAddress; router := routerAddress; weth := wethAddress |} in
    _ ← addLiquidity d contracts;
    Ok (contracts, deployed ++ [DeployUniswap; AddLiquidity])
  else
    Ok ({| token := tokenAddress; router := router configured;
           weth := weth configured |}, deployed).

End ContractSetup.

(** ** The broadcaster's worker pool

    [fireAndForgetBroadcast] starts [config.concurrentRequests] copies of one
    [async] worker.  A worker runs without interruption between two [await]s,
    so a run of the pool is an interleaving of three kinds of atomic steps: a
    worker at the head of its loop claims the next queue position
    ([const idx = nextIndex++]) and sends the request, a worker at the head of
    its loop finds the queue exhausted and returns, and a suspended worker is
    resumed with the endpoint's reply, records the outcome and is back at the
    head of its loop.  The two drivers differ only in how a failure is booked,
    which is a parameter of the section. *)

Module Broadcaster.

Record SignedTx : Type := {
  signedTx : string;
  index : Z;
  expectedFrom : string;
  txType : option PayloadGenerator.TxType   (* undefined in the single-type driver *)
}.

(** What came back for one [eth_sendRawTransaction] request.  A [result]
    that is truthy is taken to be a string, as JSON-RPC has it; the [message]
    of the error object is whatever the endpoint sent. *)
Inductive Reply : Type :=
  | Json (result : option string) (errorMessage : JS.Value)
      (* the parsed body: [result.result] and [result.error?.message] *)
  | Rejected (message : option string).
      (* [fetch], [response.json()] or the access to the body threw [err];
         this is [err.message] *)

(** What a worker has to book for an envelope without a hash. *)
Inductive Failure : Type :=
  | ErrorReply (message : JS.Value)    (* the [else] branch: [result.error?.message] *)
  | Thrown (message : option string).  (* the [catch] block: [err.message] *)

(** [categorizeError] calls [errorMsg.toLowerCase()] on every truthy argument.
    A truthy value that is no string has no such method and the call throws a
    TypeError with this message, inside the worker's [try]. *)
Definition notAFunction : string := "errorMsg.toLowerCase is not a function".

Record HashMeta : Type := {
  hash : string;
  hm_index : Z;
  hm_expectedFrom : string;
  hm_txType : option PayloadGenerator.TxType
}.

(** The failure bookkeeping: [errorCount], [firstError], [errorTypes] and
    [errorExamples]. *)
Record ErrorBook : Type := {
  errorCount : nat;
  firstError : JS.Value;
  errorTypes : gmap string nat;
  errorExamples : gmap string string
}.

Definition noErrors : ErrorBook :=
  {| errorCount := 0; firstError := JS.NotStr false; errorTypes := ∅;
     errorExamples := ∅ |}.

(** [errorTypes.set(errorType, (errorTypes.get(errorType) || 0) + 1)] *)
Definition countErrorType (c : Category) (m : gmap string nat) : gmap string nat :=
  <[category_name c := (default 0 (m !! category_name c) + 1)%nat]> m.

(** [if (!firstError) firstError = msg] *)
Definition keepFirstError (firstError msg : JS.Value) : JS.Value :=
  if JS.truthyValue firstError then firstError else msg.

Inductive Pc : Type :=
  | AtLoopHead
  | Awaiting (idx : nat) (envelope : SignedTx)
  | Finished.

Record State : Type := {
  successCount : nat;
  txHashes : list HashMeta;
  errors : ErrorBook;
  nextIndex : nat;
  workers : list Pc;
  handled : list nat;
    (* not a variable of the source: the queue positions whose outcome has
       been recorded, oldest first *)
  failures : list Failure
    (* not a variable of the source: what was booked for the envelopes
       without a hash, oldest first *)
}.

Section pool.
Context (signedTxs : list SignedTx) (concurrentRequests : Z).
(** [bookFailure failure book]: what the [else] branch of the worker,
    together with the [catch] block if the branch throws, or the [catch] block
    alone does to the failure bookkeeping. *)
Context (bookFailure : Failure -> ErrorBook -> ErrorBook).

Definition init : State :=
  {| successCount := 0; txHashes := []; errors := noErrors; nextIndex := 0;
     workers := replicate (Z.to_nat concurrentRequests) AtLoopHead;
     handled := []; failures := [] |}.

(** A worker is resumed with the reply to the request for position [idx]. *)
Definition resume (st : State) (w idx : nat) (e : SignedTx) (reply : Reply) : State :=
  match reply with
  | Json result errorMessage =>
      if JS.truthy result then
        {| successCount := S (successCount st);
           txHashes := txHashes st ++
             [{| hash := default "" result; hm_index := index e;
                 hm_expectedFrom := expectedFrom e; hm_txType := txType e |}];
           errors := errors st;
           nextIndex := nextIndex st;
           workers := <[w := AtLoopHead]> (workers st);
           handled := handled st ++ [idx];
           failures := failures st |}
      else
        {| successCount := successCount st;
           txHashes := txHashes st;
           errors := bookFailure (ErrorReply errorMessage) (errors st);
           nextIndex := nextIndex st;
           workers := <[w := AtLoopHead]> (workers st);
           handled := handled st ++ [idx];
           failures := failures st ++ [ErrorReply errorMessage] |}
  | Rejected message =>
      {| successCount := successCount st;
         txHashes := txHashes st;
         errors := bookFailure (Thrown message) (errors st);
         nextIndex := nextIndex st;
         workers := <[w := AtLoopHead]> (workers st);
         handled := handled st ++ [idx];
         failures := failures st ++ [Thrown message] |}
  end.

(** One atomic step of worker [w].  [reply] is read only when the worker is
    suspended on a request.  [None]: there is no such worker or it has
    returned. *)
Definition exec (st : State) (w : nat) (reply : Reply) : option State :=
  match workers st !! w with
  | Some AtLoopHead =>
      match signedTxs !! nextIndex st with
      | Some e =>            (* nextIndex < signedTxs.length *)
          Some {| successCount := successCount st; txHashes := txHashes st;
                  errors := errors st;
                  nextIndex := S (nextIndex st);
                  workers := <[w := Awaiting (nextIndex st) e]> (workers st);
                  handled := handled st; failures := failures st |}
      | None =>
          Some {| successCount := successCount st; txHashes := txHashes st;
                  errors := errors st;
                  nextIndex := nextIndex st;
                  workers := <[w := Finished]> (workers st);
                  handled := handled st; failures := failures st |}
      end
  | Some (Awaiting idx e) => Some (resume st w idx e reply)
  | Some Finished | None => None
  end.

Definition step (st st' : State) : Prop :=
  ∃ w reply, exec st w reply = Some st'.

(** The states a run can be in, and the ones in which [Promise.all(workers)]
    has resolved. *)
Definition reachable : State -> Prop := rtc step init.

Definition allFinished (st : State) : bool :=
  forallb (fun pc => match pc with Finished => true | _ => false end) (workers st).

(** A run under a given schedule: which worker moves next and, if it is
    suspended, with what reply.  A move of a missing or finished worker is
    skipped. *)
Definition runSchedule (schedule : list (nat * Reply)) (st : State) : State :=
  foldl (fun st move => default st (exec st move.1 move.2)) st schedule.

End pool.
End Broadcaster.

(** ** Receipts, blocks and the answers of the endpoint *)

Record Receipt : Type := {
  r_hash : string;
  blockNumber : Z;
  status : Z;                (* 1 = success, 0 = reverted *)
  gasUsed : Z
}.

Record Block : Type := {
  number : Z;
  timestamp : Z;
  transactions : list string     (* hashes only: getBlock(n, false) *)
}.

Record ChainTx : Type := {
  from : string;
  tx_to : option string;         (* null for a contract creation *)
  tx_value : Z
}.

(** One receipt lookup of the confirmation tracker. *)
Inductive ReceiptReply : Type :=
  | GotReceipt (r : Receipt)
  | NoReceipt          (* the endpoint answered null *)
  | LookupFailed.      (* the request threw; the tracker ignores it *)

Definition receiptOf (reply : ReceiptReply) : option Receipt :=
  match reply with
  | GotReceipt r => Some r
  | NoReceipt | LookupFailed => None
  end.

(** The environment of the confirmation tracker: the reply to each lookup of
    each poll round, the milliseconds the lookups of a round take, and the
    milliseconds by which a [sleep] overshoots. *)
Record PollEnv : Type := {
  getTransactionReceipt : nat -> string -> ReceiptReply;
  lookupMillis : nat -> nat;
  oversleepMillis : nat -> nat
}.

Record PollState : Type := {
  pending : list string;     (* the Set [pending], in insertion order *)
  receipts : list Receipt;
  now : Z;                   (* Date.now() *)
  rounds : nat               (* poll rounds made so far *)
}.

(** The loop of [waitForConfirmations],
    [while (pending.size > 0 && Date.now() - startTime < timeoutMs)], around
    the body [pollRound] of either driver.  [None] would mean that [fuel]
    passes did not reach the end of the loop. *)
Fixpoint pollLoop (pollRound : PollState -> PollState) (startTime timeoutMs : Z)
    (fuel : nat) (st : PollState) : option PollState :=
  if negb (bool_decide (pending st = [])) && (now st - startTime <? timeoutMs) then
    match fuel with
    | O => None
    | S fuel' => pollLoop pollRound startTime timeoutMs fuel' (pollRound st)
    end
  else Some st.

Definition errorMessage (e : Error) : string :=
  match e with
  | TokenAddressRequired => "Token address required for token transfers"
  | SwapAddressesRequired => "Router, WETH, and Token addresses required for swaps"
  | TypeError => "Cannot read properties of undefined"
  | RpcError m => m
  end.

(** Signing in batches of 100: the batches are awaited one after the other,
    a descriptor whose signature fails is dropped, the others are appended in
    order.  [fuel] bounds the number of batches. *)
Fixpoint signBatches {D S : Type} (sign : D -> option S) (fuel : nat)
    (unsignedTxs : list D) : list S :=
  match fuel, unsignedTxs with
  | O, _ | _, [] => []
  | S fuel', _ =>
      omap sign (take 100 unsignedTxs) ++ signBatches sign fuel' (drop 100 unsignedTxs)
  end.

(** How a run of [main] ends: [process.exit(code)] somewhere, or the promise
    of [main] resolves and the process ends with code 0. *)
Inductive MainOutcome : Type :=
  | ProcessExit (code : Z)
  | Completed.

(** [main().catch(err => { ...; process.exit(1) })] *)
Definition exitCode (r : Result MainOutcome) : Z :=
  match r with
  | Ok (ProcessExit code) => code
  | Ok Completed => 0
  | Throw _ => 1
  end.

(** ** tps-test.js, the single-type driver *)

Module TpsTest.
Export Broadcaster.

Record Config : Type := {
  txCount : Z;
  senderCount : Z;
  cfg_gasLimit : Z;
  concurrentRequests : Z;
  verifyAll : bool
}.

Record UnsignedTx : Type := {
  sender : Sender;
  tx : Tx;
  utx_index : Z
}.

Record ExpectedTxDetails : Type := {
  recipient : string;
  exp_value : Z;
  senderAddresses : gset string
}.

Section prepare.
Context (config : Config) (chainId : Z) (env : GenEnv) (gasParams : GasParams).

(** The inner [for] loop: [i] counts the descriptors of this sender, [nonce]
    and [txIndex] advance with it.  [fuel] is the number of iterations the
    loop can make at most. *)
Fixpoint senderTxs (fuel : nat) (sender : Sender) (txsForThisSender i nonce txIndex : Z)
    : list UnsignedTx :=
  match fuel with
  | O => []
  | S fuel' =>
      if (i <? txsForThisSender) && (txIndex <? txCount config) then
        {| sender := sender;
           tx := Build_Tx (* to *) (Some (ethRecipient env)) (* value *) (ethValue env)
                   (* data *) None (* nonce *) nonce (* gasLimit *) (cfg_gasLimit config)
                   (* chainId *) chainId
                   (* maxFeePerGas *) (gp_maxFeePerGas gasParams)
                   (* maxPriorityFeePerGas *) (gp_maxPriorityFeePerGas gasParams);
           utx_index := txIndex |}
        :: senderTxs fuel' sender txsForThisSender (i + 1) (nonce + 1) (txIndex + 1)
      else []
  end.

(** The outer [for] loop over [senders], from the sender at hand on. *)
Fixpoint allSenders (txPerSender : Z) (remaining : list Sender) (txIndex : Z)
    : list UnsignedTx :=
  match remaining with
  | [] => []
  | sender :: remaining' =>
      if txIndex <? txCount config then
        let nonce := getNonce env (address sender) in
        let txsForThisSender := Z.min txPerSender (txCount config - txIndex) in
        let txs := senderTxs (Z.to_nat txsForThisSender) sender
                     txsForThisSender 0 nonce txIndex in
        txs ++ allSenders txPerSender remaining' (txIndex + Z.of_nat (length txs))
      else []
  end.

End prepare.

(** The first half of [prepareAndSignTransactions]: the unsigned descriptors
    and the nonce and fee requests that were needed for them.
    [Math.ceil(txCount / senders.length)] is infinite without senders, and
    then the loop over the senders makes no pass anyway. *)
Definition prepareTransactions (senders : list Sender) (config : Config) (chainId : Z)
    (env : GenEnv) : Result (list UnsignedTx * ExpectedTxDetails * list RpcCall) :=
  let txPerSender := - ((- txCount config) / Z.of_nat (length senders)) in
  gasParams ← deriveGasParams (feeData env) (multiplier env);
  Ok (allSenders config chainId env gasParams txPerSender senders 0,
      {| recipient := JS.toLowerCase (ethRecipient env);
         exp_value := ethValue env;
         senderAddresses :=
           list_to_set ((fun s => JS.toLowerCase (address s)) <$> senders) |},
      (GetNonce <$> (address <$> senders)) ++ [GetFeeData]).

Definition prepareAndSignTransactions (senders : list Sender) (config : Config)
    (chainId : Z) (env : GenEnv) (signTransaction : Sender -> Tx -> option string)
    : Result (list SignedTx * ExpectedTxDetails) :=
  '(unsignedTxs, expectedTxDetails, _) ← prepareTransactions senders config chainId env;
  Ok (signBatches
        (fun u => s ← signTransaction (sender u) (tx u);
                  Some {| signedTx := s; index := utx_index u;
                          expectedFrom := JS.toLowerCase (address (sender u));
                          txType := None |})
        (length unsignedTxs) unsignedTxs,
      expectedTxDetails).

(** [categorizeError], local to [fireAndForgetBroadcast]. *)
Definition categorizeError (errorMsg : option string) : Category :=
  if negb (JS.truthy errorMsg) then unknown else
  let msg := JS.toLowerCase (default "" errorMsg) in
  if JS.includes msg "max fee per gas less than block base fee" then gas_price_too_low
  else if JS.includes msg "nonce too low" then nonce_too_low
  else if JS.includes msg "nonce too high" then nonce_too_high
  else if JS.includes msg "already known" then already_known
  else if JS.includes msg "replacement transaction underpriced" then replacement_underpriced
  else if JS.includes msg "insufficient funds" then insufficient_funds
  else if JS.includes msg "intrinsic gas too low" then gas_too_low
  else if JS.includes msg "timeout" || JS.includes msg "ETIMEDOUT" then timeout
  else if JS.includes msg "connection" || JS.includes msg "ECONNREFUSED" then connection_error
  else other.

(** The statements that the [else] branch and the [catch] block share, for an
    [errorMsg] that is a string: keep the first error, classify, count the
    category, keep an example of at most 100 characters, and count the
    failure last. *)
Definition bookMessage (errorMsg : string) (book : ErrorBook) : ErrorBook :=
  let errorType := categorizeError (Some errorMsg) in
  {| firstError := keepFirstError (firstError book) (JS.Str errorMsg);
     errorTypes := countErrorType errorType (errorTypes book);
     errorExamples :=
       match errorExamples book !! category_name errorType with
       | Some _ => errorExamples book
       | None => <[category_name errorType := String.substring 0 100 errorMsg]>
                   (errorExamples book)
       end;
     errorCount := S (errorCount book) |}.

(** How the worker books a failure.  Both the [else] branch and the [catch]
    block replace a falsy message by 'unknown error'.  In the [else] branch a
    truthy message that is no string is first kept as [firstError], then
    [categorizeError] throws on it, before anything is counted, and the
    [catch] block books the TypeError. *)
Definition bookFailure (failure : Failure) (book : ErrorBook) : ErrorBook :=
  match failure with
  | ErrorReply (JS.Str s) => bookMessage (JS.or_else (Some s) "unknown error") book
  | ErrorReply (JS.NotStr false) => bookMessage "unknown error" book
  | ErrorReply (JS.NotStr true) =>
      bookMessage notAFunction
        {| firstError := keepFirstError (firstError book) (JS.NotStr true);
           errorTypes := errorTypes book;
           errorExamples := errorExamples book;
           errorCount := errorCount book |}
  | Thrown message => bookMessage (JS.or_else message "unknown error") book
  end.

(** [fireAndForgetBroadcast]: the pool's step relation for this driver. *)
Definition fireAndForgetBroadcast (signedTxs : list SignedTx) (config : Config) :=
  step signedTxs bookFailure.

Section confirm.
Context (env : PollEnv).

(** One pass through the body of the [while] loop: poll every pending hash,
    then delete the found ones from [pending] and push their receipts, then
    sleep 100 ms if something is still pending. *)
Definition pollRound (st : PollState) : PollState :=
  let results :=
    (fun hash => (hash, receiptOf (getTransactionReceipt env (rounds st) hash)))
      <$> pending st in
  let found := omap (fun r => rc ← r.2; Some (r.1, rc)) results in
  let pending' := foldl (fun p r => filter (λ h, h ≠ r.1) p) (pending st) found in
  let afterLookups := now st + Z.of_nat (lookupMillis env (rounds st)) in
  {| pending := pending';
     receipts := receipts st ++ found.*2;
     now := if bool_decide (pending' = []) then afterLookups
            else afterLookups + 100 + Z.of_nat (oversleepMillis env (rounds st));
     rounds := S (rounds st) |}.

(** [waitForConfirmations]: a pass that leaves something pending lasts at
    least 100 ms, so [timeoutMs / 100 + 1] passes always suffice. *)
Definition waitForConfirmations (txHashes : list HashMeta) (startTime timeoutMs : Z)
    : option PollState :=
  pollLoop pollRound startTime timeoutMs (Z.to_nat (timeoutMs / 100 + 1))
    {| pending := JS.new_Set (hash <$> txHashes); receipts := [];
       now := startTime; rounds := 0 |}.

End confirm.

(** The endpoint as [analyzeBlockTPS] sees it. *)
Record Provider : Type := {
  getBlock : Z -> Result (option Block);
  getTransaction : string -> Result (option ChainTx);
  getReceipt : string -> Result (option Receipt)
}.

(** One line of [sampleResults]. *)
Inductive SampleResult : Type :=
  | SampleOk (hash from to : string) (value block : Z)
  | SampleFailed (hash : string) (reason : string).

(** [receipt.hash.slice(0, 18) + '...'] *)
Definition shortHash (h : string) : string :=
  String.append (String.substring 0 18 h) "...".

(** The body of the sample loop for one receipt. *)
Definition sampleCheck (provider : Provider) (expected : ExpectedTxDetails)
    (receipt : Receipt) : SampleResult :=
  match getTransaction provider (r_hash receipt) with
  | Throw err => SampleFailed (shortHash (r_hash receipt)) (errorMessage err)
  | Ok tx =>
  match getReceipt provider (r_hash receipt) with
  | Throw err => SampleFailed (shortHash (r_hash receipt)) (errorMessage err)
  | Ok txReceipt =>
  match tx, txReceipt with
  | Some tx, Some txReceipt =>
      let fromMatch := bool_decide (JS.toLowerCase (from tx) ∈ senderAddresses expected) in
      let toMatch := bool_decide (JS.toLowerCase <$> tx_to tx = Some (recipient expected)) in
      let valueMatch := tx_value tx =? exp_value expected in
      let statusOk := status txReceipt =? 1 in
      let blockConfirmed := blockNumber txReceipt >? 0 in
      if fromMatch && toMatch && valueMatch && statusOk && blockConfirmed then
        SampleOk (shortHash (r_hash receipt))
          (String.append (String.substring 0 10 (from tx)) "...")
          (String.append (String.substring 0 10 (default "" (tx_to tx))) "...")
          (tx_value tx) (blockNumber txReceipt)
      else
        SampleFailed (shortHash (r_hash receipt))
          (if negb fromMatch then "from"
           else if negb toMatch then "to"
           else if negb valueMatch then "value"
           else if negb statusOk then "status"
           else "block")
  | _, _ => SampleFailed (shortHash (r_hash receipt)) "not found"
  end end end.

(** [sampleIndices]: [Math.floor((i / sampleSize) * receipts.length)] for
    [i = 0 .. sampleSize - 1], on doubles as in the source. *)
Definition sampleIndex (sampleSize len i : Z) : option Z :=
  JS.Math_floor (PrimFloat.mul (PrimFloat.div (JS.of_Z i) (JS.of_Z sampleSize)) (JS.of_Z len)).

Definition sampleIndices (len : Z) : list (option Z) :=
  let sampleSize := Z.min 10 len in
  sampleIndex sampleSize len <$> seqZ 0 sampleSize.

(** The sample loop: [sampleVerified] and [sampleResults].  An index that is
    no position of [receipts] makes [receipt.hash] throw, in the [try] and
    again in the [catch]. *)
Definition sampleVerification (provider : Provider) (expected : ExpectedTxDetails)
    (receipts : list Receipt) : Result (nat * list SampleResult) :=
  sampled ← mapM
    (fun idx =>
       match idx ≫= (fun i => if i <? 0 then None else receipts !! Z.to_nat i) with
       | Some receipt => Ok receipt
       | None => Throw TypeError
       end) (sampleIndices (Z.of_nat (length receipts)));
  Ok (foldl
        (fun '(sampleVerified, sampleResults) receipt =>
           match sampleCheck provider expected receipt with
           | SampleOk h f t v b =>
               (S sampleVerified, sampleResults ++ [SampleOk h f t v b])
           | SampleFailed h reason =>
               (sampleVerified, sampleResults ++ [SampleFailed h reason])
           end)
        (0%nat, []) sampled).

(** [[...new Set(receipts.map(r => r.blockNumber))].sort((a, b) => a - b)] *)
Definition blockNumbers (receipts : list Receipt) : list Z :=
  merge_sort Z.le (JS.new_Set (blockNumber <$> receipts)).

(** The two nested loops of the block check, over the fetched blocks.  The
    counters are [verifiedTxCount], [verifiedSuccessfulCount] and
    [totalBlockTxCount]. *)
Definition countHash (ourTxHashes successfulTxHashes : gset string)
    (acc : nat * nat * nat) (txHash : string) : nat * nat * nat :=
  let '(verifiedTxCount, verifiedSuccessfulCount, totalBlockTxCount) := acc in
  let hash := JS.toLowerCase txHash in
  if bool_decide (hash ∈ ourTxHashes) then
    (S verifiedTxCount,
     if bool_decide (hash ∈ successfulTxHashes)
     then S verifiedSuccessfulCount else verifiedSuccessfulCount,
     totalBlockTxCount)
  else acc.

Definition countBlock (ourTxHashes successfulTxHashes : gset string)
    (acc : nat * nat * nat) (block : Block) : nat * nat * nat :=
  foldl (countHash ourTxHashes successfulTxHashes)
    (acc.1.1, acc.1.2, (acc.2 + length (transactions block))%nat)
    (transactions block).

Definition countIncluded (ourTxHashes successfulTxHashes : gset string)
    (blocks : list Block) : nat * nat * nat :=
  foldl (countBlock ourTxHashes successfulTxHashes) (0, 0, 0)%nat blocks.

Record Analysis : Type := {
  blockCount : nat;
  successfulTxCount : nat;
  revertedTxCount : nat;
  verifiedTxCount : nat;          (* 'Hash found on-chain' *)
  verifiedSuccessfulCount : nat;
  totalBlockTxCount : nat;
  sampleVerified : nat;
  sampleSize : Z;
  sampleResults : list SampleResult;
  requests : list RpcCall         (* the block requests that were sent *)
}.

(** [analyzeBlockTPS] up to and including the sample check (the opt-in full
    verification and the rate arithmetic follow it in the source).  [Ok None]
    is the [null] returned when there is no receipt; a failing block request
    rejects the whole call, and so does a block that comes back [null]. *)
Definition analyzeBlockTPS (provider : Provider) (receipts : list Receipt)
    (expectedTxDetails : ExpectedTxDetails) : Result (option Analysis) :=
  if bool_decide (receipts = []) then Ok None else
  let successful := filter (λ r, status r = 1) receipts in
  let blockNumbers := blockNumbers receipts in
  fetched ← mapM (fun num => getBlock provider num) blockNumbers;
  blocks ← mapM (fun b => match b with Some b => Ok b | None => Throw TypeError end) fetched;
  let ourTxHashes := list_to_set ((fun r => JS.toLowerCase (r_hash r)) <$> receipts) in
  let successfulTxHashes :=
    list_to_set ((fun r => JS.toLowerCase (r_hash r)) <$> successful) in
  let '(verified, verifiedSuccessful, total) :=
    countIncluded ourTxHashes successfulTxHashes blocks in
  '(sampleVerified, sampleResults) ←
    sampleVerification provider expectedTxDetails receipts;
  Ok (Some {| blockCount := length blockNumbers;
              successfulTxCount := length successful;
              revertedTxCount := (length receipts - length successful)%nat;
              verifiedTxCount := verified;
              verifiedSuccessfulCount := verifiedSuccessful;
              totalBlockTxCount := total;
              sampleVerified := sampleVerified;
              sampleSize := Z.min 10 (Z.of_nat (length receipts));
              sampleResults := sampleResults;
              requests := (fun num => GetBlock num false) <$> blockNumbers |}).

(** What [main] awaits, phase by phase.  Each phase returns or throws;
    preparing and signing is the function above, run on what the endpoint and
    the signer answer. *)
Record Phases : Type := {
  connect : Result unit;           (* getNetwork and getBlockNumber *)
  funderBalance : Result Z;
  requiredBalance : Z;             (* senderCount * fundingAmount, in wei *)
  getNetwork : Result Z;           (* the chain id *)
  createAndFundSenders : Result (list Sender);
  genEnv : GenEnv;
  signTransaction : Sender -> Tx -> option string;
  broadcast : list SignedTx -> Result (list HashMeta * nat);
      (* txHashes and errorCount *)
  confirm : list HashMeta -> Result (list Receipt);
  analyze : list Receipt -> ExpectedTxDetails -> Result (option Analysis);
  generateReport : Result unit
}.

Definition main (config : Config) (p : Phases) : Result MainOutcome :=
  match connect p with
  | Throw _ => Ok (ProcessExit 1)
  | Ok _ =>
      funderBalance ← funderBalance p;
      if funderBalance <? requiredBalance p then Ok (ProcessExit 1) else
      chainId ← getNetwork p;
      senders ← createAndFundSenders p;
      if bool_decide (senders = []) then Ok (ProcessExit 1) else
      '(signedTxs, expectedTxDetails) ←
        prepareAndSignTransactions senders config chainId (genEnv p) (signTransaction p);
      if bool_decide (signedTxs = []) then Ok (ProcessExit 1) else
      '(txHashes, failed) ← broadcast p signedTxs;
      if bool_decide (txHashes = []) then Ok (ProcessExit 1) else
      receipts ← confirm p txHashes;
      tpsAnalysis ← analyze p receipts expectedTxDetails;
      _ ← generateReport p;
      Ok Completed
  end.

End TpsTest.

(** ** The mixed-payload driver *)

Module TpsTestMixed.
Export Broadcaster.

Record Config : Type := {
  txCount : Z;
  senderCount : Z;
  concurrentRequests : Z;
  txMix : PayloadGenerator.TxMix;
  cfg_gasLimit : option Z;
  verifyAll : bool
}.

Definition payloadConfig (config : Config) : PayloadGenerator.Config :=
  {| PayloadGenerator.txCount := txCount config;
     PayloadGenerator.txMix := Some (txMix config);
     PayloadGenerator.cfg_gasLimit := cfg_gasLimit config |}.

(** [signTransactions] of the payload generator, as this driver calls it. *)
Definition signTransactions (signTransaction : Sender -> Tx -> option string)
    (unsignedTxs : list PayloadGenerator.UnsignedTx) : list SignedTx :=
  signBatches
    (fun u => s ← signTransaction (PayloadGenerator.sender u) (PayloadGenerator.tx u);
              Some {| signedTx := s; index := PayloadGenerator.index u;
                      expectedFrom := JS.toLowerCase (address (PayloadGenerator.sender u));
                      txType := Some (PayloadGenerator.txType u) |})
    (length unsignedTxs) unsignedTxs.

Definition prepareAndSignTransactions (senders : list Sender) (config : Config)
    (chainId : Z) (env : GenEnv) (contracts : PayloadGenerator.Contracts)
    (signTransaction : Sender -> Tx -> option string)
    : Result (list SignedTx * PayloadGenerator.ExpectedTxDetails) :=
  payload ← PayloadGenerator.generatePayload senders env chainId
              (payloadConfig config) contracts;
  Ok (signTransactions signTransaction (PayloadGenerator.unsignedTxs payload),
      PayloadGenerator.expectedTxDetails payload).

(** [categorizeError], local to [fireAndForgetBroadcast]. *)
Definition categorizeError (errorMsg : option string) : Category :=
  if negb (JS.truthy errorMsg) then unknown else
  let msg := JS.toLowerCase (default "" errorMsg) in
  if JS.includes msg "max fee per gas less than block base fee" then gas_price_too_low
  else if JS.includes msg "nonce too low" then nonce_too_low
  else if JS.includes msg "nonce too high" then nonce_too_high
  else if JS.includes msg "already known" then already_known
  else if JS.includes msg "replacement transaction underpriced" then replacement_underpriced
  else if JS.includes msg "insufficient funds" then insufficient_funds
  else if JS.includes msg "intrinsic gas too low" then gas_too_low
  else if JS.includes msg "timeout" || JS.includes msg "ETIMEDOUT" then timeout
  else if JS.includes msg "connection" || JS.includes msg "ECONNREFUSED" then connection_error
  else if JS.includes msg "execution reverted" then execution_reverted
  else other.

(** The [catch] block: count the failure, classify [err.message] as it is,
    count the category, keep the first error; no example is kept. *)
Definition bookThrown (message : option string) (book : ErrorBook) : ErrorBook :=
  {| errorCount := S (errorCount book);
     errorTypes := countErrorType (categorizeError message) (errorTypes book);
     errorExamples := errorExamples book;
     firstError := keepFirstError (firstError book) (JS.ofOption message) |}.

(** The [else] branch after [errorCount++], for an [errorMsg] that is a
    string: classify, count the category, keep an example, keep the first
    error. *)
Definition bookMessage (errorMsg : string) (book : ErrorBook) : ErrorBook :=
  let errorType := categorizeError (Some errorMsg) in
  {| errorCount := errorCount book;
     errorTypes := countErrorType errorType (errorTypes book);
     errorExamples :=
       match errorExamples book !! category_name errorType with
       | Some _ => errorExamples book
       | None => <[category_name errorType := errorMsg]> (errorExamples book)
       end;
     firstError := keepFirstError (firstError book) (JS.Str errorMsg) |}.

(** How the worker books a failure.  The [else] branch counts the failure
    first and replaces a falsy message by 'Unknown error'.  On a truthy
    message that is no string [categorizeError] throws after the failure has
    been counted, and the [catch] block counts it again and books the
    TypeError. *)
Definition bookFailure (failure : Failure) (book : ErrorBook) : ErrorBook :=
  match failure with
  | ErrorReply message =>
      let counted :=
        {| errorCount := S (errorCount book);
           errorTypes := errorTypes book;
           errorExamples := errorExamples book;
           firstError := firstError book |} in
      match message with
      | JS.Str s => bookMessage (JS.or_else (Some s) "Unknown error") counted
      | JS.NotStr false => bookMessage "Unknown error" counted
      | JS.NotStr true => bookThrown (Some notAFunction) counted
      end
  | Thrown message => bookThrown message book
  end.

(** [fireAndForgetBroadcast]: the pool's step relation for this driver. *)
Definition fireAndForgetBroadcast (signedTxs : list SignedTx) (config : Config) :=
  step signedTxs bookFailure.

Section confirm.
Context (env : PollEnv).

(** One pass through the body of the [while] loop: poll the first 100
    pending hashes, each found one is deleted from [pending] by its own
    lookup, the receipts are pushed in batch order, then sleep 500 ms if
    something is still pending. *)
Definition pollRound (st : PollState) : PollState :=
  let checkBatch := take 100 (pending st) in
  let batchReceipts :=
    (fun hash => (hash, receiptOf (getTransactionReceipt env (rounds st) hash)))
      <$> checkBatch in
  let pending' :=
    foldl (fun p r => if r.2 is Some _ then filter (λ h, h ≠ r.1) p else p)
      (pending st) batchReceipts in
  let afterLookups := now st + Z.of_nat (lookupMillis env (rounds st)) in
  {| pending := pending';
     receipts := receipts st ++ omap snd batchReceipts;
     now := if bool_decide (pending' = []) then afterLookups
            else afterLookups + 500 + Z.of_nat (oversleepMillis env (rounds st));
     rounds := S (rounds st) |}.

(** [waitForConfirmations]: a pass that leaves something pending lasts at
    least 500 ms, so [timeoutMs / 500 + 1] passes always suffice. *)
Definition waitForConfirmations (txHashes : list HashMeta) (startTime timeoutMs : Z)
    : option PollState :=
  pollLoop pollRound startTime timeoutMs (Z.to_nat (timeoutMs / 500 + 1))
    {| pending := JS.new_Set (hash <$> txHashes); receipts := [];
       now := startTime; rounds := 0 |}.

End confirm.

(** [Math.min(...l)] and [Math.max(...l)] of a non-empty array. *)
Definition Math_min (l : list Z) : Z := foldr Z.min (default 0 (head l)) l.
Definition Math_max (l : list Z) : Z := foldr Z.max (default 0 (head l)) l.

Record Tally : Type := {
  totalBlockTxCount : nat;
  ourTxCount : nat;
  verifiedTxCount : nat;
  verifiedSuccessfulCount : nat;
  revertedTxCount : nat;
  verifiedByType : gmap string nat;
  blockStats : list (Z * Z * nat * nat)  (* number, timestamp, total, ours *)
}.

Definition typeName (t : PayloadGenerator.TxType) : string :=
  match t with
  | PayloadGenerator.ETH_TRANSFER => "eth_transfer"
  | PayloadGenerator.TOKEN_TRANSFER => "token_transfer"
  | PayloadGenerator.SWAP => "swap"
  end.

Section analyze.
Context (receipts : list Receipt) (txHashToMeta : gmap string HashMeta).

(** The body of the loop over one block's hashes. *)
Definition countHash (acc : Tally * nat) (hash : string) : Tally * nat :=
  let '(t, blockOurTxCount) := acc in
  let hashLower := JS.toLowerCase hash in
  match txHashToMeta !! hashLower with
  | None => acc
  | Some meta =>
      let t := {| totalBlockTxCount := totalBlockTxCount t;
                  ourTxCount := S (ourTxCount t);
                  verifiedTxCount := verifiedTxCount t;
                  verifiedSuccessfulCount := verifiedSuccessfulCount t;
                  revertedTxCount := revertedTxCount t;
                  verifiedByType := verifiedByType t;
                  blockStats := blockStats t |} in
      match list_find (λ r, JS.toLowerCase (r_hash r) = hashLower) receipts with
      | None => (t, S blockOurTxCount)
      | Some (_, receipt) =>
          if status receipt =? 1 then
            ({| totalBlockTxCount := totalBlockTxCount t;
                ourTxCount := ourTxCount t;
                verifiedTxCount := S (verifiedTxCount t);
                verifiedSuccessfulCount := S (verifiedSuccessfulCount t);
                revertedTxCount := revertedTxCount t;
                verifiedByType :=
                  match hm_txType meta with
                  | Some ty =>
                      <[typeName ty :=
                          (default 0 (verifiedByType t !! typeName ty) + 1)%nat]>
                        (verifiedByType t)
                  | None => verifiedByType t
                  end;
                blockStats := blockStats t |}, S blockOurTxCount)
          else
            ({| totalBlockTxCount := totalBlockTxCount t;
                ourTxCount := ourTxCount t;
                verifiedTxCount := S (verifiedTxCount t);
                verifiedSuccessfulCount := verifiedSuccessfulCount t;
                revertedTxCount := S (revertedTxCount t);
                verifiedByType := verifiedByType t;
                blockStats := blockStats t |}, S blockOurTxCount)
      end
  end.

(** The body of the loop over the fetched blocks; a [null] block is skipped. *)
Definition countBlock (t : Tally) (block : option Block) : Tally :=
  match block with
  | None => t
  | Some block =>
      let txHashes := transactions block in
      let t0 := {| totalBlockTxCount := (totalBlockTxCount t + length txHashes)%nat;
                   ourTxCount := ourTxCount t;
                   verifiedTxCount := verifiedTxCount t;
                   verifiedSuccessfulCount := verifiedSuccessfulCount t;
                   revertedTxCount := revertedTxCount t;
                   verifiedByType := verifiedByType t;
                   blockStats := blockStats t |} in
      let '(t1, blockOurTxCount) := foldl countHash (t0, 0%nat) txHashes in
      {| totalBlockTxCount := totalBlockTxCount t1;
         ourTxCount := ourTxCount t1;
         verifiedTxCount := verifiedTxCount t1;
         verifiedSuccessfulCount := verifiedSuccessfulCount t1;
         revertedTxCount := revertedTxCount t1;
         verifiedByType := verifiedByType t1;
         blockStats := blockStats t1 ++
           [(number block, timestamp block, length txHashes, blockOurTxCount)] |}
  end.

End analyze.

Definition emptyTally : Tally :=
  {| totalBlockTxCount := 0; ourTxCount := 0; verifiedTxCount := 0;
     verifiedSuccessfulCount := 0; revertedTxCount := 0;
     verifiedByType := {[ "eth_transfer" := 0%nat; "token_transfer" := 0%nat;
                          "swap" := 0%nat ]};
     blockStats := [] |}.

Record Analysis : Type := {
  firstBlock : Z;
  lastBlock : Z;
  tally : Tally;
  sampleVerified : nat;       (* Math.min(10, verifiedTxCount) *)
  sampleSize : nat;           (* Math.min(10, verifiedTxCount) *)
  requests : list RpcCall     (* the block requests that were sent *)
}.

(** [analyzeBlockTPS] without the rate arithmetic.  [Ok None] is the [null]
    returned when there is no receipt; a failing block request rejects the
    whole call, and reading [blockStats[0].timestamp] throws when every
    fetched block was [null]. *)
Definition analyzeBlockTPS (getBlock : Z -> Result (option Block))
    (receipts : list Receipt) (txHashesWithMeta : list HashMeta)
    : Result (option Analysis) :=
  if bool_decide (receipts = []) then Ok None else
  let blockNumbers := merge_sort Z.le (JS.new_Set (blockNumber <$> receipts)) in
  let firstBlock := Math_min blockNumbers in
  let lastBlock := Math_max blockNumbers in
  let range := seqZ firstBlock (lastBlock - firstBlock + 1) in
  blocks ← mapM getBlock range;
  let txHashToMeta :=
    foldl (fun m meta => <[JS.toLowerCase (hash meta) := meta]> m) ∅ txHashesWithMeta in
  let t := foldl (countBlock receipts txHashToMeta) emptyTally blocks in
  if bool_decide (blockStats t = []) then Throw TypeError else
  Ok (Some {| firstBlock := firstBlock; lastBlock := lastBlock; tally := t;
              sampleVerified := Nat.min 10 (verifiedTxCount t);
              sampleSize := Nat.min 10 (verifiedTxCount t);
              requests := (fun i => GetBlock i false) <$> range |}).

(** What [main] awaits, phase by phase.  Each phase returns or throws;
    preparing and signing is the function above, run on what the endpoint and
    the signer answer. *)
Record Phases : Type := {
  connect : Result unit;           (* getNetwork and getBlockNumber *)
  funderBalance : Result Z;
  getNetwork : Result Z;           (* the chain id *)
  setupContracts : Result PayloadGenerator.Contracts;
  createAndFundSenders : Result (list Sender);
  genEnv : GenEnv;
  signTransaction : Sender -> Tx -> option string;
  broadcast : list SignedTx -> Result (list HashMeta * nat);
      (* txHashes and errorCount *)
  confirm : list HashMeta -> Result (list Receipt);
  analyze : list Receipt -> list HashMeta -> Result (option Analysis);
  generateReport : Result unit
}.

Definition main (config : Config) (p : Phases) : Result MainOutcome :=
  match connect p with
  | Throw _ => Ok (ProcessExit 1)
  | Ok _ =>
      funderBalance ← funderBalance p;
      chainId ← getNetwork p;
      contracts ← setupContracts p;
      senders ← createAndFundSenders p;
      if bool_decide (senders = []) then Ok (ProcessExit 1) else
      '(signedTxs, expectedTxDetails) ←
        prepareAndSignTransactions senders config chainId (genEnv p) contracts
          (signTransaction p);
      if bool_decide (signedTxs = []) then Ok (ProcessExit 1) else
      '(txHashes, failed) ← broadcast p signedTxs;
      if bool_decide (txHashes = []) then Ok (ProcessExit 1) else
      receipts ← confirm p txHashes;
      tpsAnalysis ← analyze p receipts txHashes;
      _ ← generateReport p;
      Ok Completed
  end.

End TpsTestMixed.

(** * Vocabulary of the properties

    The definitions below are not transcribed from the source.  They name
    what the theorems talk about: the rule tables the classifier is compared
    with, the quantities the worker pool preserves, the contract of the
    confirmation tracker, the hashes a block check counts, and a few concrete
    inputs on which the theorems are exercised. *)

(** ** The classifier as an ordered rule table *)

Module Classifier.

(** The category of the first rule whose substring occurs in [msg]. *)
Definition firstMatch (rules : list (string * Category)) (msg : string) : Category :=
  match list_find (λ r, JS.includes msg r.1 = true) rules with
  | Some (_, r) => r.2
  | None => other
  end.

Definition classify (rules : list (string * Category)) (errorMsg : option string)
    : Category :=
  if negb (JS.truthy errorMsg) then unknown
  else firstMatch rules (JS.toLowerCase (default "" errorMsg)).

Definition commonRules : list (string * Category) :=
  [ ("max fee per gas less than block base fee", gas_price_too_low);
    ("nonce too low", nonce_too_low);
    ("nonce too high", nonce_too_high);
    ("already known", already_known);
    ("replacement transaction underpriced", replacement_underpriced);
    ("insufficient funds", insufficient_funds);
    ("intrinsic gas too low", gas_too_low) ].

(** The order of the single-type driver, which has no rule for a revert. *)
Definition rulesSingle : list (string * Category) :=
  commonRules ++ [ ("timeout", timeout); ("connection", connection_error) ].

(** The order of the mixed driver. *)
Definition rulesMixed : list (string * Category) :=
  rulesSingle ++ [ ("execution reverted", execution_reverted) ].

(** The order as the specification lists it: the revert rule before the
    timeout and connection rules. *)
Definition rulesAsDocumented : list (string * Category) :=
  commonRules ++
  [ ("execution reverted", execution_reverted);
    ("timeout", timeout); ("connection", connection_error) ].

(** Every substring the source tests for, the two upper-case ones included. *)
Definition needlesSingle : list string :=
  (fst <$> rulesSingle) ++ ["ETIMEDOUT"; "ECONNREFUSED"].
Definition needlesMixed : list string :=
  (fst <$> rulesMixed) ++ ["ETIMEDOUT"; "ECONNREFUSED"].

(** [c] is one of the characters of [s]. *)
Fixpoint occurs (c : ascii) (s : string) : Prop :=
  match s with
  | EmptyString => False
  | String d s' => c = d ∨ occurs c s'
  end.

End Classifier.

(** ** Generation *)

Definition isGetNonce (c : RpcCall) : bool :=
  match c with
  | GetNonce _ => true
  | _ => false
  end.

(** The descriptors whose sender has address [a]. *)
Definition ownedBy (a : string) (txs : list PayloadGenerator.UnsignedTx)
    : list PayloadGenerator.UnsignedTx :=
  filter (λ u, address (PayloadGenerator.sender u) = a) txs.

(** How often a type occurs in an assignment list. *)
Definition countOf (ty : PayloadGenerator.TxType) (l : list PayloadGenerator.TxType) : nat :=
  length (filter (λ t, t = ty) l).

(** ** The worker pool *)

Module Pool.
Import Broadcaster.

Definition inflightOf (pc : Pc) : option nat :=
  match pc with
  | Awaiting idx _ => Some idx
  | AtLoopHead | Finished => None
  end.

(** The queue positions that are claimed and not yet answered. *)
Definition inflight (st : State) : list nat := omap inflightOf (workers st).

Definition weight (pc : Pc) : nat :=
  match pc with
  | Finished => 0
  | AtLoopHead => 1
  | Awaiting _ _ => 2
  end.

(** An upper bound on the steps a pool can still make. *)
Definition stepsLeft (queueLength : nat) (st : State) : nat :=
  2 * (queueLength - nextIndex st) + sum_list_with weight (workers st).

(** A failure whose message is truthy and no string. *)
Definition oddMessage (f : Failure) : bool :=
  match f with
  | ErrorReply (JS.NotStr true) => true
  | _ => false
  end.

(** How often a failure is counted beyond once: never, or once more when its
    message is truthy and no string. *)
Definition once (f : Failure) : nat := 0.
Definition twiceIfOdd (f : Failure) : nat := if oddMessage f then 1 else 0.

(** The failures of a run whose message is truthy and no string. *)
Definition oddMessages (st : State) : list Failure :=
  filter (λ f, oddMessage f = true) (failures st).

(** What every reachable state of the pool satisfies, where a failure [f] is
    counted [1 + extra f] times. *)
Record Inv (signedTxs : list SignedTx) (extra : Failure → nat) (st : State) : Prop := {
  inv_next : (nextIndex st ≤ length signedTxs)%nat;
  inv_once : handled st ++ inflight st ≡ₚ seq 0 (nextIndex st);
  inv_outcomes : (length (txHashes st) + length (failures st))%nat = length (handled st);
  inv_success : successCount st = length (txHashes st);
  inv_errors :
    errorCount (errors st)
    = (length (failures st) + sum_list_with extra (failures st))%nat;
  inv_nonempty : Forall (λ h, hash h ≠ "") (txHashes st);
  inv_finished :
    Forall (λ pc, pc = Finished → nextIndex st = length signedTxs) (workers st)
}.

(** The contract of the pool for one way of booking failures, where a failure
    [f] is counted [1 + extra f] times.  In a finished run every queue
    position has been handled exactly once and has one outcome, a hash or a
    failure; the success count is the number of hashes, none of them empty,
    and the failure count is the number of failures and their extra counts.
    Every step brings the end nearer, a pool that is not finished can always
    move, every schedule is a run, and every state can be run to the end. *)
Definition Contract (signedTxs : list SignedTx) (concurrentRequests : Z)
    (bookFailure : Failure → ErrorBook → ErrorBook) (extra : Failure → nat) : Prop :=
  (∀ st,
     reachable signedTxs concurrentRequests bookFailure st →
     allFinished st = true →
     handled st ≡ₚ seq 0 (length signedTxs) ∧
     (length (txHashes st) + length (failures st))%nat = length signedTxs ∧
     successCount st = length (txHashes st) ∧
     errorCount (errors st)
     = (length (failures st) + sum_list_with extra (failures st))%nat ∧
     Forall (λ h, hash h ≠ "") (txHashes st)) ∧
  (∀ st st',
     step signedTxs bookFailure st st' →
     (stepsLeft (length signedTxs) st' < stepsLeft (length signedTxs) st)%nat) ∧
  (∀ st reply,
     allFinished st = false → ∃ w st', exec signedTxs bookFailure st w reply = Some st') ∧
  (∀ schedule,
     reachable signedTxs concurrentRequests bookFailure
       (runSchedule signedTxs bookFailure schedule (init concurrentRequests))) ∧
  (∀ st, ∃ st', rtc (step signedTxs bookFailure) st st' ∧ allFinished st' = true).

End Pool.

(** The failures an error book has counted, over all categories. *)
Definition bookTotal (errorTypes : gmap string nat) : nat :=
  map_fold (λ _ count total, (count + total)%nat) 0%nat errorTypes.

(** ** The confirmation tracker *)

(** The lookup of [h] in poll round [round] came back with a receipt. *)
Definition answered (env : PollEnv) (round : nat) (h : string) : Prop :=
  is_Some (receiptOf (getTransactionReceipt env round h)).

#[export] Instance answered_dec env round h : Decision (answered env round h).
Proof. unfold answered. apply _. Defined.

(** The state in which [waitForConfirmations] enters its loop. *)
Definition pollStart (txHashes : list Broadcaster.HashMeta) (startTime : Z) : PollState :=
  {| pending := JS.new_Set (Broadcaster.hash <$> txHashes); receipts := [];
     now := startTime; rounds := 0 |}.

(** The contract of [waitForConfirmations] around the loop body [pollRound],
    whose lookups in a state cover the hashes [polled].

    Of one round: a polled hash with a receipt leaves [pending] in that very
    round and its receipt is kept; a hash leaves [pending] for no other
    reason; receipts are only added; with nothing pending or the timeout
    reached the loop makes no further pass and hands back the state as it is.

    Of the call: it always returns, with nothing pending or with the timeout
    reached.  What it returns is the state after [rounds final] rounds of
    polling from [pollStart], each of them entered with something pending and
    before the timeout.  The hashes still pending are the given hashes that
    had no receipt whenever they were polled, the receipts are the ones that
    the lookups of these rounds came back with, only given hashes are ever
    looked up, and a receipt and a pending hash together account for every
    distinct given hash. *)
Definition TrackerContract (pollRound : PollEnv → PollState → PollState)
    (polled : PollState → list string)
    (waitForConfirmations :
       PollEnv → list Broadcaster.HashMeta → Z → Z → option PollState)
    : Prop :=
  (∀ env st h rc,
     h ∈ polled st → getTransactionReceipt env (rounds st) h = GotReceipt rc →
     (h ∉ pending (pollRound env st)) ∧ rc ∈ receipts (pollRound env st)) ∧
  (∀ env st h,
     h ∈ pending st → h ∉ pending (pollRound env st) →
     h ∈ polled st ∧ ∃ rc, getTransactionReceipt env (rounds st) h = GotReceipt rc) ∧
  (∀ env st, (receipts st) `prefix_of` (receipts (pollRound env st))) ∧
  (∀ env startTime timeoutMs fuel st,
     pending st = [] ∨ timeoutMs ≤ now st - startTime →
     pollLoop (pollRound env) startTime timeoutMs fuel st = Some st) ∧
  (∀ env txHashes startTime timeoutMs,
     ∃ final,
       waitForConfirmations env txHashes startTime timeoutMs = Some final ∧
       (pending final = [] ∨ timeoutMs ≤ now final - startTime) ∧
       pending final ⊆ JS.new_Set (Broadcaster.hash <$> txHashes) ∧
       let after k := Nat.iter k (pollRound env) (pollStart txHashes startTime) in
       final = after (rounds final) ∧
       (∀ k, (k < rounds final)%nat →
          pending (after k) ≠ [] ∧ now (after k) - startTime < timeoutMs) ∧
       (∀ k h, h ∈ polled (after k) → h ∈ Broadcaster.hash <$> txHashes) ∧
       (∀ h, h ∈ pending final ↔
             h ∈ Broadcaster.hash <$> txHashes ∧
             ∀ k, (k < rounds final)%nat →
                  ¬ (h ∈ polled (after k) ∧ answered env k h)) ∧
       (∀ rc, rc ∈ receipts final ↔
              ∃ k h, (k < rounds final)%nat ∧ h ∈ polled (after k) ∧
                     getTransactionReceipt env k h = GotReceipt rc) ∧
       NoDup (pending final) ∧
       (length (receipts final) + length (pending final))%nat
       = length (JS.new_Set (Broadcaster.hash <$> txHashes))).

(** ** The verifier *)

(** The hashes listed in the fetched blocks, block after block. *)
Definition listedHashes (blocks : list Block) : list string :=
  concat (transactions <$> blocks).

(** The claimed hashes of the single-type driver: those of the receipts. *)
Definition claimedByReceipts (receipts : list Receipt) : gset string :=
  list_to_set ((fun r => JS.toLowerCase (r_hash r)) <$> receipts).

(** The hashes the broadcaster was given back by the endpoint. *)
Definition broadcastHashes (metas : list Broadcaster.HashMeta) : gset string :=
  list_to_set ((fun m => JS.toLowerCase (Broadcaster.hash m)) <$> metas).

(** The claimed hashes of the mixed driver: broadcast, and with a receipt. *)
Definition claimedByBroadcast (metas : list Broadcaster.HashMeta)
    (receipts : list Receipt) : gset string :=
  broadcastHashes metas ∩ claimedByReceipts receipts.

(** The listed entries that are claimed, compared in lower case. *)
Definition included (claimed : gset string) (listed : list string) : list string :=
  filter (λ h, JS.toLowerCase h ∈ claimed) listed.

Definition isSampleOk (r : TpsTest.SampleResult) : bool :=
  match r with
  | TpsTest.SampleOk _ _ _ _ _ => true
  | TpsTest.SampleFailed _ _ => false
  end.

(** The reasons the sample check writes itself. *)
Definition namedReasons : list string :=
  ["from"; "to"; "value"; "status"; "block"; "not found"].

(** When the sample check of a receipt is a failure, and with which reason:
    a request threw and the reason is the message of what it threw, or the
    transaction or its receipt came back [null], or both were fetched and the
    reason names the first of the five comparisons that does not hold. *)
Definition failsWith (provider : TpsTest.Provider) (expected : TpsTest.ExpectedTxDetails)
    (receipt : Receipt) (reason : string) : Prop :=
  (∃ err,
     TpsTest.getTransaction provider (r_hash receipt) = Throw err ∧
     reason = errorMessage err) ∨
  (∃ tx err,
     TpsTest.getTransaction provider (r_hash receipt) = Ok tx ∧
     TpsTest.getReceipt provider (r_hash receipt) = Throw err ∧
     reason = errorMessage err) ∨
  (∃ tx txReceipt,
     TpsTest.getTransaction provider (r_hash receipt) = Ok tx ∧
     TpsTest.getReceipt provider (r_hash receipt) = Ok txReceipt ∧
     (tx = None ∨ txReceipt = None) ∧
     reason = "not found") ∨
  (∃ tx txReceipt,
     TpsTest.getTransaction provider (r_hash receipt) = Ok (Some tx) ∧
     TpsTest.getReceipt provider (r_hash receipt) = Ok (Some txReceipt) ∧
     let fromMatch := JS.toLowerCase (from tx) ∈ TpsTest.senderAddresses expected in
     let toMatch := JS.toLowerCase <$> tx_to tx = Some (TpsTest.recipient expected) in
     let valueMatch := tx_value tx = TpsTest.exp_value expected in
     let statusOk := status txReceipt = 1 in
     let blockConfirmed := 0 < blockNumber txReceipt in
     (¬ fromMatch ∧ reason = "from") ∨
     (fromMatch ∧ ¬ toMatch ∧ reason = "to") ∨
     (fromMatch ∧ toMatch ∧ ¬ valueMatch ∧ reason = "value") ∨
     (fromMatch ∧ toMatch ∧ valueMatch ∧ ¬ statusOk ∧ reason = "status") ∨
     (fromMatch ∧ toMatch ∧ valueMatch ∧ statusOk ∧ ¬ blockConfirmed ∧
      reason = "block")).

(** When the sample check of a receipt is a pass: both were fetched and the
    five comparisons hold. *)
Definition passesWith (provider : TpsTest.Provider) (expected : TpsTest.ExpectedTxDetails)
    (receipt : Receipt) (tx : ChainTx) (txReceipt : Receipt) : Prop :=
  TpsTest.getTransaction provider (r_hash receipt) = Ok (Some tx) ∧
  TpsTest.getReceipt provider (r_hash receipt) = Ok (Some txReceipt) ∧
  JS.toLowerCase (from tx) ∈ TpsTest.senderAddresses expected ∧
  JS.toLowerCase <$> tx_to tx = Some (TpsTest.recipient expected) ∧
  tx_value tx = TpsTest.exp_value expected ∧
  status txReceipt = 1 ∧
  0 < blockNumber txReceipt.

(** Line [line] of the sample is the check of the receipt at position [idx],
    which is a position of [receipts]. *)
Definition checksReceiptAt (provider : TpsTest.Provider)
    (expected : TpsTest.ExpectedTxDetails) (receipts : list Receipt)
    (idx : option Z) (line : TpsTest.SampleResult) : Prop :=
  ∃ i receipt,
    idx = Some i ∧ 0 ≤ i ∧ receipts !! Z.to_nat i = Some receipt ∧
    line = TpsTest.sampleCheck provider expected receipt.

(** ** The drivers' exit codes *)

(** Every phase returned, and there was a sender, a signed transaction and an
    accepted broadcast.  Nothing is asked of the number of failed broadcasts,
    of the receipts or of the analysis. *)
Definition runsToCompletionSingle (config : TpsTest.Config) (p : TpsTest.Phases) : Prop :=
  ∃ balance chainId senders signedTxs expected txHashes failed receipts analysis,
    TpsTest.connect p = Ok tt ∧
    TpsTest.funderBalance p = Ok balance ∧ TpsTest.requiredBalance p ≤ balance ∧
    TpsTest.getNetwork p = Ok chainId ∧
    TpsTest.createAndFundSenders p = Ok senders ∧ senders ≠ [] ∧
    TpsTest.prepareAndSignTransactions senders config chainId (TpsTest.genEnv p)
      (TpsTest.signTransaction p) = Ok (signedTxs, expected) ∧ signedTxs ≠ [] ∧
    TpsTest.broadcast p signedTxs = Ok (txHashes, failed) ∧ txHashes ≠ [] ∧
    TpsTest.confirm p txHashes = Ok receipts ∧
    TpsTest.analyze p receipts expected = Ok analysis ∧
    TpsTest.generateReport p = Ok tt.

Definition runsToCompletionMixed (config : TpsTestMixed.Config) (p : TpsTestMixed.Phases)
    : Prop :=
  ∃ balance chainId contracts senders signedTxs expected txHashes failed receipts analysis,
    TpsTestMixed.connect p = Ok tt ∧
    TpsTestMixed.funderBalance p = Ok balance ∧
    TpsTestMixed.getNetwork p = Ok chainId ∧
    TpsTestMixed.setupContracts p = Ok contracts ∧
    TpsTestMixed.createAndFundSenders p = Ok senders ∧ senders ≠ [] ∧
    TpsTestMixed.prepareAndSignTransactions senders config chainId (TpsTestMixed.genEnv p)
      contracts (TpsTestMixed.signTransaction p) = Ok (signedTxs, expected) ∧
    signedTxs ≠ [] ∧
    TpsTestMixed.broadcast p signedTxs = Ok (txHashes, failed) ∧ txHashes ≠ [] ∧
    TpsTestMixed.confirm p txHashes = Ok receipts ∧
    TpsTestMixed.analyze p receipts txHashes = Ok analysis ∧
    TpsTestMixed.generateReport p = Ok tt.

(** ** Concrete inputs *)

Module Demo.

Definition senders : list Sender :=
  [ {| address := "0xA0" |}; {| address := "0xA1" |}; {| address := "0xA2" |};
    {| address := "0xA3" |}; {| address := "0xA4" |}; {| address := "0xA5" |};
    {| address := "0xA6" |}; {| address := "0xA7" |}; {| address := "0xA8" |};
    {| address := "0xA9" |} ].

Definition env : GenEnv :=
  {| getNonce := fun a => if String.eqb a "0xA0" then 7 else 0;
     feeData := {| fd_maxFeePerGas := Some 100; fd_gasPrice := Some 100;
                   fd_maxPriorityFeePerGas := None |};
     multiplier := 200;
     ethRecipient := "0xE0"; tokenRecipient := "0xE1";
     ethValue := 10; tokenAmount := 100; swapEthAmount := 1000;
     deadline := 3600 |}.

Definition allContracts : PayloadGenerator.Contracts :=
  {| PayloadGenerator.token := Some "0xC0"; PayloadGenerator.router := Some "0xC1";
     PayloadGenerator.weth := Some "0xC2" |}.
Definition tokenOnly : PayloadGenerator.Contracts :=
  {| PayloadGenerator.token := Some "0xC0"; PayloadGenerator.router := None;
     PayloadGenerator.weth := None |}.
Definition noContracts : PayloadGenerator.Contracts :=
  {| PayloadGenerator.token := None; PayloadGenerator.router := None;
     PayloadGenerator.weth := None |}.

(** Deployment helpers that succeed. *)
Definition deployer : ContractSetup.Deployer :=
  {| ContractSetup.deployToken := Ok (Some "0xD0");
     ContractSetup.deployUniswap := Ok (Some "0xD2", Some "0xD1");
     ContractSetup.addLiquidity := fun _ => Ok tt |}.

Definition mix (e t s : Z) : PayloadGenerator.TxMix :=
  {| PayloadGenerator.ethTransfer := e; PayloadGenerator.tokenTransfer := t;
     PayloadGenerator.swap := s |}.

Definition config (n e t s : Z) : PayloadGenerator.Config :=
  {| PayloadGenerator.txCount := n;
     PayloadGenerator.txMix := Some (mix e t s);
     PayloadGenerator.cfg_gasLimit := None |}.

Definition singleConfig (n : Z) : TpsTest.Config :=
  {| TpsTest.txCount := n; TpsTest.senderCount := 10; TpsTest.cfg_gasLimit := 21000;
     TpsTest.concurrentRequests := 2; TpsTest.verifyAll := false |}.

Definition mixedConfig (n : Z) : TpsTestMixed.Config :=
  {| TpsTestMixed.txCount := n; TpsTestMixed.senderCount := 10;
     TpsTestMixed.concurrentRequests := 2; TpsTestMixed.txMix := mix 100 0 0;
     TpsTestMixed.cfg_gasLimit := None; TpsTestMixed.verifyAll := false |}.

(** Three envelopes, and a run of two workers over them: one accepted, one
    refused by the endpoint, one lost to a network error. *)
Definition queue : list Broadcaster.SignedTx :=
  [ {| Broadcaster.signedTx := "0x02f8a0"; Broadcaster.index := 0;
       Broadcaster.expectedFrom := "0xa0"; Broadcaster.txType := None |};
    {| Broadcaster.signedTx := "0x02f8a1"; Broadcaster.index := 1;
       Broadcaster.expectedFrom := "0xa1"; Broadcaster.txType := None |};
    {| Broadcaster.signedTx := "0x02f8a2"; Broadcaster.index := 2;
       Broadcaster.expectedFrom := "0xa2"; Broadcaster.txType := None |} ].

Definition schedule : list (nat * Broadcaster.Reply) :=
  [ (0%nat, Broadcaster.Rejected None);
    (1%nat, Broadcaster.Rejected None);
    (1%nat, Broadcaster.Json None (JS.Str "nonce too low: next nonce 4, tx nonce 3"));
    (0%nat, Broadcaster.Json (Some "0x5e1f") (JS.NotStr false));
    (1%nat, Broadcaster.Rejected None);
    (0%nat, Broadcaster.Rejected None);
    (1%nat, Broadcaster.Rejected (Some "fetch failed"));
    (1%nat, Broadcaster.Rejected None) ].

(** A run of two workers over three envelopes in which the endpoint refuses
    every request. *)
Definition refusals : list (nat * Broadcaster.Reply) :=
  [ (0%nat, Broadcaster.Rejected None);
    (1%nat, Broadcaster.Rejected None);
    (0%nat, Broadcaster.Json None (JS.Str "insufficient funds for gas * price + value"));
    (0%nat, Broadcaster.Rejected None);
    (1%nat, Broadcaster.Rejected (Some "fetch failed"));
    (1%nat, Broadcaster.Rejected None);
    (0%nat, Broadcaster.Json None (JS.NotStr false));
    (0%nat, Broadcaster.Rejected None) ].

(** A run of one worker over the first envelope, to which the endpoint
    answers with an error whose message is a number. *)
Definition numericMessage : list (nat * Broadcaster.Reply) :=
  [ (0%nat, Broadcaster.Rejected None);
    (0%nat, Broadcaster.Json None (JS.NotStr true));
    (0%nat, Broadcaster.Rejected None) ].

(** An endpoint that never has a receipt, and one that has every receipt from
    the second poll round on. *)
Definition silentEndpoint : PollEnv :=
  {| getTransactionReceipt := fun _ _ => NoReceipt;
     lookupMillis := fun _ => 3%nat;
     oversleepMillis := fun _ => 0%nat |}.

Definition slowEndpoint : PollEnv :=
  {| getTransactionReceipt := fun round h =>
       if (1 <=? round)%nat then
         GotReceipt {| r_hash := h; blockNumber := 7; status := 1; gasUsed := 21000 |}
       else LookupFailed;
     lookupMillis := fun _ => 3%nat;
     oversleepMillis := fun _ => 1%nat |}.

(** A hundred and one broadcast hashes, 0x, 0xa, 0xaa, ..., and an endpoint
    that has a receipt for the last of them only. *)
Definition manyHashes : list Broadcaster.HashMeta :=
  (fun i => {| Broadcaster.hash :=
                 String.append "0x" (string_of_list_ascii (replicate i "a"%char));
               Broadcaster.hm_index := Z.of_nat i;
               Broadcaster.hm_expectedFrom := "0xa0";
               Broadcaster.hm_txType := None |}) <$> seq 0 101.

Definition lastOnly : PollEnv :=
  {| getTransactionReceipt := fun _ h =>
       if (String.length h =? 102)%nat then
         GotReceipt {| r_hash := h; blockNumber := 7; status := 1; gasUsed := 21000 |}
       else NoReceipt;
     lookupMillis := fun _ => 3%nat;
     oversleepMillis := fun _ => 0%nat |}.

Definition twoHashes : list Broadcaster.HashMeta :=
  [ {| Broadcaster.hash := "0x01"; Broadcaster.hm_index := 0;
       Broadcaster.hm_expectedFrom := "0xa0"; Broadcaster.hm_txType := None |};
    {| Broadcaster.hash := "0x02"; Broadcaster.hm_index := 1;
       Broadcaster.hm_expectedFrom := "0xa0"; Broadcaster.hm_txType := None |} ].

(** Two receipts, in blocks 5 and 7, on a chain whose block 6 holds other
    senders' transactions. *)
Definition twoReceipts : list Receipt :=
  [ {| r_hash := "0x01"; blockNumber := 5; status := 1; gasUsed := 21000 |};
    {| r_hash := "0x02"; blockNumber := 7; status := 0; gasUsed := 21000 |} ].

Definition blockAt (n : Z) : Block :=
  {| number := n; timestamp := 1700000000 + n;
     transactions := if n =? 5 then ["0x01"; "0xf5"]
                     else if n =? 7 then ["0x02"]
                     else ["0xf6"] |}.

(** The endpoint for the verifier; every transaction went from 0xa0 to
    [recipientOnChain]. *)
Definition provider (recipientOnChain : string) : TpsTest.Provider :=
  {| TpsTest.getBlock := fun n => Ok (Some (blockAt n));
     TpsTest.getTransaction := fun h =>
       Ok (Some {| from := "0xA0"; tx_to := Some recipientOnChain; tx_value := 10 |});
     TpsTest.getReceipt := fun h =>
       Ok (Some {| r_hash := h; blockNumber := 5; status := 1; gasUsed := 21000 |}) |}.

Definition expected : TpsTest.ExpectedTxDetails :=
  {| TpsTest.recipient := "0xe0"; TpsTest.exp_value := 10;
     TpsTest.senderAddresses := {[ "0xa0" ]} |}.

(** A run of the single-type driver in which the endpoint refuses every
    broadcast, and a run of the mixed driver in which two of three broadcasts
    fail, no receipt arrives in time and there is nothing to analyse. *)
Definition allRefused : TpsTest.Phases :=
  {| TpsTest.connect := Ok tt;
     TpsTest.funderBalance := Ok 1000;
     TpsTest.requiredBalance := 100;
     TpsTest.getNetwork := Ok 412346;
     TpsTest.createAndFundSenders := Ok senders;
     TpsTest.genEnv := env;
     TpsTest.signTransaction := fun _ _ => Some "0x02f8";
     TpsTest.broadcast := fun signedTxs => Ok ([], length signedTxs);
     TpsTest.confirm := fun _ => Ok [];
     TpsTest.analyze := fun _ _ => Ok None;
     TpsTest.generateReport := Ok tt |}.

Definition degraded : TpsTestMixed.Phases :=
  {| TpsTestMixed.connect := Ok tt;
     TpsTestMixed.funderBalance := Ok 1000;
     TpsTestMixed.getNetwork := Ok 412346;
     TpsTestMixed.setupContracts := Ok noContracts;
     TpsTestMixed.createAndFundSenders := Ok (take 4 senders);
     TpsTestMixed.genEnv := env;
     TpsTestMixed.signTransaction := fun _ _ => Some "0x02f8";
     TpsTestMixed.broadcast := fun signedTxs => Ok (take 1 twoHashes, 2%nat);
     TpsTestMixed.confirm := fun _ => Ok [];
     TpsTestMixed.analyze := fun _ _ => Ok None;
     TpsTestMixed.generateReport := Ok tt |}.

End Demo.

(** * Proofs *)

(** ** General list facts *)

Lemma filter_all {A} (P : A → Prop) `{∀ x, Decision (P x)} (l : list A) :
  Forall P l → filter P l = l.
Proof.
  induction 1 as [|x l Hx _ IH]; [done|]. by rewrite filter_cons_True, IH.
Qed.

Lemma filter_none {A} (P : A → Prop) `{∀ x, Decision (P x)} (l : list A) :
  Forall (λ x, ¬ P x) l → filter P l = [].
Proof.
  induction 1 as [|x l Hx _ IH]; [done|]. by rewrite filter_cons_False.
Qed.

Lemma filter_ext_in {A} (P Q : A → Prop) `{∀ x, Decision (P x)} `{∀ x, Decision (Q x)}
    (l : list A) :
  (∀ x, x ∈ l → P x ↔ Q x) → filter P l = filter Q l.
Proof.
  induction l as [|x l IH]; intros Hext; [done|].
  rewrite !filter_cons. rewrite IH by (intros y Hy; apply Hext; by right).
  destruct (decide (P x)) as [HP|HP], (decide (Q x)) as [HQ|HQ]; try done;
    exfalso; apply (Hext x) in HP || apply (Hext x) in HQ; done || by left.
Qed.

Lemma seqZ_S (n : Z) (k : nat) :
  seqZ n (Z.of_nat (S k)) = n :: seqZ (n + 1) (Z.of_nat k).
Proof. rewrite seqZ_cons by lia. f_equal. f_equal; lia. Qed.

Lemma forallb_false_lookup {A} (f : A → bool) (l : list A) :
  forallb f l = false → ∃ i x, l !! i = Some x ∧ f x = false.
Proof.
  induction l as [|x l IH]; simpl; [done|].
  destruct (f x) eqn:Hx; simpl.
  - intros (i & y & Hi & Hy)%IH. by exists (S i), y.
  - intros _. by exists 0%nat, x.
Qed.

(** ** The error classifier *)

Section classifier.
Import Classifier.

Lemma lower_char_not_upper c : JS.is_upper (JS.lower_char c) = false.
Proof. destruct c as [[] [] [] [] [] [] [] []]; reflexivity. Qed.

Lemma includes_head_occurs s c needle :
  JS.includes s (String c needle) = true → occurs c s.
Proof.
  induction s as [|d s IH]; simpl.
  - discriminate.
  - destruct (ascii_dec c d) as [->|_]; [auto|].
    simpl. intros H. right. apply IH. exact H.
Qed.

Lemma toLowerCase_no_upper s c : occurs c (JS.toLowerCase s) → JS.is_upper c = false.
Proof.
  induction s as [|d s IH]; simpl; [tauto|].
  intros [->|H]; [apply lower_char_not_upper | auto].
Qed.

(** A lower-cased message contains no substring that starts with a capital:
    the tests for ETIMEDOUT and ECONNREFUSED never succeed. *)
Lemma lowered_excludes_upper s c needle :
  JS.is_upper c = true → JS.includes (JS.toLowerCase s) (String c needle) = false.
Proof.
  intros Hc. destruct (JS.includes _ _) eqn:E; [|done].
  apply includes_head_occurs, toLowerCase_no_upper in E. congruence.
Qed.

Lemma firstMatch_cons msg needle c rules :
  firstMatch ((needle, c) :: rules) msg =
  if JS.includes msg needle then c else firstMatch rules msg.
Proof.
  unfold firstMatch. simpl.
  destruct (JS.includes msg needle); case_decide; try done.
  destruct (list_find _ rules) as [[i r]|]; done.
Qed.

Lemma categorizeError_mixed_table m :
  TpsTestMixed.categorizeError m = classify rulesMixed m.
Proof.
  unfold TpsTestMixed.categorizeError, classify.
  destruct (negb (JS.truthy m)); [done|].
  rewrite !(lowered_excludes_upper _ "E") by done.
  rewrite !orb_false_r.
  unfold rulesMixed, rulesSingle, commonRules. simpl app.
  rewrite !firstMatch_cons. done.
Qed.

Lemma categorizeError_single_table m :
  TpsTest.categorizeError m = classify rulesSingle m.
Proof.
  unfold TpsTest.categorizeError, classify.
  destruct (negb (JS.truthy m)); [done|].
  rewrite !(lowered_excludes_upper _ "E") by done.
  rewrite !orb_false_r.
  unfold rulesSingle, commonRules. simpl app.
  rewrite !firstMatch_cons. done.
Qed.

Lemma truthy_false (m : option string) :
  JS.truthy m = false ↔ m = None ∨ m = Some "".
Proof.
  destruct m as [s|]; simpl.
  - rewrite negb_false_iff, String.eqb_eq. split; [intros ->; by right|].
    intros [?|[= ->]]; done.
  - split; [by left|done].
Qed.

Lemma truthy_true (m : option string) :
  JS.truthy m = true ↔ ∃ s, m = Some s ∧ s ≠ "".
Proof.
  destruct m as [s|]; simpl.
  - rewrite negb_true_iff, String.eqb_neq. split; [by exists s|].
    intros (s' & [= ->] & Hs). done.
  - split; [done|]. intros (s & ? & _). done.
Qed.

Lemma firstMatch_other rules msg :
  Forall (λ r, r.2 ≠ other) rules →
  firstMatch rules msg = other ↔ Forall (λ r, JS.includes msg r.1 = false) rules.
Proof.
  induction rules as [|[needle c] rules IH]; intros Hc.
  - split; [constructor | done].
  - rewrite firstMatch_cons, Forall_cons. simpl.
    apply Forall_cons in Hc as [Hc Hrest]. simpl in Hc.
    destruct (JS.includes msg needle).
    + split; [done|]. intros [? _]. done.
    + rewrite IH by done. tauto.
Qed.

Lemma classify_unknown rules m :
  Forall (λ r, r.2 ≠ unknown) rules →
  classify rules m = unknown ↔ m = None ∨ m = Some "".
Proof.
  intros Hc. rewrite <-truthy_false. unfold classify.
  destruct (JS.truthy m); simpl; [|done].
  split; [|done]. unfold firstMatch.
  destruct (list_find _ rules) as [[i r]|] eqn:E; [|done].
  apply list_find_Some in E as (Hi & _ & _).
  intros Hr. eapply Forall_lookup_1 in Hc; [|exact Hi]. done.
Qed.

Lemma classify_other rules m :
  Forall (λ r, r.2 ≠ other) rules →
  classify rules m = other ↔
  ∃ s, m = Some s ∧ s ≠ "" ∧
       Forall (λ r, JS.includes (JS.toLowerCase s) r.1 = false) rules.
Proof.
  intros Hc. unfold classify.
  destruct (JS.truthy m) eqn:Ht; simpl.
  - apply truthy_true in Ht as (s & -> & Hs). simpl.
    rewrite firstMatch_other by done. split; [by exists s|].
    intros (s' & [= <-] & _ & H). done.
  - split; [done|]. intros (s & -> & Hs & _).
    apply truthy_false in Ht as [?|[= ?]]; done.
Qed.

Lemma no_match_upper_needles s (rules : list (string * Category)) :
  Forall (λ r, JS.includes (JS.toLowerCase s) r.1 = false) rules ↔
  Forall (λ needle, JS.includes (JS.toLowerCase s) needle = false)
    ((fst <$> rules) ++ ["ETIMEDOUT"; "ECONNREFUSED"]).
Proof.
  rewrite Forall_app, Forall_fmap. split.
  - intros H. split; [exact H|].
    repeat constructor; by apply lowered_excludes_upper.
  - intros [H _]. exact H.
Qed.

(** C2 (as amended).  The classifier of either driver is the first-match
    lookup of the lower-cased message in its rule table.  The table of the
    mixed driver is ordered gas-price-too-low, nonce-too-low, nonce-too-high,
    already-known, replacement-underpriced, insufficient-funds,
    gas-limit-too-low, timeout, connection-error, execution-reverted; that of
    the single-type driver is the same without the last rule.  Every
    substring of a table, taken as the message, gets the category of its
    rule, and a non-empty message that contains none of them gets [other]. *)
Theorem categorizeError_priority_order :
  (∀ m, TpsTestMixed.categorizeError m = classify rulesMixed m) ∧
  (∀ m, TpsTest.categorizeError m = classify rulesSingle m) ∧
  Forall (λ r, TpsTestMixed.categorizeError (Some r.1) = r.2) rulesMixed ∧
  Forall (λ r, TpsTest.categorizeError (Some r.1) = r.2) rulesSingle ∧
  (∀ s, s ≠ "" →
        Forall (λ r, JS.includes (JS.toLowerCase s) r.1 = false) rulesMixed →
        TpsTestMixed.categorizeError (Some s) = other) ∧
  (∀ s, s ≠ "" →
        Forall (λ r, JS.includes (JS.toLowerCase s) r.1 = false) rulesSingle →
        TpsTest.categorizeError (Some s) = other).
Proof.
  split_and!.
  - apply categorizeError_mixed_table.
  - apply categorizeError_single_table.
  - repeat constructor.
  - repeat constructor.
  - intros s Hs H. rewrite categorizeError_mixed_table.
    apply classify_other; [repeat constructor; done | eauto].
  - intros s Hs H. rewrite categorizeError_single_table.
    apply classify_other; [repeat constructor; done | eauto].
Qed.

Lemma categorizeError_priority_order_witness :
  TpsTestMixed.categorizeError (Some "Request failed: HTTP 502") = other.
Proof.
  apply (proj1 (proj2 (proj2 (proj2 (proj2 categorizeError_priority_order))))).
  - done.
  - repeat constructor.
Defined.

(** The documented order puts the revert rule before the timeout rule; the
    mixed driver tests it last, and the single-type driver not at all. *)
Lemma categorizeError_not_documented_order :
  TpsTestMixed.categorizeError (Some "execution reverted: timeout") = timeout ∧
  classify rulesAsDocumented (Some "execution reverted: timeout") = execution_reverted ∧
  TpsTest.categorizeError (Some "execution reverted") = other.
Proof. repeat split. Qed.

(** The upper-case tests are dead: a message that is just the error code is
    filed under [other]. *)
Lemma categorizeError_error_codes :
  TpsTestMixed.categorizeError (Some "ETIMEDOUT") = other ∧
  TpsTestMixed.categorizeError (Some "connect ECONNREFUSED 127.0.0.1:8547") = other ∧
  TpsTest.categorizeError (Some "ETIMEDOUT") = other.
Proof. repeat split. Qed.

(** C10.  The classifier answers [unknown] exactly for a missing or empty
    message, and [other] exactly for a non-empty message whose lower-cased
    text contains none of the substrings the source tests for; the two
    categories have different names. *)
Theorem categorizeError_unknown_or_other (m : option string) :
  (TpsTestMixed.categorizeError m = unknown ↔ m = None ∨ m = Some "") ∧
  (TpsTest.categorizeError m = unknown ↔ m = None ∨ m = Some "") ∧
  (TpsTestMixed.categorizeError m = other ↔
     ∃ s, m = Some s ∧ s ≠ "" ∧
          Forall (λ needle, JS.includes (JS.toLowerCase s) needle = false) needlesMixed) ∧
  (TpsTest.categorizeError m = other ↔
     ∃ s, m = Some s ∧ s ≠ "" ∧
          Forall (λ needle, JS.includes (JS.toLowerCase s) needle = false) needlesSingle) ∧
  category_name unknown ≠ category_name other.
Proof.
  rewrite categorizeError_mixed_table, categorizeError_single_table.
  split_and!.
  - apply classify_unknown. repeat constructor; done.
  - apply classify_unknown. repeat constructor; done.
  - rewrite classify_other by (repeat constructor; done).
    unfold needlesMixed. by setoid_rewrite <-no_match_upper_needles.
  - rewrite classify_other by (repeat constructor; done).
    unfold needlesSingle. by setoid_rewrite <-no_match_upper_needles.
  - done.
Qed.

End classifier.

(** ** Nonces of the payload generator *)

Section payload_loop.
Import PayloadGenerator.
Context (senders : list Sender) (env : GenEnv) (gasParams : GasParams)
  (chainId : Z) (config : Config) (contracts : Contracts).

Local Abbreviation loop := (buildLoop senders env gasParams chainId config contracts).

(** The descriptors of one address carry the consecutive nonces that start
    at the address's entry in [senderNonces]. *)
Lemma buildLoop_nonces assignments : ∀ i m out a n0,
  loop i assignments m = Ok out →
  m !! a = Some n0 →
  (λ u, nonce (tx u)) <$> ownedBy a out = seqZ n0 (Z.of_nat (length (ownedBy a out))).
Proof.
  induction assignments as [|ty rest IH]; intros i m out a n0; simpl.
  - intros [= <-] _. done.
  - destruct (senders !! _) as [s|]; [|done].
    destruct (m !! address s) as [n|] eqn:Hn; [|done].
    destruct (loop (S i) rest _) as [more|] eqn:Hmore; [|done].
    intros [= <-] Ha. unfold ownedBy. rewrite filter_cons. simpl.
    case_decide as Hs.
    + subst a. assert (n0 = n) as -> by congruence.
      cbn [length fmap list_fmap]. rewrite seqZ_S. simpl.
      f_equal; [by destruct ty|].
      eapply IH; [exact Hmore|]. by rewrite lookup_insert_eq.
    + eapply IH; [exact Hmore|]. by rewrite lookup_insert_ne.
Qed.

(** The descriptors are numbered from [i] on and carry the assigned types. *)
Lemma buildLoop_index assignments : ∀ i m out,
  loop i assignments m = Ok out →
  index <$> out = seqZ (Z.of_nat i) (Z.of_nat (length assignments)) ∧
  txType <$> out = assignments.
Proof.
  induction assignments as [|ty rest IH]; intros i m out; simpl.
  - intros [= <-]. done.
  - destruct (senders !! _) as [s|]; [|done].
    destruct (m !! address s) as [n|] eqn:Hn; [|done].
    destruct (loop (S i) rest _) as [more|] eqn:Hmore; [|done].
    intros [= <-]. apply IH in Hmore as [Hi Ht].
    rewrite !fmap_cons, Hi, Ht, seqZ_S. simpl. split; [|done].
    do 2 f_equal. lia.
Qed.

(** The loop never misses a nonce while every sender's address is a key. *)
Lemma buildLoop_no_missing_nonce assignments : ∀ i m,
  (∀ s, s ∈ senders → is_Some (m !! address s)) →
  loop i assignments m ≠ Throw (RpcError "nonce missing").
Proof.
  induction assignments as [|ty rest IH]; intros i m Hm; simpl; [done|].
  destruct (senders !! _) as [s|] eqn:Hs; [|done].
  destruct (Hm s) as [n Hn]; [by eapply list_elem_of_lookup_2|]. rewrite Hn.
  specialize (IH (S i) (<[address s := n + 1]> m)).
  destruct (loop (S i) rest _) as [more|e]; [done|]. simpl.
  intros [= ->]. apply IH; [|done].
  intros s' Hs'. destruct (decide (address s = address s')) as [->|Hne].
  - rewrite lookup_insert_eq. eauto.
  - rewrite lookup_insert_ne by done. auto.
Qed.

End payload_loop.

Lemma foldl_insert_keeps (l : list (string * Z)) : ∀ (m : gmap string Z) b,
  is_Some (m !! b) →
  is_Some (foldl (fun m kv => <[kv.1 := kv.2]> m) m l !! b).
Proof.
  induction l as [|[k v] l IH]; intros m b Hs; simpl; [done|].
  apply IH. destruct (decide (k = b)) as [->|Hne].
  - rewrite lookup_insert_eq. eauto.
  - by rewrite lookup_insert_ne.
Qed.

Lemma initialNonces_lookup_gen (f : string → Z) (addrs : list string) :
  ∀ m0 : gmap string Z,
  (∀ a v, m0 !! a = Some v → v = f a) →
  let m := foldl (fun m kv => <[kv.1 := kv.2]> m) m0 (zip addrs (f <$> addrs)) in
  (∀ a v, m !! a = Some v → v = f a) ∧
  (∀ a, a ∈ addrs → is_Some (m !! a)).
Proof.
  induction addrs as [|b addrs IH]; intros m0 H0; simpl.
  - split; [done|]. intros a Ha. by apply elem_of_nil in Ha.
  - destruct (IH (<[b := f b]> m0)) as [Hv Hd].
    { intros a v. destruct (decide (a = b)) as [->|Hne].
      - rewrite lookup_insert_eq. congruence.
      - rewrite lookup_insert_ne by done. apply H0. }
    split; [exact Hv|].
    intros a [->|Ha]%elem_of_cons; [|by apply Hd].
    apply foldl_insert_keeps. rewrite lookup_insert_eq. eauto.
Qed.

(** The initial [senderNonces] maps every sender's address to the nonce the
    chain reported for it. *)
Lemma initialNonces_lookup (env : GenEnv) (senders : list Sender) (s : Sender) :
  s ∈ senders →
  PayloadGenerator.initialNonces senders ((λ s, getNonce env (address s)) <$> senders)
    !! address s = Some (getNonce env (address s)).
Proof.
  intros Hs. unfold PayloadGenerator.initialNonces.
  change ((λ s, getNonce env (address s)) <$> senders)
    with ((getNonce env ∘ address) <$> senders).
  rewrite (list_fmap_compose address (getNonce env)).
  destruct (initialNonces_lookup_gen (getNonce env) (address <$> senders) ∅) as [Hv Hd].
  { intros a v. by rewrite lookup_empty. }
  destruct (Hd (address s)) as [v Hvs].
  { apply list_elem_of_fmap. eauto. }
  rewrite Hvs. f_equal. eauto.
Qed.

Lemma sender_by_address (s : Sender) (txs : list PayloadGenerator.UnsignedTx) :
  filter (λ u, PayloadGenerator.sender u = s) txs = ownedBy (address s) txs.
Proof.
  unfold ownedBy. apply list_filter_iff. intros u.
  destruct s as [a], (PayloadGenerator.sender u) as [b]. simpl.
  split; [by intros [= ->] | by intros ->].
Qed.

Lemma nonce_queries_logged (addrs : list string) :
  filter isGetNonce ((GetNonce <$> addrs) ++ [GetFeeData]) = GetNonce <$> addrs.
Proof.
  induction addrs as [|a addrs IH]; [done|].
  rewrite fmap_cons, <-app_comm_cons, filter_cons_True by done. by rewrite IH.
Qed.

Lemma generatePayload_nonces senders env chainId config contracts payload s :
  PayloadGenerator.generatePayload senders env chainId config contracts = Ok payload →
  s ∈ senders →
  let mine := filter (λ u, PayloadGenerator.sender u = s)
                (PayloadGenerator.unsignedTxs payload) in
  (λ u, nonce (PayloadGenerator.tx u)) <$> mine =
    seqZ (getNonce env (address s)) (Z.of_nat (length mine)) ∧
  filter isGetNonce (PayloadGenerator.rpcLog payload) = GetNonce <$> (address <$> senders).
Proof.
  unfold PayloadGenerator.generatePayload. intros H Hs.
  destruct (_ && negb (JS.truthy (PayloadGenerator.token contracts))); [done|].
  destruct (_ && (_ || _ || _)); [done|].
  destruct (deriveGasParams _ _) as [gp|]; [|done]. simpl in H.
  destruct (PayloadGenerator.txAssignments _ _ _) as [assignments|]; [|done].
  destruct (PayloadGenerator.buildLoop _ _ _ _ _ _ _ _ _) as [txs|] eqn:Hloop; [|done].
  simpl in H. injection H as <-. simpl. split.
  - rewrite sender_by_address. eapply buildLoop_nonces; [exact Hloop|].
    by apply initialNonces_lookup.
  - apply nonce_queries_logged.
Qed.

(** ** Nonces of the single-type driver *)

Section prepare_nonces.
Import TpsTest.
Context (config : Config) (chainId : Z) (env : GenEnv) (gasParams : GasParams).

Local Abbreviation inner := (senderTxs config chainId env gasParams).
Local Abbreviation outer := (allSenders config chainId env gasParams).

Lemma senderTxs_spec fuel : ∀ s k i n t,
  Forall (λ u, sender u = s) (inner fuel s k i n t) ∧
  (λ u, nonce (tx u)) <$> inner fuel s k i n t =
    seqZ n (Z.of_nat (length (inner fuel s k i n t))).
Proof.
  induction fuel as [|fuel IH]; intros s k i n t; simpl; [done|].
  case_match; [|done].
  destruct (IH s k (i + 1) (n + 1) (t + 1)) as [Hs Hn].
  split; [by constructor|].
  cbn [length]. rewrite seqZ_S, fmap_cons, Hn. done.
Qed.

(** The fuel of the inner loop is never the reason it stops. *)
Lemma senderTxs_length fuel : ∀ s k i n t,
  k - i ≤ Z.of_nat fuel →
  Z.of_nat (length (inner fuel s k i n t))
  = Z.max 0 (Z.min (k - i) (txCount config - t)).
Proof.
  induction fuel as [|fuel IH]; intros s k i n t Hfuel; simpl; [lia|].
  destruct (Z.ltb_spec i k), (Z.ltb_spec t (txCount config)); simpl; try lia.
  rewrite Nat2Z.inj_succ, IH by lia. lia.
Qed.

Lemma allSenders_owner txPerSender remaining : ∀ t,
  Forall (λ u, sender u ∈ remaining) (outer txPerSender remaining t).
Proof.
  induction remaining as [|s remaining IH]; intros t; simpl; [done|].
  case_match; [|done]. apply Forall_app. split.
  - eapply Forall_impl; [apply senderTxs_spec|]. simpl. intros u ->. left.
  - eapply Forall_impl; [apply IH|]. simpl. intros u Hu. by right.
Qed.

Lemma allSenders_nonces txPerSender remaining : ∀ t s,
  NoDup remaining → s ∈ remaining →
  let mine := filter (λ u, sender u = s) (outer txPerSender remaining t) in
  (λ u, nonce (tx u)) <$> mine =
    seqZ (getNonce env (address s)) (Z.of_nat (length mine)).
Proof.
  induction remaining as [|x remaining IH]; intros t s Hnd Hs; simpl.
  { by apply elem_of_nil in Hs. }
  apply NoDup_cons in Hnd as [Hx Hnd].
  case_match; [|done]. rewrite filter_app.
  destruct (senderTxs_spec (Z.to_nat (Z.min txPerSender (txCount config - t))) x
              (Z.min txPerSender (txCount config - t)) 0
              (getNonce env (address x)) t) as [Hown Hseq].
  destruct (decide (s = x)) as [->|Hne].
  - rewrite (filter_all _ (inner _ _ _ _ _ _)) by exact Hown.
    rewrite (filter_none _ (outer _ _ _)).
    + rewrite app_nil_r. exact Hseq.
    + eapply Forall_impl; [apply allSenders_owner|]. simpl.
      intros u Hu Heq. by rewrite Heq in Hu.
  - rewrite (filter_none _ (inner _ _ _ _ _ _)).
    + simpl. apply IH; [done|]. apply elem_of_cons in Hs as [?|?]; done.
    + eapply Forall_impl; [exact Hown|]. simpl. congruence.
Qed.

End prepare_nonces.

Lemma prepareTransactions_nonces senders config chainId env txs expected log s :
  NoDup senders →
  TpsTest.prepareTransactions senders config chainId env = Ok (txs, expected, log) →
  s ∈ senders →
  let mine := filter (λ u, TpsTest.sender u = s) txs in
  (λ u, nonce (TpsTest.tx u)) <$> mine =
    seqZ (getNonce env (address s)) (Z.of_nat (length mine)) ∧
  filter isGetNonce log = GetNonce <$> (address <$> senders).
Proof.
  unfold TpsTest.prepareTransactions. intros Hnd H Hs.
  destruct (deriveGasParams _ _) as [gp|]; [|done]. simpl in H.
  injection H as <- _ <-. split.
  - by apply allSenders_nonces.
  - apply nonce_queries_logged.
Qed.

(** C1.  For every sender, the nonces of the descriptors generated for it,
    in generation order, are the consecutive integers that start at the
    nonce the chain reported for the sender; and the nonce requests sent to
    the endpoint are one per sender, whatever the number of descriptors.
    This holds for the payload generator and, the senders being distinct
    accounts, for the generator built into the single-type driver. *)
Theorem sender_nonces_sequential (senders : list Sender) (env : GenEnv) (chainId : Z) :
  (∀ config contracts payload s,
     PayloadGenerator.generatePayload senders env chainId config contracts = Ok payload →
     s ∈ senders →
     let mine := filter (λ u, PayloadGenerator.sender u = s)
                   (PayloadGenerator.unsignedTxs payload) in
     (λ u, nonce (PayloadGenerator.tx u)) <$> mine
       = seqZ (getNonce env (address s)) (Z.of_nat (length mine)) ∧
     filter isGetNonce (PayloadGenerator.rpcLog payload)
       = GetNonce <$> (address <$> senders)) ∧
  (∀ config txs expected log s,
     NoDup senders →
     TpsTest.prepareTransactions senders config chainId env = Ok (txs, expected, log) →
     s ∈ senders →
     let mine := filter (λ u, TpsTest.sender u = s) txs in
     (λ u, nonce (TpsTest.tx u)) <$> mine
       = seqZ (getNonce env (address s)) (Z.of_nat (length mine)) ∧
     filter isGetNonce log = GetNonce <$> (address <$> senders)).
Proof.
  split.
  - intros config contracts payload s Hgen Hs.
    exact (generatePayload_nonces _ _ _ _ _ _ _ Hgen Hs).
  - intros config txs expected log s Hnd Hgen Hs.
    exact (prepareTransactions_nonces _ _ _ _ _ _ _ _ Hnd Hgen Hs).
Qed.

Lemma sender_nonces_sequential_witness :
  (∃ payload,
     PayloadGenerator.generatePayload Demo.senders Demo.env 412346
       (Demo.config 100 70 20 10) Demo.allContracts = Ok payload ∧
     (λ u, nonce (PayloadGenerator.tx u))
       <$> filter (λ u, PayloadGenerator.sender u = {| address := "0xA0" |})
             (PayloadGenerator.unsignedTxs payload)
     = [7; 8; 9; 10; 11; 12; 13; 14; 15; 16]) ∧
  (∃ txs expected log,
     TpsTest.prepareTransactions Demo.senders (Demo.singleConfig 25) 412346 Demo.env
       = Ok (txs, expected, log) ∧
     (λ u, nonce (TpsTest.tx u))
       <$> filter (λ u, TpsTest.sender u = {| address := "0xA0" |}) txs
     = [7; 8; 9]).
Proof.
  split.
  - destruct (PayloadGenerator.generatePayload Demo.senders Demo.env 412346
                (Demo.config 100 70 20 10) Demo.allContracts) as [payload|e] eqn:E;
      [|vm_compute in E; discriminate].
    exists payload. split; [reflexivity|].
    destruct (proj1 (sender_nonces_sequential Demo.senders Demo.env 412346)
                _ _ payload {| address := "0xA0" |} E) as [-> _]; [by left|].
    vm_compute in E. injection E as <-. vm_compute. reflexivity.
  - destruct (TpsTest.prepareTransactions Demo.senders (Demo.singleConfig 25) 412346
                Demo.env) as [[[txs expected] log]|e] eqn:E;
      [|vm_compute in E; discriminate].
    exists txs, expected, log. split; [reflexivity|].
    destruct (proj2 (sender_nonces_sequential Demo.senders Demo.env 412346)
                (Demo.singleConfig 25) txs expected log {| address := "0xA0" |})
      as [-> _];
      [refine (bool_decide_unpack _ _); vm_compute; exact I | exact E | by left |].
    vm_compute in E. injection E as <- _ _. vm_compute. reflexivity.
Defined.

(** ** The transaction mix *)

Section mix.
Import PayloadGenerator.

Lemma countOf_cons ty t l :
  countOf ty (t :: l) = ((if decide (t = ty) then 1 else 0) + countOf ty l)%nat.
Proof. unfold countOf. rewrite filter_cons. by case_decide. Qed.

Lemma countOf_app ty l1 l2 : countOf ty (l1 ++ l2) = (countOf ty l1 + countOf ty l2)%nat.
Proof. unfold countOf. by rewrite filter_app, length_app. Qed.

(** With as many passes as the largest count the interleaving loop runs to
    its end, and it emits each type as often as its count says (not at all
    for a count that is not positive). *)
Lemma interleave_spec fuel : ∀ e t s,
  Z.max e (Z.max t s) ≤ Z.of_nat fuel →
  ∃ l, interleave fuel e t s = Some l ∧
       countOf ETH_TRANSFER l = Z.to_nat e ∧
       countOf TOKEN_TRANSFER l = Z.to_nat t ∧
       countOf SWAP l = Z.to_nat s ∧
       length l = (Z.to_nat e + Z.to_nat t + Z.to_nat s)%nat.
Proof.
  induction fuel as [|fuel IH]; intros e t s Hfuel; cbn [interleave];
    destruct (Z.gtb_spec e 0), (Z.gtb_spec t 0), (Z.gtb_spec s 0);
    cbn [orb]; cbv iota; try lia;
    try (exists []; unfold countOf; simpl; repeat split; lia);
    match goal with
    | |- context [interleave fuel ?e' ?t' ?s'] =>
        destruct (IH e' t' s') as (l & -> & Hce & Hct & Hcs & Hlen); [lia|]
    end;
    eexists; (split; [reflexivity|]);
    rewrite ?countOf_app, ?length_app; unfold countOf in *; simpl;
    repeat split; lia.
Qed.

Lemma txAssignments_total e t s :
  ∃ l, txAssignments e t s = Some l ∧
       countOf ETH_TRANSFER l = Z.to_nat e ∧
       countOf TOKEN_TRANSFER l = Z.to_nat t ∧
       countOf SWAP l = Z.to_nat s ∧
       length l = (Z.to_nat e + Z.to_nat t + Z.to_nat s)%nat.
Proof. apply interleave_spec. lia. Qed.

Lemma counts_sum txCount m :
  ethCount txCount m + tokenCount txCount m + swapCount txCount m = txCount.
Proof. unfold swapCount. lia. Qed.

Lemma counts_nonneg txCount m :
  0 ≤ txCount → 0 ≤ ethTransfer m → 0 ≤ tokenTransfer m →
  ethTransfer m + tokenTransfer m ≤ 100 →
  0 ≤ ethCount txCount m ∧ 0 ≤ tokenCount txCount m ∧ 0 ≤ swapCount txCount m.
Proof.
  intros Hn He Ht Hsum. unfold swapCount, ethCount, tokenCount.
  assert (0 ≤ txCount * ethTransfer m / 100) by (apply Z.div_pos; nia).
  assert (0 ≤ txCount * tokenTransfer m / 100) by (apply Z.div_pos; nia).
  assert (txCount * ethTransfer m / 100 * 100 ≤ txCount * ethTransfer m)
    by (pose proof (Z.mul_div_le (txCount * ethTransfer m) 100); lia).
  assert (txCount * tokenTransfer m / 100 * 100 ≤ txCount * tokenTransfer m)
    by (pose proof (Z.mul_div_le (txCount * tokenTransfer m) 100); lia).
  repeat split; try done. nia.
Qed.

Lemma count_by_type (ty : TxType) (txs : list UnsignedTx) :
  length (filter (λ u, txType u = ty) txs) = countOf ty (txType <$> txs).
Proof.
  induction txs as [|u txs IH]; [done|].
  rewrite fmap_cons, countOf_cons, filter_cons.
  case_decide; simpl; by rewrite IH.
Qed.

Lemma generatePayload_assignments senders env chainId config contracts payload :
  generatePayload senders env chainId config contracts = Ok payload →
  let m := default defaultMix (txMix config) in
  txAssignments (ethCount (txCount config) m) (tokenCount (txCount config) m)
    (swapCount (txCount config) m) = Some (txType <$> unsignedTxs payload).
Proof.
  unfold generatePayload. intros H.
  destruct (_ && negb (JS.truthy (token contracts))); [done|].
  destruct (_ && (_ || _ || _)); [done|].
  destruct (deriveGasParams _ _) as [gp|]; [|done]. simpl in H.
  destruct (txAssignments _ _ _) as [assignments|]; [|done].
  destruct (buildLoop _ _ _ _ _ _ _ _ _) as [txs|] eqn:Hloop; [|done].
  simpl in H. injection H as <-. simpl.
  apply buildLoop_index in Hloop as [_ ->]. done.
Qed.

(** Generation fails only with one of the two address errors, with the
    missing fee data, or for want of a sender: the two fall-back branches of
    the model are never taken. *)
Lemma generatePayload_errors senders env chainId config contracts e :
  generatePayload senders env chainId config contracts = Throw e →
  e = TokenAddressRequired ∨ e = SwapAddressesRequired ∨ e = TypeError.
Proof.
  unfold generatePayload.
  destruct (_ && negb (JS.truthy (token contracts))); [intros [= <-]; auto|].
  destruct (_ && (_ || _ || _)); [intros [= <-]; auto|].
  unfold deriveGasParams. destruct (bigint_or _ _); [|intros [= <-]; auto].
  cbn [mbind Result_bind].
  destruct (txAssignments_total (ethCount (txCount config) (default defaultMix (txMix config)))
              (tokenCount (txCount config) (default defaultMix (txMix config)))
              (swapCount (txCount config) (default defaultMix (txMix config))))
    as (l & -> & _).
  match goal with
  | |- context [buildLoop ?a ?b ?c ?d ?f ?g ?i ?as' ?m] =>
      pose proof (buildLoop_no_missing_nonce a b c d f g as' i m) as Hmiss;
      destruct (buildLoop a b c d f g i as' m) as [txs|e'] eqn:Hloop
  end; [done|]. cbn [mbind Result_bind]. intros [= <-].
  assert (e' ≠ RpcError "nonce missing") as Hne.
  { intros ->. apply Hmiss; [|done]. intros s Hs.
    rewrite initialNonces_lookup by done. eauto. }
  clear Hmiss. revert Hloop Hne.
  generalize 0%nat.
  generalize (initialNonces senders ((λ s, getNonce env (address s)) <$> senders)).
  induction l as [|ty l IH]; intros m i; simpl; [done|].
  destruct (senders !! _); [|intros [= <-]; auto].
  destruct (m !! _); [|intros [= <-] ?; done].
  destruct (buildLoop _ _ _ _ _ _ (S i) l _) as [?|e''] eqn:Hrest; [done|].
  simpl. intros [= <-]. eauto.
Qed.

(** For every mix whose ETH and token percentages are not negative and add up
    to at most 100, and every total that is not negative, the generator emits
    exactly [ethCount] ETH transfers, [tokenCount] token transfers and
    [swapCount] swaps, and these add up to the requested total, which is the
    number of descriptors. *)
Lemma realized_counts_sum_to_total senders env chainId config contracts payload :
  let m := default defaultMix (txMix config) in
  let realized ty :=
    Z.of_nat (length (filter (λ u, txType u = ty) (unsignedTxs payload))) in
  generatePayload senders env chainId config contracts = Ok payload →
  0 ≤ txCount config →
  0 ≤ ethTransfer m → 0 ≤ tokenTransfer m → ethTransfer m + tokenTransfer m ≤ 100 →
  realized ETH_TRANSFER = ethCount (txCount config) m ∧
  realized TOKEN_TRANSFER = tokenCount (txCount config) m ∧
  realized SWAP = swapCount (txCount config) m ∧
  realized ETH_TRANSFER + realized TOKEN_TRANSFER + realized SWAP = txCount config ∧
  Z.of_nat (length (unsignedTxs payload)) = txCount config.
Proof.
  intros m realized Hgen Hn He Ht Hsum.
  apply generatePayload_assignments in Hgen. fold m in Hgen.
  destruct (txAssignments_total (ethCount (txCount config) m)
              (tokenCount (txCount config) m) (swapCount (txCount config) m))
    as (l & Hl & Hce & Hct & Hcs & Hlen).
  rewrite Hgen in Hl. injection Hl as <-.
  destruct (counts_nonneg (txCount config) m) as (H1 & H2 & H3); try done.
  pose proof (counts_sum (txCount config) m) as Hs.
  rewrite length_fmap in Hlen.
  subst realized. cbv beta.
  rewrite !count_by_type, Hce, Hct, Hcs. lia.
Qed.

Lemma realized_counts_witness :
  ∃ payload,
    generatePayload Demo.senders Demo.env 412346 (Demo.config 100 70 20 10)
      Demo.allContracts = Ok payload ∧
    Z.of_nat (length (filter (λ u, txType u = ETH_TRANSFER) (unsignedTxs payload))) = 70 ∧
    Z.of_nat (length (filter (λ u, txType u = TOKEN_TRANSFER) (unsignedTxs payload))) = 20 ∧
    Z.of_nat (length (filter (λ u, txType u = SWAP) (unsignedTxs payload))) = 10 ∧
    Z.of_nat (length (unsignedTxs payload)) = 100.
Proof.
  destruct (generatePayload Demo.senders Demo.env 412346 (Demo.config 100 70 20 10)
              Demo.allContracts) as [payload|e] eqn:E;
    [|vm_compute in E; discriminate].
  exists payload. split; [reflexivity|].
  destruct (realized_counts_sum_to_total _ _ _ _ _ _ E) as (H1 & H2 & H3 & _ & H5);
    [simpl; lia ..|].
  rewrite H1, H2, H3, H5. repeat split.
Defined.

(** A mix that already adds up to 100 is left as it is. *)
Lemma roundedShare_of_100 x : 0 ≤ x ≤ 100 → roundedShare x 100 = Some x.
Proof.
  intros Hx.
  assert (Forall (λ x, roundedShare x 100 = Some x) (seqZ 0 101)) as Hall.
  { refine (bool_decide_unpack _ _). vm_compute. exact I. }
  eapply Forall_forall in Hall; [exact Hall|]. apply elem_of_seqZ. lia.
Qed.

Lemma parseTxMix_exact e t s :
  0 ≤ e → 0 ≤ t → 0 ≤ s → e + t + s = 100 →
  parseTxMix (Some [e; t; s]) = Some (Demo.mix e t s).
Proof.
  intros He Ht Hs Hsum. unfold parseTxMix. simpl. rewrite Hsum.
  rewrite !roundedShare_of_100 by lia. done.
Qed.

(** Rounding takes place on doubles: 29 of 200 is 14.499999999999998 percent
    there, and is rounded down. *)
Lemma parseTxMix_rounds_doubles :
  parseTxMix (Some [29; 171; 0]) = Some (Demo.mix 14 86 0).
Proof. vm_compute. reflexivity. Qed.

(** C5.  [parseTxMix] rounds each share by itself, as
    [Math.round((part / total) * 100)], and does not repair the sum, so the
    normalised percentages can miss 100 on either side.  Three equal parts
    become 33:33:33, which is 99 in all.  The parts 3:5:0 become 38:63:0,
    which is 101 in all; the generator then floors 38 and 63 of 100
    transactions, the remainder that goes to swaps is -1, and 100 requested
    transactions become 101 descriptors. *)
Theorem mix_rounding_misses_the_sums :
  (parseTxMix (Some [1; 1; 1]) = Some (Demo.mix 33 33 33) ∧
   ethTransfer (Demo.mix 33 33 33) + tokenTransfer (Demo.mix 33 33 33)
     + swap (Demo.mix 33 33 33) = 99) ∧
  (parseTxMix (Some [3; 5; 0]) = Some (Demo.mix 38 63 0) ∧
   ethTransfer (Demo.mix 38 63 0) + tokenTransfer (Demo.mix 38 63 0)
     + swap (Demo.mix 38 63 0) = 101 ∧
   ethCount 100 (Demo.mix 38 63 0) = 38 ∧
   tokenCount 100 (Demo.mix 38 63 0) = 63 ∧
   swapCount 100 (Demo.mix 38 63 0) = -1 ∧
   ∃ payload,
     generatePayload Demo.senders Demo.env 412346 (Demo.config 100 38 63 0)
       Demo.allContracts = Ok payload ∧
     length (filter (λ u, txType u = ETH_TRANSFER) (unsignedTxs payload)) = 38%nat ∧
     length (filter (λ u, txType u = TOKEN_TRANSFER) (unsignedTxs payload)) = 63%nat ∧
     length (filter (λ u, txType u = SWAP) (unsignedTxs payload)) = 0%nat ∧
     length (unsignedTxs payload) = 101%nat).
Proof.
  split; [split; [vm_compute; reflexivity | reflexivity]|].
  split; [vm_compute; reflexivity|]. do 4 (split; [reflexivity|]).
  destruct (generatePayload Demo.senders Demo.env 412346 (Demo.config 100 38 63 0)
              Demo.allContracts) as [payload|e] eqn:E;
    vm_compute in E; [|discriminate].
  exists payload. split; [reflexivity|]. injection E as <-.
  repeat split; vm_compute; reflexivity.
Qed.

(** C9.  There are mixes that add up to 100 and ask for no swap, whose
    floored shares do not cover the total, so that the remainder makes the
    swap count positive: 99:1:0 and 67:33:0 with 10 transactions both leave a
    swap count of 1.  With every address configured one swap descriptor is
    generated for either of them.  Whenever the swap count is positive and
    the router, the WETH or the token address is missing, generation throws:
    the token-address error if token transfers are planned and the token
    address is missing (that check comes first), the swap-addresses error
    otherwise.  With no address configured that is the swap-addresses error
    for 99:1:0, whose token count is 0, and the token-address error for
    67:33:0; with the token address alone, 67:33:0 ends in the
    swap-addresses error as well. *)
Theorem swap_remainder_needs_addresses :
  (∃ m txCount,
     ethTransfer m + tokenTransfer m + swap m = 100 ∧
     swap m = 0 ∧
     ethCount txCount m + tokenCount txCount m < txCount ∧
     0 < swapCount txCount m ∧
     (∃ payload,
        generatePayload Demo.senders Demo.env 412346
          {| txCount := txCount; txMix := Some m; cfg_gasLimit := None |}
          Demo.allContracts = Ok payload ∧
        (1 ≤ length (filter (λ u, txType u = SWAP) (unsignedTxs payload)))%nat) ∧
     (∀ senders env chainId,
        generatePayload senders env chainId
          {| txCount := txCount; txMix := Some m; cfg_gasLimit := None |}
          Demo.noContracts = Throw SwapAddressesRequired) ∧
     errorMessage SwapAddressesRequired
     = "Router, WETH, and Token addresses required for swaps") ∧
  (ethTransfer (Demo.mix 67 33 0) + tokenTransfer (Demo.mix 67 33 0)
     + swap (Demo.mix 67 33 0) = 100 ∧
   swap (Demo.mix 67 33 0) = 0 ∧
   ethCount 10 (Demo.mix 67 33 0) = 6 ∧
   tokenCount 10 (Demo.mix 67 33 0) = 3 ∧
   swapCount 10 (Demo.mix 67 33 0) = 1) ∧
  (∃ payload,
     generatePayload Demo.senders Demo.env 412346 (Demo.config 10 67 33 0)
       Demo.allContracts = Ok payload ∧
     length (filter (λ u, txType u = SWAP) (unsignedTxs payload)) = 1%nat) ∧
  (∀ senders env chainId config contracts,
     let m := default defaultMix (txMix config) in
     0 < swapCount (txCount config) m →
     JS.truthy (router contracts) && JS.truthy (weth contracts)
       && JS.truthy (token contracts) = false →
     generatePayload senders env chainId config contracts
     = Throw (if (tokenCount (txCount config) m >? 0) && negb (JS.truthy (token contracts))
              then TokenAddressRequired else SwapAddressesRequired)) ∧
  (∀ senders env chainId,
     generatePayload senders env chainId (Demo.config 10 67 33 0) Demo.tokenOnly
       = Throw SwapAddressesRequired ∧
     generatePayload senders env chainId (Demo.config 10 67 33 0) Demo.noContracts
       = Throw TokenAddressRequired ∧
     generatePayload senders env chainId (Demo.config 10 99 1 0) Demo.noContracts
       = Throw SwapAddressesRequired).
Proof.
  split; [|split; [done|]; split; [|split; [|done]]].
  - exists (Demo.mix 99 1 0), 10. do 4 (split; [done|]).
    split; [|done].
    destruct (generatePayload Demo.senders Demo.env 412346
                {| txCount := 10; txMix := Some (Demo.mix 99 1 0); cfg_gasLimit := None |}
                Demo.allContracts) as [payload|e] eqn:E;
      vm_compute in E; [|discriminate].
    exists payload. split; [reflexivity|]. injection E as <-. vm_compute. lia.
  - destruct (generatePayload Demo.senders Demo.env 412346 (Demo.config 10 67 33 0)
                Demo.allContracts) as [payload|e] eqn:E;
      vm_compute in E; [|discriminate].
    exists payload. split; [reflexivity|]. injection E as <-. reflexivity.
  - intros senders env chainId config contracts m Hswap Hmissing.
    unfold generatePayload. fold m.
    destruct ((tokenCount (txCount config) m >? 0) && negb (JS.truthy (token contracts)));
      [done|].
    destruct (Z.gtb_spec (swapCount (txCount config) m) 0) as [_|?]; [|lia].
    destruct (JS.truthy (router contracts)), (JS.truthy (weth contracts)),
      (JS.truthy (token contracts)); done.
Qed.

Lemma swap_remainder_needs_addresses_witness :
  generatePayload Demo.senders Demo.env 412346 (Demo.config 10 99 1 0) Demo.noContracts
  = Throw SwapAddressesRequired.
Proof.
  pose proof (proj1 (proj2 (proj2 (proj2 swap_remainder_needs_addresses)))
                Demo.senders Demo.env 412346 (Demo.config 10 99 1 0) Demo.noContracts)
    as H.
  apply H; reflexivity.
Defined.

End mix.

(** ** The worker pool *)

Section pool_facts.
Import Broadcaster Pool.
Context (signedTxs : list SignedTx) (concurrentRequests : Z).
Context (bookFailure : Failure → ErrorBook → ErrorBook) (extra : Failure → nat).
Hypothesis bookFailure_counts : ∀ failure book,
  errorCount (bookFailure failure book) = (S (errorCount book) + extra failure)%nat.

Local Abbreviation init := (init concurrentRequests).
Local Abbreviation exec := (exec signedTxs bookFailure).
Local Abbreviation step := (step signedTxs bookFailure).
Local Abbreviation reachable := (reachable signedTxs concurrentRequests bookFailure).
Local Abbreviation Inv := (Inv signedTxs extra).

Lemma omap_insert_middle {A B} (f : A → option B) (l : list A) i x y :
  l !! i = Some x →
  omap f l = omap f (take i l) ++ option_list (f x) ++ omap f (drop (S i) l) ∧
  omap f (<[i := y]> l) = omap f (take i l) ++ option_list (f y) ++ omap f (drop (S i) l).
Proof.
  intros Hi. split.
  - rewrite <-(take_drop_middle l i x Hi) at 1.
    rewrite omap_app. simpl. by destruct (f x).
  - rewrite insert_take_drop by (by eapply lookup_lt_Some).
    rewrite omap_app. simpl. by destruct (f y).
Qed.

Lemma weight_insert_middle (l : list Pc) i x y :
  l !! i = Some x →
  (sum_list_with weight (<[i := y]> l) + weight x
   = sum_list_with weight l + weight y)%nat.
Proof.
  intros Hi.
  rewrite insert_take_drop by (by eapply lookup_lt_Some).
  assert (sum_list_with weight l
          = sum_list_with weight (take i l ++ x :: drop (S i) l)) as ->
    by (by rewrite take_drop_middle).
  rewrite !sum_list_with_app. simpl. lia.
Qed.

Ltac fields := cbn [nextIndex handled workers successCount txHashes errors failures].

Lemma init_inv : Inv init.
Proof.
  split; simpl; try done.
  - lia.
  - unfold inflight. simpl. induction (Z.to_nat concurrentRequests); simpl; done.
  - apply Forall_forall. intros pc [-> _]%elem_of_replicate. done.
Qed.

Lemma step_inv st st' : Inv st → step st st' → Inv st'.
Proof.
  intros [Hnext Honce Hout Hsucc Herr Hnonempty Hfin] (w & reply & Hexec).
  unfold Broadcaster.exec in Hexec.
  destruct (workers st !! w) as [[|idx e|]|] eqn:Hw; [| |done|done].
  - destruct (signedTxs !! nextIndex st) as [e|] eqn:He;
      injection Hexec as <-; split; fields; try done.
    + apply lookup_lt_Some in He. lia.
    + unfold inflight in *. fields.
      destruct (omap_insert_middle inflightOf (workers st) w AtLoopHead
                  (Awaiting (nextIndex st) e) Hw) as [Hold Hnew].
      rewrite Hnew. rewrite Hold in Honce.
      rewrite seq_S, <-Honce, Nat.add_0_l. unfold option_list. cbn [app].
      rewrite <-!app_assoc. do 2 apply Permutation_app_head.
      apply Permutation_cons_append.
    + apply Forall_insert; [|done].
      eapply Forall_impl; [exact Hfin|]. cbv beta. intros pc Hpc ->.
      specialize (Hpc eq_refl). apply lookup_lt_Some in He. lia.
    + unfold inflight in *. fields.
      destruct (omap_insert_middle inflightOf (workers st) w AtLoopHead
                  Finished Hw) as [Hold Hnew].
      rewrite Hnew. rewrite Hold in Honce. exact Honce.
    + apply lookup_ge_None in He.
      apply Forall_insert; [done|]. intros _. lia.
  - injection Hexec as <-.
    assert (handled st ++ [idx] ++ omap inflightOf (<[w := AtLoopHead]> (workers st))
              ≡ₚ seq 0 (nextIndex st)) as Honce'.
    { unfold inflight in Honce.
      destruct (omap_insert_middle inflightOf (workers st) w (Awaiting idx e)
                  AtLoopHead Hw) as [Hold Hnew].
      rewrite Hnew. rewrite Hold in Honce. simpl in *. rewrite <-Honce.
      apply Permutation_app_head. apply Permutation_middle. }
    assert (Forall (λ pc, pc = Finished → nextIndex st = length signedTxs)
              (<[w := AtLoopHead]> (workers st))) as Hfin'.
    { by apply Forall_insert. }
    unfold resume. destruct reply as [result errorMessage|message].
    + destruct (JS.truthy result) eqn:Htruthy; split; fields;
        rewrite ?length_app, ?sum_list_with_app, ?bookFailure_counts;
        cbn [length sum_list_with]; try done; try lia.
      * unfold inflight. fields. by rewrite <-app_assoc.
      * apply Forall_app. split; [done|]. constructor; [|done]. simpl.
        destruct result as [s|]; simpl in *; [|done].
        apply negb_true_iff, String.eqb_neq in Htruthy. done.
      * unfold inflight. fields. by rewrite <-app_assoc.
    + split; fields;
        rewrite ?length_app, ?sum_list_with_app, ?bookFailure_counts;
        cbn [length sum_list_with]; try done; try lia.
      unfold inflight. fields. by rewrite <-app_assoc.
Qed.

Lemma reachable_inv st : reachable st → Inv st.
Proof.
  revert st. apply rtc_ind_r; [apply init_inv | eauto using step_inv].
Qed.

Lemma reachable_workers st :
  reachable st → length (workers st) = Z.to_nat concurrentRequests.
Proof.
  revert st. apply rtc_ind_r.
  - apply length_replicate.
  - intros y z _ (w & reply & Hexec) <-.
    unfold Broadcaster.exec in Hexec.
    destruct (workers y !! w) as [[|idx e|]|]; [| |done|done].
    + destruct (signedTxs !! _); injection Hexec as <-; simpl; apply length_insert.
    + injection Hexec as <-. unfold resume.
      destruct reply; [destruct (JS.truthy _)|]; simpl; apply length_insert.
Qed.

Lemma step_stepsLeft st st' :
  step st st' → (stepsLeft (length signedTxs) st' < stepsLeft (length signedTxs) st)%nat.
Proof.
  intros (w & reply & Hexec). unfold Broadcaster.exec in Hexec. unfold stepsLeft.
  destruct (workers st !! w) as [[|idx e|]|] eqn:Hw; [| |done|done].
  - destruct (signedTxs !! nextIndex st) as [e|] eqn:He; injection Hexec as <-; simpl.
    + apply lookup_lt_Some in He.
      pose proof (weight_insert_middle _ w _ (Awaiting (nextIndex st) e) Hw).
      simpl in *. lia.
    + pose proof (weight_insert_middle _ w _ Finished Hw). simpl in *. lia.
  - injection Hexec as <-.
    pose proof (weight_insert_middle _ w _ AtLoopHead Hw).
    unfold resume. destruct reply; [destruct (JS.truthy _)|]; simpl in *; lia.
Qed.

Lemma progress st reply :
  allFinished st = false → ∃ w st', exec st w reply = Some st'.
Proof.
  unfold allFinished. intros (w & pc & Hw & Hpc)%forallb_false_lookup.
  exists w. unfold Broadcaster.exec. rewrite Hw.
  destruct pc; [destruct (signedTxs !! _)| |]; eauto. done.
Qed.

Lemma runSchedule_reachable schedule :
  reachable (runSchedule signedTxs bookFailure schedule init).
Proof.
  unfold runSchedule.
  assert (∀ st, reachable st →
    reachable (foldl (λ st move, default st (exec st move.1 move.2)) st schedule)) as H.
  { induction schedule as [|[w reply] schedule IH]; intros st Hst; simpl; [done|].
    apply IH. destruct (exec st w reply) as [st'|] eqn:E; simpl; [|done].
    eapply rtc_r; [exact Hst|]. by exists w, reply. }
  apply H. apply rtc_refl.
Qed.

(** Every state can be run to the end: the pool cannot get stuck and cannot
    run forever. *)
Lemma can_finish st : ∃ st', rtc step st st' ∧ allFinished st' = true.
Proof.
  remember (stepsLeft (length signedTxs) st) as n eqn:Hn.
  revert st Hn. induction n as [n IH] using lt_wf_ind. intros st ->.
  destruct (allFinished st) eqn:Hfin.
  - exists st. split; [apply rtc_refl | done].
  - destruct (progress st (Rejected None) Hfin) as (w & st1 & Hexec).
    assert (step st st1) as Hstep by (by exists w, (Rejected None)).
    destruct (IH _ (step_stepsLeft _ _ Hstep) st1 eq_refl) as (st' & Hrun & Hdone).
    exists st'. split; [by eapply rtc_l | done].
Qed.

Lemma pool_finished st :
  1 ≤ concurrentRequests → reachable st → allFinished st = true →
  handled st ≡ₚ seq 0 (length signedTxs) ∧
  (length (txHashes st) + length (failures st))%nat = length signedTxs ∧
  successCount st = length (txHashes st) ∧
  errorCount (errors st)
  = (length (failures st) + sum_list_with extra (failures st))%nat ∧
  Forall (λ h, hash h ≠ "") (txHashes st).
Proof.
  intros Hc Hreach Hfin.
  pose proof (reachable_workers st Hreach) as Hlen.
  destruct (reachable_inv st Hreach) as [Hnext Honce Hout Hsucc Herr Hnonempty Hf].
  assert (Forall (λ pc, pc = Finished) (workers st)) as Hall.
  { unfold allFinished in Hfin. apply Forall_forall. intros pc Hin.
    eapply forallb_forall in Hfin; [|apply list_elem_of_In; exact Hin].
    by destruct pc. }
  assert (nextIndex st = length signedTxs) as HN.
  { destruct (workers st) as [|pc l] eqn:Hw; [simpl in Hlen; lia|].
    apply Forall_cons in Hall as [-> _]. apply Forall_cons in Hf as [Hf _]. auto. }
  assert (inflight st = []) as Hin.
  { unfold inflight. clear -Hall. induction Hall as [|pc l -> _ IH]; simpl; done. }
  rewrite Hin, app_nil_r, HN in Honce.
  repeat split; try done.
  rewrite Hout, Honce. apply length_seq.
Qed.

Lemma pool_contract :
  1 ≤ concurrentRequests → Contract signedTxs concurrentRequests bookFailure extra.
Proof.
  intros Hc. unfold Contract. split_and!.
  - intros st. by apply pool_finished.
  - apply step_stepsLeft.
  - apply progress.
  - apply runSchedule_reachable.
  - apply can_finish.
Qed.

End pool_facts.

Lemma bookFailure_single_counts failure book :
  Broadcaster.errorCount (TpsTest.bookFailure failure book)
  = (S (Broadcaster.errorCount book) + Pool.once failure)%nat.
Proof.
  unfold Pool.once. rewrite Nat.add_0_r.
  destruct failure as [[s|[|]]|message]; reflexivity.
Qed.

Lemma bookFailure_mixed_counts failure book :
  Broadcaster.errorCount (TpsTestMixed.bookFailure failure book)
  = (S (Broadcaster.errorCount book) + Pool.twiceIfOdd failure)%nat.
Proof.
  destruct failure as [[s|[|]]|message]; cbn; lia.
Qed.

Lemma sum_once (l : list Broadcaster.Failure) : sum_list_with Pool.once l = 0%nat.
Proof. induction l as [|f l IH]; simpl; [done | exact IH]. Qed.

Lemma sum_twiceIfOdd (l : list Broadcaster.Failure) :
  sum_list_with Pool.twiceIfOdd l
  = length (filter (λ f, Pool.oddMessage f = true) l).
Proof.
  induction l as [|f l IH]; [done|].
  rewrite filter_cons. cbn [sum_list_with]. unfold Pool.twiceIfOdd at 1.
  destruct (Pool.oddMessage f) eqn:E.
  - rewrite decide_True by done. simpl. by rewrite IH.
  - rewrite decide_False by done. simpl. exact IH.
Qed.

(** C4 (as amended).  With at least one worker, in either driver: when all
    workers have returned, every queue position has been handled exactly once
    and has one outcome, a recorded hash or a failure; the success count is
    the number of hashes and none of them is empty.  Every step of the pool
    lowers a bound on the steps that are left and a pool that has not finished
    can always make a step, so every run ends with all workers returned.  In
    the single-type driver the failure count is the number of failures, so
    the two counts add up to the number of envelopes.  The mixed driver counts
    a failure twice when the message of the error reply is truthy and no
    string; its two counts add up to the number of envelopes and of such
    replies, and to the number of envelopes when there is no such reply. *)
Theorem broadcast_one_outcome_per_envelope
    (signedTxs : list Broadcaster.SignedTx) (concurrentRequests : Z) :
  1 ≤ concurrentRequests →
  Pool.Contract signedTxs concurrentRequests TpsTest.bookFailure Pool.once ∧
  Pool.Contract signedTxs concurrentRequests TpsTestMixed.bookFailure Pool.twiceIfOdd ∧
  (∀ st,
     Broadcaster.reachable signedTxs concurrentRequests TpsTest.bookFailure st →
     Broadcaster.allFinished st = true →
     (Broadcaster.successCount st + Broadcaster.errorCount (Broadcaster.errors st))%nat
     = length signedTxs) ∧
  (∀ st,
     Broadcaster.reachable signedTxs concurrentRequests TpsTestMixed.bookFailure st →
     Broadcaster.allFinished st = true →
     (Broadcaster.successCount st + Broadcaster.errorCount (Broadcaster.errors st))%nat
     = (length signedTxs + length (Pool.oddMessages st))%nat ∧
     (Pool.oddMessages st = [] →
      (Broadcaster.successCount st + Broadcaster.errorCount (Broadcaster.errors st))%nat
      = length signedTxs)).
Proof.
  intros Hc.
  pose proof (pool_contract signedTxs concurrentRequests _ _
                bookFailure_single_counts Hc) as Hsingle.
  pose proof (pool_contract signedTxs concurrentRequests _ _
                bookFailure_mixed_counts Hc) as Hmixed.
  split_and!; [exact Hsingle | exact Hmixed | |].
  - intros st Hreach Hfin.
    destruct Hsingle as (Hdone & _).
    destruct (Hdone st Hreach Hfin) as (_ & Hout & -> & -> & _).
    rewrite sum_once. lia.
  - intros st Hreach Hfin.
    destruct Hmixed as (Hdone & _).
    destruct (Hdone st Hreach Hfin) as (_ & Hout & -> & -> & _).
    rewrite sum_twiceIfOdd. fold (Pool.oddMessages st).
    split; [lia|]. intros ->. simpl. lia.
Qed.

(** Two workers, three envelopes: a network error, an error reply and an
    accepted transaction. *)
Lemma broadcast_one_outcome_per_envelope_witness :
  let final :=
    Broadcaster.runSchedule Demo.queue TpsTestMixed.bookFailure Demo.schedule
      (Broadcaster.init 2) in
  Broadcaster.allFinished final = true ∧
  (Broadcaster.successCount final
   + Broadcaster.errorCount (Broadcaster.errors final))%nat = 3%nat ∧
  Broadcaster.hash <$> Broadcaster.txHashes final = ["0x5e1f"].
Proof.
  intros final.
  assert (Broadcaster.allFinished final = true) as Hfin by (vm_compute; reflexivity).
  split; [exact Hfin|].
  destruct (broadcast_one_outcome_per_envelope Demo.queue 2 ltac:(lia))
    as (_ & (_ & _ & _ & Hreach & _) & _ & Hmixed).
  destruct (Hmixed final (Hreach Demo.schedule) Hfin) as (_ & Hsum).
  split; [apply Hsum; vm_compute; reflexivity | vm_compute; reflexivity].
Defined.

(** Where the two counts do not add up to the number of envelopes.  Without a
    worker ([concurrentRequests] is 0) the pool is finished at once: nothing
    is sent and both counts stay 0, with three envelopes in the queue.  And in
    the mixed driver one envelope whose error reply has a number as message
    ends with a failure count of 2. *)
Lemma broadcast_counts_can_miss_the_queue_length :
  (Broadcaster.reachable Demo.queue 0 TpsTest.bookFailure (Broadcaster.init 0) ∧
   Broadcaster.allFinished (Broadcaster.init 0) = true ∧
   Broadcaster.successCount (Broadcaster.init 0) = 0%nat ∧
   Broadcaster.errorCount (Broadcaster.errors (Broadcaster.init 0)) = 0%nat ∧
   Broadcaster.handled (Broadcaster.init 0) = [] ∧
   length Demo.queue = 3%nat) ∧
  (∃ final,
     final = Broadcaster.runSchedule (take 1 Demo.queue) TpsTestMixed.bookFailure
               Demo.numericMessage (Broadcaster.init 1) ∧
     Broadcaster.reachable (take 1 Demo.queue) 1 TpsTestMixed.bookFailure final ∧
     Broadcaster.allFinished final = true ∧
     Broadcaster.handled final = [0%nat] ∧
     Broadcaster.failures final = [Broadcaster.ErrorReply (JS.NotStr true)] ∧
     Broadcaster.successCount final = 0%nat ∧
     Broadcaster.errorCount (Broadcaster.errors final) = 2%nat ∧
     length (take 1 Demo.queue) = 1%nat).
Proof.
  split.
  - split; [apply rtc_refl | done].
  - eexists. split; [reflexivity|].
    split; [apply runSchedule_reachable|].
    repeat split; vm_compute; reflexivity.
Qed.

(** The single-type driver counts the same envelope once: the TypeError is
    thrown before the count, and the [catch] block books it as [other]. *)
Example single_driver_counts_numeric_message_once :
  let final :=
    Broadcaster.runSchedule (take 1 Demo.queue) TpsTest.bookFailure
      Demo.numericMessage (Broadcaster.init 1) in
  Broadcaster.allFinished final = true ∧
  Broadcaster.errorCount (Broadcaster.errors final) = 1%nat ∧
  Broadcaster.firstError (Broadcaster.errors final) = JS.NotStr true ∧
  Broadcaster.errorTypes (Broadcaster.errors final) = {[ "other" := 1%nat ]}.
Proof. repeat split; vm_compute; reflexivity. Qed.

(** ** The confirmation tracker *)

(** A [Set] built from an array holds the elements of the array, each once. *)
Lemma set_insertion_order_elem {A} `{EqDecision A} (l : list A) : ∀ seen x,
  x ∈ JS.set_insertion_order seen l ↔ x ∈ l ∧ x ∉ seen.
Proof.
  induction l as [|y l IH]; intros seen x; simpl.
  - rewrite elem_of_nil. tauto.
  - case_decide as Hy.
    + rewrite IH, elem_of_cons. split; [tauto|].
      intros [[->|?] ?]; tauto.
    + rewrite elem_of_cons, IH, !elem_of_cons. split.
      * intros [->|[? ?]]; [tauto|]. split; [tauto|]. tauto.
      * intros [[->|?] ?]; [tauto|].
        destruct (decide (x = y)); [tauto|]. right. tauto.
Qed.

Lemma set_insertion_order_NoDup {A} `{EqDecision A} (l : list A) : ∀ seen,
  NoDup (JS.set_insertion_order seen l).
Proof.
  induction l as [|y l IH]; intros seen; simpl; [constructor|].
  case_decide; [apply IH|]. constructor; [|apply IH].
  rewrite set_insertion_order_elem. intros [_ Hy]. apply Hy. left.
Qed.

Lemma new_Set_elem {A} `{EqDecision A} (l : list A) x : x ∈ JS.new_Set l ↔ x ∈ l.
Proof.
  unfold JS.new_Set. rewrite set_insertion_order_elem.
  split; [tauto|]. intros ?. split; [done|]. apply not_elem_of_nil.
Qed.

Section poll_loop.
Context (pollRound : PollState → PollState) (startTime timeoutMs sleepMs : Z).
Hypothesis sleep_positive : 0 < sleepMs.
Hypothesis round_sleeps : ∀ st,
  pending (pollRound st) ≠ [] → now st + sleepMs ≤ now (pollRound st).
Hypothesis round_keeps : ∀ st,
  (receipts st) `prefix_of` (receipts (pollRound st)) ∧
  pending (pollRound st) ⊆ pending st.

Local Abbreviation loop := (pollLoop pollRound startTime timeoutMs).

(** The loop returns when the time that is left fits into the fuel. *)
Lemma pollLoop_returns fuel : ∀ st,
  pending st = [] ∨ timeoutMs - (now st - startTime) ≤ sleepMs * Z.of_nat fuel →
  is_Some (loop fuel st).
Proof.
  induction fuel as [|fuel IH]; intros st Hst; simpl;
    destruct (bool_decide_reflect (pending st = [])) as [Hp|Hp]; simpl; eauto;
    destruct (Z.ltb_spec (now st - startTime) timeoutMs); eauto.
  - destruct Hst; [done|lia].
  - apply IH. destruct (decide (pending (pollRound st) = [])) as [|Hne]; [by left|].
    right. specialize (round_sleeps st Hne). destruct Hst; [done|lia].
Qed.

Lemma pollLoop_exit fuel : ∀ st st',
  loop fuel st = Some st' →
  (pending st' = [] ∨ timeoutMs ≤ now st' - startTime) ∧
  (receipts st) `prefix_of` (receipts st') ∧
  pending st' ⊆ pending st.
Proof.
  induction fuel as [|fuel IH]; intros st st'; simpl;
    destruct (bool_decide_reflect (pending st = [])) as [Hp|Hp]; simpl;
    try (intros [= <-]; by eauto);
    destruct (Z.ltb_spec (now st - startTime) timeoutMs);
    try (intros [= <-]; by eauto); try done.
  intros (Hexit & Hr & Hpend)%IH. destruct (round_keeps st) as [Hr1 Hp1].
  split; [done|]. split; [by etrans|]. by etrans.
Qed.

Lemma pollLoop_stops fuel st :
  pending st = [] ∨ timeoutMs ≤ now st - startTime → loop fuel st = Some st.
Proof.
  intros Hst. destruct fuel; simpl;
    destruct (bool_decide_reflect (pending st = [])) as [Hp|Hp]; simpl; try done;
    destruct (Z.ltb_spec (now st - startTime) timeoutMs); try done;
    destruct Hst; done || lia.
Qed.

Lemma enough_fuel :
  timeoutMs - (startTime - startTime)
    ≤ sleepMs * Z.of_nat (Z.to_nat (timeoutMs / sleepMs + 1)).
Proof.
  destruct (Z.le_gt_cases 0 (timeoutMs / sleepMs + 1)).
  - rewrite Z2Nat.id by done.
    pose proof (Z.mod_pos_bound timeoutMs sleepMs sleep_positive).
    pose proof (Z.div_mod timeoutMs sleepMs). lia.
  - assert (timeoutMs / sleepMs < 0) as Hneg by lia.
    assert (timeoutMs < 0).
    { destruct (Z.le_gt_cases 0 timeoutMs); [|done].
      pose proof (Z.div_pos timeoutMs sleepMs). lia. }
    lia.
Qed.

(** The state the loop returns is the state after a number of passes, each
    entered with something pending and before the timeout. *)
Lemma pollLoop_trace fuel : ∀ st st',
  loop fuel st = Some st' →
  ∃ n, st' = Nat.iter n pollRound st ∧
       ∀ k, (k < n)%nat →
            pending (Nat.iter k pollRound st) ≠ [] ∧
            now (Nat.iter k pollRound st) - startTime < timeoutMs.
Proof.
  induction fuel as [|fuel IH]; intros st st'; simpl;
    destruct (bool_decide_reflect (pending st = [])) as [Hp|Hp]; simpl;
    try (intros [= <-]; exists 0%nat; split; [done | intros; lia]);
    destruct (Z.ltb_spec (now st - startTime) timeoutMs);
    try (intros [= <-]; exists 0%nat; split; [done | intros; lia]); try done.
  intros (n & -> & Hbefore)%IH. exists (S n). split.
  - by rewrite Nat.iter_succ_r.
  - intros [|k] Hk; [done|]. rewrite Nat.iter_succ_r. apply Hbefore. lia.
Qed.

End poll_loop.

Lemma filter_split_length {A} (P : A → Prop) `{∀ x, Decision (P x)} (l : list A) :
  (length (filter P l) + length (filter (λ x, ¬ P x) l) = length l)%nat.
Proof.
  induction l as [|x l IH]; [done|]. rewrite !filter_cons.
  destruct (decide (P x)), (decide (¬ P x)); simpl; try lia; tauto.
Qed.

Lemma omap_receipts_length env r (p : list string) :
  length (omap (λ h, receiptOf (getTransactionReceipt env r h)) p)
  = length (filter (answered env r) p).
Proof.
  induction p as [|h p IH]; [done|]. cbn [omap list_omap]. rewrite filter_cons.
  destruct (receiptOf (getTransactionReceipt env r h)) eqn:E.
  - rewrite decide_True by (unfold answered; rewrite E; eauto). simpl. by rewrite IH.
  - rewrite decide_False by (unfold answered; rewrite E; by intros [? ?]). done.
Qed.

(** In a list without duplicates, the elements of a prefix that satisfy [P]
    are the elements of the list that lie in the prefix and satisfy [P]. *)
Lemma filter_prefix_NoDup {A} (P : A → Prop) `{∀ x, Decision (P x)}
    `{EqDecision A} (n : nat) (l : list A) :
  NoDup l →
  filter (λ x, x ∈ take n l ∧ P x) l = filter P (take n l).
Proof.
  intros Hnd.
  transitivity (filter (λ x, x ∈ take n l ∧ P x) (take n l ++ drop n l));
    [by rewrite take_drop|].
  rewrite filter_app.
  rewrite (filter_none _ (drop n l)), app_nil_r.
  - apply filter_ext_in. intros x Hx. tauto.
  - apply Forall_forall. intros x Hx [Hin _].
    rewrite <-(take_drop n l) in Hnd. apply NoDup_app in Hnd as (_ & Hdisj & _).
    by apply (Hdisj x).
Qed.

Lemma receiptOf_GotReceipt reply rc : receiptOf reply = Some rc ↔ reply = GotReceipt rc.
Proof. destruct reply; simpl; split; congruence. Qed.

(** What the rounds of polling add up to, for a loop body that looks up the
    hashes [polled], drops the ones with a receipt and keeps their receipts. *)
Section poll_trace.
Context (env : PollEnv) (pollRound : PollState → PollState)
  (polled : PollState → list string).
Hypothesis round_pending : ∀ st,
  pending (pollRound st)
  = filter (λ h, ¬ (h ∈ polled st ∧ answered env (rounds st) h)) (pending st).
Hypothesis round_receipts : ∀ st,
  receipts (pollRound st)
  = receipts st ++ omap (λ h, receiptOf (getTransactionReceipt env (rounds st) h))
                     (polled st).
Hypothesis round_rounds : ∀ st, rounds (pollRound st) = S (rounds st).
Hypothesis polled_pending : ∀ st, polled st ⊆ pending st.
Hypothesis round_conserves : ∀ st,
  NoDup (pending st) →
  (length (receipts (pollRound st)) + length (pending (pollRound st)))%nat
  = (length (receipts st) + length (pending st))%nat.
Context (st0 : PollState).
Hypothesis rounds0 : rounds st0 = 0%nat.
Hypothesis receipts0 : receipts st0 = [].
Hypothesis pending0 : NoDup (pending st0).

Local Abbreviation after := (λ k, Nat.iter k pollRound st0).

Lemma after_rounds n : rounds (after n) = n.
Proof. induction n as [|n IH]; simpl; [done|]. by rewrite round_rounds, IH. Qed.

Lemma after_pending n h :
  h ∈ pending (after n) ↔
  h ∈ pending st0 ∧ ∀ k, (k < n)%nat → ¬ (h ∈ polled (after k) ∧ answered env k h).
Proof.
  induction n as [|n IH]; simpl.
  - split; [intros ?; split; [done | intros; lia] | by intros [? _]].
  - rewrite round_pending, list_elem_of_filter, IH, after_rounds. split.
    + intros (Hn & H0 & Hk). split; [done|]. intros k Hlt.
      destruct (decide (k = n)) as [->|]; [done|]. apply Hk. lia.
    + intros (H0 & Hk). split; [apply Hk; lia|]. split; [done|].
      intros k Hlt. apply Hk. lia.
Qed.

Lemma after_receipts n rc :
  rc ∈ receipts (after n) ↔
  ∃ k h, (k < n)%nat ∧ h ∈ polled (after k) ∧
         getTransactionReceipt env k h = GotReceipt rc.
Proof.
  induction n as [|n IH]; simpl.
  - rewrite receipts0. split; [by intros ?%elem_of_nil | intros (k & _ & ? & _); lia].
  - rewrite round_receipts, elem_of_app, IH, list_elem_of_omap, after_rounds. split.
    + intros [(k & h & Hk & Hh & Hrc)|(h & Hh & Hrc)].
      * exists k, h. split; [lia | done].
      * exists n, h. split; [lia|]. split; [done|]. by apply receiptOf_GotReceipt.
    + intros (k & h & Hk & Hh & Hrc).
      destruct (decide (k = n)) as [->|].
      * right. exists h. split; [done|]. by apply receiptOf_GotReceipt.
      * left. exists k, h. split; [lia | done].
Qed.

Lemma after_polled n h : h ∈ polled (after n) → h ∈ pending st0.
Proof. intros Hh%polled_pending. by apply after_pending in Hh as [? _]. Qed.

Lemma after_conserves n :
  NoDup (pending (after n)) ∧
  (length (receipts (after n)) + length (pending (after n)))%nat = length (pending st0).
Proof.
  induction n as [|n [Hnd Hlen]]; simpl.
  - by rewrite receipts0.
  - split.
    + rewrite round_pending. by apply NoDup_filter.
    + by rewrite round_conserves.
Qed.

End poll_trace.

Lemma foldl_delete_found (found : list string) : ∀ p : list string,
  foldl (fun p k => filter (λ h, h ≠ k) p) p found = filter (λ h, h ∉ found) p.
Proof.
  induction found as [|k found IH]; intros p; simpl.
  - symmetry. apply filter_all. apply Forall_forall. intros h _. apply not_elem_of_nil.
  - rewrite IH, list_filter_filter. apply list_filter_iff. intros h.
    rewrite not_elem_of_cons. tauto.
Qed.

Lemma answered_GotReceipt env r h :
  answered env r h ↔ ∃ rc, getTransactionReceipt env r h = GotReceipt rc.
Proof.
  unfold answered. destruct (getTransactionReceipt env r h); simpl.
  - split; eauto.
  - split; [by intros [? ?] | by intros [? ?]].
  - split; [by intros [? ?] | by intros [? ?]].
Qed.

Section single_round.
Context (env : PollEnv).
Local Abbreviation round := (TpsTest.pollRound env).

Lemma found_split (r : nat) (p : list string) :
  let found :=
    omap (λ x : string * option Receipt, rc ← x.2; Some (x.1, rc))
      ((λ hash, (hash, receiptOf (getTransactionReceipt env r hash))) <$> p) in
  found.*1 = filter (answered env r) p ∧
  found.*2 = omap (λ h, receiptOf (getTransactionReceipt env r h)) p.
Proof.
  induction p as [|h p [IH1 IH2]]; [done|]. cbn zeta in *.
  rewrite fmap_cons, filter_cons. cbn [omap list_omap].
  destruct (receiptOf (getTransactionReceipt env r h)) as [rc|] eqn:E;
    cbn [mbind option_bind fst snd].
  - rewrite decide_True by (unfold answered; rewrite E; eauto).
    rewrite !fmap_cons. cbn [fst snd]. by rewrite IH1, IH2.
  - rewrite decide_False by (unfold answered; rewrite E; by intros [? ?]). done.
Qed.

Lemma single_receipts st :
  receipts (round st)
  = receipts st ++
    omap (λ h, receiptOf (getTransactionReceipt env (rounds st) h)) (pending st).
Proof.
  unfold TpsTest.pollRound. cbn [receipts]. f_equal. apply found_split.
Qed.

Lemma foldl_delete_keys (found : list (string * Receipt)) : ∀ p : list string,
  foldl (fun p (r : string * Receipt) => filter (λ h, h ≠ r.1) p) p found
  = foldl (fun p k => filter (λ h, h ≠ k) p) p found.*1.
Proof. induction found as [|[k rc] found IH]; intros p; simpl; [done|]. apply IH. Qed.

Lemma single_pending st :
  pending (round st) = filter (λ h, ¬ answered env (rounds st) h) (pending st).
Proof.
  unfold TpsTest.pollRound. cbn [pending].
  rewrite foldl_delete_keys, foldl_delete_found.
  rewrite (proj1 (found_split (rounds st) (pending st))).
  apply filter_ext_in. intros h Hh. rewrite list_elem_of_filter. tauto.
Qed.

Lemma single_sleeps st :
  pending (round st) ≠ [] → now st + 100 ≤ now (round st).
Proof.
  intros Hp. unfold TpsTest.pollRound in *. cbn [now pending] in *.
  rewrite bool_decide_eq_false_2 by done. lia.
Qed.

Lemma single_keeps st :
  (receipts st) `prefix_of` (receipts (round st)) ∧ pending (round st) ⊆ pending st.
Proof.
  split.
  - rewrite single_receipts. by apply prefix_app_r.
  - rewrite single_pending. apply list_subseteq_filter.
Qed.

Lemma single_pending_polled st :
  pending (round st)
  = filter (λ h, ¬ (h ∈ pending st ∧ answered env (rounds st) h)) (pending st).
Proof. rewrite single_pending. apply filter_ext_in. intros h Hh. tauto. Qed.

Lemma single_conserves st :
  (length (receipts (round st)) + length (pending (round st)))%nat
  = (length (receipts st) + length (pending st))%nat.
Proof.
  rewrite single_pending, single_receipts, length_app, omap_receipts_length.
  pose proof (filter_split_length (answered env (rounds st)) (pending st)). lia.
Qed.

End single_round.

Section mixed_round.
Context (env : PollEnv).
Local Abbreviation round := (TpsTestMixed.pollRound env).

Lemma mixed_receipts st :
  receipts (round st)
  = receipts st ++
    omap (λ h, receiptOf (getTransactionReceipt env (rounds st) h))
      (take 100 (pending st)).
Proof.
  unfold TpsTestMixed.pollRound. cbn [receipts]. f_equal.
  induction (take 100 (pending st)) as [|h p IH]; [done|].
  rewrite fmap_cons. cbn [omap list_omap snd].
  destruct (receiptOf _); by rewrite IH.
Qed.

Lemma mixed_delete (r : nat) (batch : list string) : ∀ p : list string,
  foldl (fun p (x : string * option Receipt) =>
           if x.2 is Some _ then filter (λ h, h ≠ x.1) p else p) p
    ((λ hash, (hash, receiptOf (getTransactionReceipt env r hash))) <$> batch)
  = filter (λ h, ¬ (h ∈ batch ∧ answered env r h)) p.
Proof.
  induction batch as [|k batch IH]; intros p.
  - simpl. symmetry. apply filter_all, Forall_forall. intros h _ [[]%elem_of_nil _].
  - rewrite fmap_cons. cbn [foldl]. rewrite IH. cbn [fst snd].
    destruct (receiptOf (getTransactionReceipt env r k)) as [rc|] eqn:E.
    + rewrite list_filter_filter. apply list_filter_iff. intros h.
      rewrite elem_of_cons. split.
      * intros [H1 H2] [[->|Hin] Ha]; [done|]. apply H1. done.
      * intros H. split; [intros [Hin Ha]; apply H; split; [by right|done]|].
        intros ->. apply H. split; [by left|]. unfold answered. rewrite E. eauto.
    + apply list_filter_iff. intros h. rewrite elem_of_cons. split.
      * intros H [[->|Hin] Ha]; [|by apply H].
        unfold answered in Ha. rewrite E in Ha. by destruct Ha.
      * intros H [Hin Ha]. apply H. split; [by right|done].
Qed.

Lemma mixed_pending st :
  pending (round st)
  = filter (λ h, ¬ (h ∈ take 100 (pending st) ∧ answered env (rounds st) h))
      (pending st).
Proof. unfold TpsTestMixed.pollRound. cbn [pending]. apply mixed_delete. Qed.

Lemma mixed_sleeps st :
  pending (round st) ≠ [] → now st + 500 ≤ now (round st).
Proof.
  intros Hp. unfold TpsTestMixed.pollRound in *. cbn [now pending] in *.
  rewrite bool_decide_eq_false_2 by done. lia.
Qed.

Lemma mixed_keeps st :
  (receipts st) `prefix_of` (receipts (round st)) ∧ pending (round st) ⊆ pending st.
Proof.
  split.
  - rewrite mixed_receipts. by apply prefix_app_r.
  - rewrite mixed_pending. apply list_subseteq_filter.
Qed.

Lemma mixed_conserves st :
  NoDup (pending st) →
  (length (receipts (round st)) + length (pending (round st)))%nat
  = (length (receipts st) + length (pending st))%nat.
Proof.
  intros Hnd.
  rewrite mixed_pending, mixed_receipts, length_app, omap_receipts_length.
  rewrite <-(filter_prefix_NoDup (answered env (rounds st)) 100 (pending st) Hnd).
  pose proof (filter_split_length
                (λ h, h ∈ take 100 (pending st) ∧ answered env (rounds st) h)
                (pending st)). lia.
Qed.

End mixed_round.

(** The two parts of the contract that speak of the whole call. *)
Section whole_call.
Context (env : PollEnv) (pollRound : PollState → PollState)
  (polled : PollState → list string) (sleepMs : Z).
Hypothesis sleep_positive : 0 < sleepMs.
Hypothesis round_sleeps : ∀ st,
  pending (pollRound st) ≠ [] → now st + sleepMs ≤ now (pollRound st).
Hypothesis round_pending : ∀ st,
  pending (pollRound st)
  = filter (λ h, ¬ (h ∈ polled st ∧ answered env (rounds st) h)) (pending st).
Hypothesis round_receipts : ∀ st,
  receipts (pollRound st)
  = receipts st ++ omap (λ h, receiptOf (getTransactionReceipt env (rounds st) h))
                     (polled st).
Hypothesis round_rounds : ∀ st, rounds (pollRound st) = S (rounds st).
Hypothesis polled_pending : ∀ st, polled st ⊆ pending st.
Hypothesis round_conserves : ∀ st,
  NoDup (pending st) →
  (length (receipts (pollRound st)) + length (pending (pollRound st)))%nat
  = (length (receipts st) + length (pending st))%nat.

Lemma whole_call txHashes startTime timeoutMs :
  ∃ final,
    pollLoop pollRound startTime timeoutMs (Z.to_nat (timeoutMs / sleepMs + 1))
      (pollStart txHashes startTime) = Some final ∧
    (pending final = [] ∨ timeoutMs ≤ now final - startTime) ∧
    pending final ⊆ JS.new_Set (Broadcaster.hash <$> txHashes) ∧
    let after k := Nat.iter k pollRound (pollStart txHashes startTime) in
    final = after (rounds final) ∧
    (∀ k, (k < rounds final)%nat →
       pending (after k) ≠ [] ∧ now (after k) - startTime < timeoutMs) ∧
    (∀ k h, h ∈ polled (after k) → h ∈ Broadcaster.hash <$> txHashes) ∧
    (∀ h, h ∈ pending final ↔
          h ∈ Broadcaster.hash <$> txHashes ∧
          ∀ k, (k < rounds final)%nat → ¬ (h ∈ polled (after k) ∧ answered env k h)) ∧
    (∀ rc, rc ∈ receipts final ↔
           ∃ k h, (k < rounds final)%nat ∧ h ∈ polled (after k) ∧
                  getTransactionReceipt env k h = GotReceipt rc) ∧
    NoDup (pending final) ∧
    (length (receipts final) + length (pending final))%nat
    = length (JS.new_Set (Broadcaster.hash <$> txHashes)).
Proof.
  set (st0 := pollStart txHashes startTime).
  assert (NoDup (pending st0)) as Hnd0 by apply set_insertion_order_NoDup.
  assert (∀ st, (receipts st) `prefix_of` (receipts (pollRound st))
                ∧ pending (pollRound st) ⊆ pending st) as Hkeeps.
  { intros st. split.
    - rewrite round_receipts. by apply prefix_app_r.
    - rewrite round_pending. apply list_subseteq_filter. }
  destruct (pollLoop_returns pollRound startTime timeoutMs sleepMs round_sleeps
              (Z.to_nat (timeoutMs / sleepMs + 1)) st0) as [final Hfinal].
  { right. apply enough_fuel. done. }
  exists final. split; [done|].
  pose proof (pollLoop_exit _ _ _ Hkeeps _ _ _ Hfinal) as (Hexit & _ & Hsub).
  split; [done|]. split; [done|].
  destruct (pollLoop_trace _ _ _ _ _ _ Hfinal) as (n & Hn & Hbefore).
  assert (rounds final = n) as Hrounds.
  { rewrite Hn. by apply after_rounds. }
  cbv zeta. rewrite Hrounds. split; [done|]. split; [done|].
  split; [|split; [|split]].
  - intros k h Hh. apply new_Set_elem. change (h ∈ pending st0).
    eapply (after_polled env pollRound polled); eauto.
  - intros h. rewrite Hn, <-(new_Set_elem (Broadcaster.hash <$> txHashes) h).
    change (JS.new_Set (Broadcaster.hash <$> txHashes)) with (pending st0).
    eapply (after_pending env pollRound polled); eauto.
  - intros rc. rewrite Hn.
    eapply (after_receipts env pollRound polled); eauto.
  - rewrite Hn.
    change (JS.new_Set (Broadcaster.hash <$> txHashes)) with (pending st0).
    eapply (after_conserves env pollRound polled); eauto.
Qed.

End whole_call.

(** Both trackers return: there is no input on which the loop runs on. *)
Lemma single_returns env txHashes startTime timeoutMs :
  ∃ final, TpsTest.waitForConfirmations env txHashes startTime timeoutMs = Some final.
Proof.
  apply (pollLoop_returns (TpsTest.pollRound env) startTime timeoutMs 100
           (single_sleeps env)).
  right. apply enough_fuel. lia.
Qed.

Lemma mixed_returns env txHashes startTime timeoutMs :
  ∃ final, TpsTestMixed.waitForConfirmations env txHashes startTime timeoutMs = Some final.
Proof.
  apply (pollLoop_returns (TpsTestMixed.pollRound env) startTime timeoutMs 500
           (mixed_sleeps env)).
  right. apply enough_fuel. lia.
Qed.

(** C8.  In either driver the tracker polls in rounds; a polled hash whose
    receipt is found leaves the pending set in that round and its receipt is
    kept, and a hash leaves the pending set for no other reason; once the
    pending set is empty, or the timeout is reached, the loop makes no
    further pass and hands back what it has; and the call always returns
    (there is no failing outcome), with nothing pending or with the timeout
    reached.  What it returns is what the rounds of polling made of the given
    hashes: the pending set holds the given hashes that had no receipt
    whenever they were looked up, the receipts are those that the lookups
    came back with, and the receipts and the pending hashes together are as
    many as the distinct given hashes.  The single-type driver polls every
    pending hash per round, the mixed driver the first hundred. *)
Theorem confirmation_tracker_contract :
  TrackerContract TpsTest.pollRound pending TpsTest.waitForConfirmations ∧
  TrackerContract TpsTestMixed.pollRound (λ st, take 100 (pending st))
    TpsTestMixed.waitForConfirmations.
Proof.
  split; unfold TrackerContract; split_and!.
  - intros env st h rc Hh Hrc. rewrite single_pending, single_receipts. split.
    + rewrite list_elem_of_filter. intros [Hna _]. apply Hna.
      apply answered_GotReceipt. eauto.
    + apply elem_of_app. right. apply list_elem_of_omap. exists h.
      split; [done|]. by rewrite Hrc.
  - intros env st h Hh Hgone. split; [done|].
    apply answered_GotReceipt. destruct (decide (answered env (rounds st) h)); [done|].
    exfalso. apply Hgone. rewrite single_pending. by apply list_elem_of_filter.
  - intros env st. apply single_keeps.
  - intros. by apply pollLoop_stops.
  - intros env txHashes startTime timeoutMs.
    apply (whole_call env (TpsTest.pollRound env) pending 100); try done.
    + apply single_sleeps.
    + apply single_pending_polled.
    + apply single_receipts.
    + intros st _. apply single_conserves.
  - intros env st h rc Hh Hrc. rewrite mixed_pending, mixed_receipts. split.
    + rewrite list_elem_of_filter. intros [Hna _]. apply Hna. split; [done|].
      apply answered_GotReceipt. eauto.
    + apply elem_of_app. right. apply list_elem_of_omap. exists h.
      split; [done|]. by rewrite Hrc.
  - intros env st h Hh Hgone.
    destruct (decide (h ∈ take 100 (pending st) ∧ answered env (rounds st) h))
      as [[Hin Ha]|Hno].
    + split; [done|]. by apply answered_GotReceipt.
    + exfalso. apply Hgone. rewrite mixed_pending. by apply list_elem_of_filter.
  - intros env st. apply mixed_keeps.
  - intros. by apply pollLoop_stops.
  - intros env txHashes startTime timeoutMs.
    apply (whole_call env (TpsTestMixed.pollRound env) (λ st, take 100 (pending st)) 500);
      try done.
    + apply mixed_sleeps.
    + apply mixed_pending.
    + apply mixed_receipts.
    + intros st. apply subseteq_take.
    + apply mixed_conserves.
Qed.

Lemma confirmation_tracker_contract_witness :
  ∃ final,
    TpsTest.waitForConfirmations Demo.silentEndpoint Demo.twoHashes 1000 400
      = Some final ∧
    (pending final = [] ∨ 400 ≤ now final - 1000).
Proof.
  destruct (proj2 (proj2 (proj2 (proj2 (proj1 confirmation_tracker_contract))))
              Demo.silentEndpoint Demo.twoHashes 1000 400)
    as (final & Hfinal & Hexit & _).
  exists final. split; [exact Hfinal | exact Hexit].
Defined.

(** Against an endpoint that never has a receipt the single-type driver gives
    up after four rounds, with both hashes pending and no receipt. *)
Example tracker_times_out :
  (λ st, (pending st, receipts st, now st, rounds st))
    <$> TpsTest.waitForConfirmations Demo.silentEndpoint Demo.twoHashes 1000 400
  = Some (["0x01"; "0x02"], [], 1412, 4%nat).
Proof. vm_compute. reflexivity. Qed.

(** Against an endpoint that has every receipt from the second round on, the
    mixed driver returns both receipts after two rounds, nothing pending. *)
Example tracker_resolves_in_two_rounds :
  (λ st, (pending st, length (receipts st), rounds st))
    <$> TpsTestMixed.waitForConfirmations Demo.slowEndpoint Demo.twoHashes 1000 60000
  = Some ([], 2%nat, 2%nat).
Proof. vm_compute. reflexivity. Qed.

(** * The verifier *)

(** ** The fetched blocks *)

Lemma blockNumbers_elem receipts n :
  n ∈ TpsTest.blockNumbers receipts ↔ ∃ r, r ∈ receipts ∧ blockNumber r = n.
Proof.
  unfold TpsTest.blockNumbers.
  rewrite merge_sort_Permutation, new_Set_elem, list_elem_of_fmap. split.
  - intros (r & -> & Hr). eauto.
  - intros (r & Hr & <-). eauto.
Qed.

Lemma blockNumbers_NoDup receipts : NoDup (TpsTest.blockNumbers receipts).
Proof.
  unfold TpsTest.blockNumbers. rewrite merge_sort_Permutation.
  apply set_insertion_order_NoDup.
Qed.

Lemma mapM_unwrap (fetched : list (option Block)) : ∀ blocks,
  mapM (fun b => match b with Some b => Ok b | None => Throw TypeError end) fetched
    = Ok blocks →
  fetched = Some <$> blocks.
Proof.
  induction fetched as [|[b|] fetched IH]; intros blocks; simpl.
  - by intros [= <-].
  - destruct (mapM _ fetched) as [bs|]; simpl; [|done].
    intros [= <-]. by rewrite (IH bs).
  - done.
Qed.

(** Where no hash is listed twice, the listed entries that are claimed are
    as many as the claimed hashes that are listed. *)
Lemma included_size (claimed : gset string) (listed : list string) :
  NoDup (JS.toLowerCase <$> listed) →
  length (included claimed listed)
    = size (claimed ∩ list_to_set (JS.toLowerCase <$> listed)).
Proof.
  unfold included. induction listed as [|h listed IH].
  { intros _. simpl. by rewrite intersection_empty_r_L, size_empty. }
  rewrite fmap_cons, NoDup_cons. intros [Hh Hnd].
  rewrite filter_cons, list_to_set_cons. case_decide as Hc.
  - assert (claimed ∩ ({[JS.toLowerCase h]} ∪ list_to_set (JS.toLowerCase <$> listed))
            = {[JS.toLowerCase h]} ∪ claimed ∩ list_to_set (JS.toLowerCase <$> listed))
      as ->.
    { apply set_eq. intros x.
      rewrite !elem_of_union, !elem_of_intersection, elem_of_union, elem_of_singleton.
      split; [tauto|]. intros [->|[? ?]]; tauto. }
    rewrite size_union, size_singleton.
    + simpl. by rewrite IH.
    + apply disjoint_singleton_l.
      rewrite elem_of_intersection, elem_of_list_to_set. tauto.
  - assert (claimed ∩ ({[JS.toLowerCase h]} ∪ list_to_set (JS.toLowerCase <$> listed))
            = claimed ∩ list_to_set (JS.toLowerCase <$> listed))
      as ->.
    { apply set_eq. intros x.
      rewrite !elem_of_intersection, elem_of_union, elem_of_singleton.
      split; [|tauto]. intros [? [->|?]]; tauto. }
    by apply IH.
Qed.

(** ** The block check of the single-type driver *)

Section single_counts.
Context (ourTxHashes successfulTxHashes : gset string).

Local Abbreviation countHash := (TpsTest.countHash ourTxHashes successfulTxHashes).
Local Abbreviation countBlock := (TpsTest.countBlock ourTxHashes successfulTxHashes).

Lemma countIncluded_hashes (txs : list string) : ∀ acc,
  (foldl countHash acc txs).1.1 = (acc.1.1 + length (included ourTxHashes txs))%nat ∧
  (foldl countHash acc txs).2 = acc.2.
Proof.
  unfold included.
  induction txs as [|h txs IH]; intros acc; cbn [foldl].
  { simpl. split; [lia|done]. }
  rewrite filter_cons.
  destruct (IH (TpsTest.countHash ourTxHashes successfulTxHashes acc h)) as [-> ->].
  unfold TpsTest.countHash. destruct acc as [[v s] t].
  case_bool_decide; case_decide; try done; simpl; split; lia.
Qed.

Lemma countIncluded_blocks (blocks : list Block) : ∀ acc,
  (foldl countBlock acc blocks).1.1
    = (acc.1.1 + length (included ourTxHashes (listedHashes blocks)))%nat ∧
  (foldl countBlock acc blocks).2 = (acc.2 + length (listedHashes blocks))%nat.
Proof.
  induction blocks as [|b blocks IH]; intros acc; cbn [foldl].
  { simpl. split; lia. }
  destruct (IH (TpsTest.countBlock ourTxHashes successfulTxHashes acc b)) as [-> ->].
  unfold TpsTest.countBlock.
  destruct (countIncluded_hashes (transactions b)
              (acc.1.1, acc.1.2, (acc.2 + length (transactions b))%nat)) as [-> ->].
  unfold listedHashes, included. rewrite fmap_cons. cbn [concat fst snd].
  rewrite filter_app, !length_app. split; lia.
Qed.

Lemma countIncluded_spec (blocks : list Block) :
  (TpsTest.countIncluded ourTxHashes successfulTxHashes blocks).1.1
    = length (included ourTxHashes (listedHashes blocks)) ∧
  (TpsTest.countIncluded ourTxHashes successfulTxHashes blocks).2
    = length (listedHashes blocks).
Proof.
  unfold TpsTest.countIncluded.
  destruct (countIncluded_blocks blocks (0, 0, 0)%nat) as [-> ->]. done.
Qed.

End single_counts.

Lemma single_block_check provider receipts expected a :
  TpsTest.analyzeBlockTPS provider receipts expected = Ok (Some a) →
  TpsTest.requests a
    = (fun n => GetBlock n false) <$> TpsTest.blockNumbers receipts ∧
  ∃ blocks,
    mapM (TpsTest.getBlock provider) (TpsTest.blockNumbers receipts)
      = Ok (Some <$> blocks) ∧
    TpsTest.verifiedTxCount a
      = length (included (claimedByReceipts receipts) (listedHashes blocks)) ∧
    TpsTest.totalBlockTxCount a = length (listedHashes blocks).
Proof.
  unfold TpsTest.analyzeBlockTPS. case_bool_decide; [done|].
  destruct (mapM (TpsTest.getBlock provider) _) as [fetched|] eqn:Hf; [|done].
  cbn [mbind Result_bind].
  destruct (mapM _ fetched) as [blocks|] eqn:Hb; [|done].
  cbn [mbind Result_bind]. apply mapM_unwrap in Hb as ->.
  destruct (TpsTest.countIncluded _ _ blocks) as [[v s] t] eqn:Hc.
  destruct (TpsTest.sampleVerification _ _ _) as [[sv sr]|]; [|done].
  cbn [mbind Result_bind]. intros [= <-].
  cbn [TpsTest.requests TpsTest.verifiedTxCount TpsTest.totalBlockTxCount].
  split; [done|]. exists blocks. split; [done|].
  pose proof (countIncluded_spec
    (list_to_set ((fun r => JS.toLowerCase (r_hash r)) <$> receipts))
    (list_to_set ((fun r => JS.toLowerCase (r_hash r)) <$> filter (λ r, status r = 1) receipts))
    blocks) as [H1 H2].
  rewrite Hc in H1, H2. split; [exact H1 | exact H2].
Qed.

(** ** The block check of the mixed driver *)

Lemma Math_min_spec (l : list Z) :
  l ≠ [] → TpsTestMixed.Math_min l ∈ l ∧ ∀ x, x ∈ l → TpsTestMixed.Math_min l ≤ x.
Proof.
  destruct l as [|d l]; [done|]. intros _.
  change (TpsTestMixed.Math_min (d :: l)) with (foldr Z.min d (d :: l)).
  assert (∀ k : list Z, foldr Z.min d k ∈ d :: k ∧ foldr Z.min d k ≤ d ∧
                        ∀ x, x ∈ k → foldr Z.min d k ≤ x) as H.
  { induction k as [|y k (Hin & Hd & Hall)]; simpl.
    - split; [left|]. split; [lia|]. intros x []%elem_of_nil.
    - split; [|split; [lia|]].
      + destruct (Z.min_spec y (foldr Z.min d k)) as [[_ ->]|[_ ->]].
        * right. left.
        * apply elem_of_cons in Hin as [->|Hin]; [left | right; by right].
      + intros x [->|Hx]%elem_of_cons; [lia|]. specialize (Hall x Hx). lia. }
  destruct (H (d :: l)) as (Hin & _ & Hall). split; [|done].
  apply elem_of_cons in Hin as [->|Hin]; [left|done].
Qed.

Lemma Math_max_spec (l : list Z) :
  l ≠ [] → TpsTestMixed.Math_max l ∈ l ∧ ∀ x, x ∈ l → x ≤ TpsTestMixed.Math_max l.
Proof.
  destruct l as [|d l]; [done|]. intros _.
  change (TpsTestMixed.Math_max (d :: l)) with (foldr Z.max d (d :: l)).
  assert (∀ k : list Z, foldr Z.max d k ∈ d :: k ∧ d ≤ foldr Z.max d k ∧
                        ∀ x, x ∈ k → x ≤ foldr Z.max d k) as H.
  { induction k as [|y k (Hin & Hd & Hall)]; simpl.
    - split; [left|]. split; [lia|]. intros x []%elem_of_nil.
    - split; [|split; [lia|]].
      + destruct (Z.max_spec y (foldr Z.max d k)) as [[_ ->]|[_ ->]].
        * apply elem_of_cons in Hin as [->|Hin]; [left | right; by right].
        * right. left.
      + intros x [->|Hx]%elem_of_cons; [lia|]. specialize (Hall x Hx). lia. }
  destruct (H (d :: l)) as (Hin & _ & Hall). split; [|done].
  apply elem_of_cons in Hin as [->|Hin]; [left|done].
Qed.

Lemma txHashToMeta_keys (metas : list Broadcaster.HashMeta) :
  ∀ (m : gmap string Broadcaster.HashMeta) k,
  is_Some (foldl (fun m meta => <[JS.toLowerCase (Broadcaster.hash meta) := meta]> m)
             m metas !! k)
  ↔ is_Some (m !! k) ∨ k ∈ broadcastHashes metas.
Proof.
  unfold broadcastHashes.
  induction metas as [|x metas IH]; intros m k; cbn [foldl].
  - rewrite fmap_nil, list_to_set_nil, elem_of_empty. tauto.
  - rewrite IH, fmap_cons, list_to_set_cons, elem_of_union, elem_of_singleton.
    destruct (decide (JS.toLowerCase (Broadcaster.hash x) = k)) as [<-|Hne].
    + rewrite lookup_insert_eq. split; [|eauto]. tauto.
    + rewrite lookup_insert_ne by done. split; [tauto|].
      intros [?|[?|?]]; auto. congruence.
Qed.

Section mixed_counts.
Context (receipts : list Receipt) (metas : list Broadcaster.HashMeta).

Local Abbreviation txHashToMeta :=
  (foldl (fun m meta => <[JS.toLowerCase (Broadcaster.hash meta) := meta]> m)
     (∅ : gmap string Broadcaster.HashMeta) metas).

Lemma txHashToMeta_lookup k :
  is_Some (txHashToMeta !! k) ↔ k ∈ broadcastHashes metas.
Proof.
  rewrite txHashToMeta_keys, lookup_empty. split; [|auto].
  intros [[? ?]|?]; [done|done].
Qed.

Lemma receipt_found h :
  is_Some (list_find (λ r, JS.toLowerCase (r_hash r) = JS.toLowerCase h) receipts)
  ↔ JS.toLowerCase h ∈ claimedByReceipts receipts.
Proof.
  unfold claimedByReceipts. rewrite elem_of_list_to_set, list_elem_of_fmap. split.
  - intros [[i r] (Hi & Heq & _)%list_find_Some]. exists r.
    split; [done|]. by eapply list_elem_of_lookup_2.
  - intros (r & Heq & Hin).
    destruct (list_find _ receipts) as [found|] eqn:Hr; [eauto|].
    eapply list_find_None, Forall_forall in Hr; [|exact Hin]. done.
Qed.

(** What one hash of a block adds to [ourTxCount] and to [verifiedTxCount]. *)
Lemma countHash_counts acc h :
  let out := TpsTestMixed.countHash receipts txHashToMeta acc h in
  TpsTestMixed.ourTxCount out.1
    = (TpsTestMixed.ourTxCount acc.1 + length (included (broadcastHashes metas) [h]))%nat ∧
  TpsTestMixed.verifiedTxCount out.1
    = (TpsTestMixed.verifiedTxCount acc.1
       + length (included (claimedByBroadcast metas receipts) [h]))%nat.
Proof.
  cbn zeta. unfold TpsTestMixed.countHash, included, claimedByBroadcast.
  destruct acc as [t n]. rewrite !filter_cons, !filter_nil.
  destruct (txHashToMeta !! JS.toLowerCase h) as [meta|] eqn:Hm.
  - assert (JS.toLowerCase h ∈ broadcastHashes metas) as Hk.
    { apply txHashToMeta_lookup. eauto. }
    rewrite (decide_True _ _ Hk).
    destruct (list_find _ receipts) as [[i r]|] eqn:Hr.
    + rewrite decide_True.
      * destruct (status r =? 1); simpl; split; lia.
      * apply elem_of_intersection. split; [done|]. apply receipt_found. eauto.
    + rewrite decide_False; [simpl; split; lia|].
      intros [_ Hin%receipt_found]%elem_of_intersection.
      rewrite Hr in Hin. by destruct Hin.
  - assert (JS.toLowerCase h ∉ broadcastHashes metas) as Hk.
    { intros [? ?]%txHashToMeta_lookup. congruence. }
    rewrite (decide_False _ _ Hk), decide_False; [simpl; split; lia|].
    intros [? _]%elem_of_intersection. done.
Qed.

Lemma countHashes_counts (txs : list string) : ∀ acc,
  let out := foldl (TpsTestMixed.countHash receipts txHashToMeta) acc txs in
  TpsTestMixed.ourTxCount out.1
    = (TpsTestMixed.ourTxCount acc.1 + length (included (broadcastHashes metas) txs))%nat ∧
  TpsTestMixed.verifiedTxCount out.1
    = (TpsTestMixed.verifiedTxCount acc.1
       + length (included (claimedByBroadcast metas receipts) txs))%nat.
Proof.
  induction txs as [|h txs IH]; intros acc; cbn zeta; cbn [foldl].
  { unfold included. rewrite !filter_nil. simpl. split; lia. }
  destruct (IH (TpsTestMixed.countHash receipts txHashToMeta acc h)) as [-> ->].
  destruct (countHash_counts acc h) as [-> ->].
  change (h :: txs) with ([h] ++ txs). unfold included.
  rewrite !(filter_app _ [h] txs), !length_app. split; lia.
Qed.

Lemma countBlocks_counts (blocks : list (option Block)) : ∀ t,
  let out := foldl (TpsTestMixed.countBlock receipts txHashToMeta) t blocks in
  TpsTestMixed.ourTxCount out
    = (TpsTestMixed.ourTxCount t
       + length (included (broadcastHashes metas) (listedHashes (omap id blocks))))%nat ∧
  TpsTestMixed.verifiedTxCount out
    = (TpsTestMixed.verifiedTxCount t
       + length (included (claimedByBroadcast metas receipts)
                   (listedHashes (omap id blocks))))%nat.
Proof.
  induction blocks as [|[b|] blocks IH]; intros t; cbn zeta; cbn [foldl].
  - unfold included, listedHashes. simpl. split; lia.
  - destruct (IH (TpsTestMixed.countBlock receipts txHashToMeta t (Some b))) as [-> ->].
    unfold TpsTestMixed.countBlock.
    set (t0 := TpsTestMixed.Build_Tally _ _ _ _ _ _ _).
    pose proof (countHashes_counts (transactions b) (t0, 0%nat)) as [Ho Hv].
    cbn zeta in Ho, Hv.
    destruct (foldl _ (t0, 0%nat) (transactions b)) as [t1 n]. simpl in Ho, Hv.
    cbn [TpsTestMixed.ourTxCount TpsTestMixed.verifiedTxCount]. rewrite Ho, Hv.
    unfold listedHashes, included. cbn [omap list_omap id]. rewrite fmap_cons.
    cbn [concat]. rewrite !filter_app, !length_app. split; lia.
  - destruct (IH (TpsTestMixed.countBlock receipts txHashToMeta t None)) as [-> ->].
    done.
Qed.

End mixed_counts.

Lemma mixed_block_check getBlock receipts metas a :
  TpsTestMixed.analyzeBlockTPS getBlock receipts metas = Ok (Some a) →
  (∀ r, r ∈ receipts →
        TpsTestMixed.firstBlock a ≤ blockNumber r ≤ TpsTestMixed.lastBlock a) ∧
  (∃ r, r ∈ receipts ∧ blockNumber r = TpsTestMixed.firstBlock a) ∧
  (∃ r, r ∈ receipts ∧ blockNumber r = TpsTestMixed.lastBlock a) ∧
  TpsTestMixed.requests a
    = (fun i => GetBlock i false)
        <$> seqZ (TpsTestMixed.firstBlock a)
              (TpsTestMixed.lastBlock a - TpsTestMixed.firstBlock a + 1) ∧
  ∃ blocks,
    mapM getBlock (seqZ (TpsTestMixed.firstBlock a)
                     (TpsTestMixed.lastBlock a - TpsTestMixed.firstBlock a + 1))
      = Ok blocks ∧
    TpsTestMixed.ourTxCount (TpsTestMixed.tally a)
      = length (included (broadcastHashes metas) (listedHashes (omap id blocks))) ∧
    TpsTestMixed.verifiedTxCount (TpsTestMixed.tally a)
      = length (included (claimedByBroadcast metas receipts)
                  (listedHashes (omap id blocks))).
Proof.
  unfold TpsTestMixed.analyzeBlockTPS. case_bool_decide as Hne; [done|].
  fold (TpsTest.blockNumbers receipts).
  destruct (mapM getBlock _) as [blocks|] eqn:Hf; [|done].
  cbn [mbind Result_bind]. case_bool_decide; [done|].
  intros [= <-].
  cbn [TpsTestMixed.firstBlock TpsTestMixed.lastBlock TpsTestMixed.requests
       TpsTestMixed.tally].
  assert (TpsTest.blockNumbers receipts ≠ []) as Hnum.
  { destruct receipts as [|r rs]; [done|].
    intros Hnil. assert (blockNumber r ∈ TpsTest.blockNumbers (r :: rs)) as Hin.
    { apply blockNumbers_elem. exists r. split; [left|done]. }
    rewrite Hnil in Hin. by apply elem_of_nil in Hin. }
  destruct (Math_min_spec _ Hnum) as [Hmin_in Hmin].
  destruct (Math_max_spec _ Hnum) as [Hmax_in Hmax].
  split; [|split; [|split; [|split; [done|]]]].
  - intros r Hr. assert (blockNumber r ∈ TpsTest.blockNumbers receipts) as Hin.
    { apply blockNumbers_elem. eauto. }
    split; [by apply Hmin | by apply Hmax].
  - by apply blockNumbers_elem in Hmin_in.
  - by apply blockNumbers_elem in Hmax_in.
  - exists blocks. split; [done|].
    destruct (countBlocks_counts receipts metas blocks TpsTestMixed.emptyTally)
      as [-> ->].
    done.
Qed.

(** C7 (as the code has it).  Both drivers ask for blocks with hash lists
    only, and reject the whole analysis when a request fails.  The single-type
    driver asks for the blocks that hold a receipt, each once, and for no
    block in between; its count of hashes found on chain is the number of
    entries of the fetched lists that are, in lower case, the hash of a
    receipt.  The mixed driver asks for every block from the least to the
    greatest block number of the receipts; it counts the listed entries that
    were broadcast, and among them those that have a receipt.  Where no hash
    is listed twice, such a count is the number of claimed hashes that occur
    in a fetched list. *)
Theorem block_inclusion_check :
  (∀ provider receipts expected a,
     TpsTest.analyzeBlockTPS provider receipts expected = Ok (Some a) →
     TpsTest.requests a
       = (fun n => GetBlock n false) <$> TpsTest.blockNumbers receipts ∧
     NoDup (TpsTest.blockNumbers receipts) ∧
     (∀ n, n ∈ TpsTest.blockNumbers receipts ↔ ∃ r, r ∈ receipts ∧ blockNumber r = n) ∧
     ∃ blocks,
       mapM (TpsTest.getBlock provider) (TpsTest.blockNumbers receipts)
         = Ok (Some <$> blocks) ∧
       TpsTest.verifiedTxCount a
         = length (included (claimedByReceipts receipts) (listedHashes blocks)) ∧
       (NoDup (JS.toLowerCase <$> listedHashes blocks) →
        TpsTest.verifiedTxCount a
          = size (claimedByReceipts receipts
                  ∩ list_to_set (JS.toLowerCase <$> listedHashes blocks)))) ∧
  (∀ getBlock receipts metas a,
     TpsTestMixed.analyzeBlockTPS getBlock receipts metas = Ok (Some a) →
     (∀ r, r ∈ receipts →
           TpsTestMixed.firstBlock a ≤ blockNumber r ≤ TpsTestMixed.lastBlock a) ∧
     (∃ r, r ∈ receipts ∧ blockNumber r = TpsTestMixed.firstBlock a) ∧
     (∃ r, r ∈ receipts ∧ blockNumber r = TpsTestMixed.lastBlock a) ∧
     (∀ call, call ∈ TpsTestMixed.requests a ↔
              ∃ i, TpsTestMixed.firstBlock a ≤ i ≤ TpsTestMixed.lastBlock a ∧
                   call = GetBlock i false) ∧
     ∃ blocks,
       mapM getBlock (seqZ (TpsTestMixed.firstBlock a)
                        (TpsTestMixed.lastBlock a - TpsTestMixed.firstBlock a + 1))
         = Ok blocks ∧
       TpsTestMixed.ourTxCount (TpsTestMixed.tally a)
         = length (included (broadcastHashes metas) (listedHashes (omap id blocks))) ∧
       TpsTestMixed.verifiedTxCount (TpsTestMixed.tally a)
         = length (included (claimedByBroadcast metas receipts)
                     (listedHashes (omap id blocks))) ∧
       (NoDup (JS.toLowerCase <$> listedHashes (omap id blocks)) →
        TpsTestMixed.ourTxCount (TpsTestMixed.tally a)
          = size (broadcastHashes metas
                  ∩ list_to_set (JS.toLowerCase <$> listedHashes (omap id blocks))))).
Proof.
  split.
  - intros provider receipts expected a Ha.
    destruct (single_block_check _ _ _ _ Ha) as (Hreq & blocks & Hfetch & Hcount & _).
    split; [done|]. split; [apply blockNumbers_NoDup|].
    split; [apply blockNumbers_elem|].
    exists blocks. split; [done|]. split; [done|].
    intros Hnd. rewrite Hcount. by apply included_size.
  - intros getBlock receipts metas a Ha.
    destruct (mixed_block_check _ _ _ _ Ha)
      as (Hrange & Hfirst & Hlast & Hreq & blocks & Hfetch & Hours & Hverified).
    split; [done|]. split; [done|]. split; [done|]. split.
    + intros call. rewrite Hreq, list_elem_of_fmap. split.
      * intros (i & -> & Hi%elem_of_seqZ). exists i. split; [lia|done].
      * intros (i & Hi & ->). exists i. split; [done|]. apply elem_of_seqZ. lia.
    + exists blocks. split; [done|]. split; [done|]. split; [done|].
      intros Hnd. rewrite Hours. by apply included_size.
Qed.

Lemma block_inclusion_check_witness :
  ∃ a,
    TpsTestMixed.analyzeBlockTPS (fun n => Ok (Some (Demo.blockAt n)))
      Demo.twoReceipts Demo.twoHashes = Ok (Some a) ∧
    ∀ call, call ∈ TpsTestMixed.requests a ↔
            ∃ i, TpsTestMixed.firstBlock a ≤ i ≤ TpsTestMixed.lastBlock a ∧
                 call = GetBlock i false.
Proof.
  eexists. split; [vm_compute; reflexivity|].
  refine (proj1 (proj2 (proj2 (proj2
    (proj2 block_inclusion_check (fun n => Ok (Some (Demo.blockAt n)))
       Demo.twoReceipts Demo.twoHashes _ _))))).
  vm_compute. reflexivity.
Defined.

(** With receipts in blocks 5 and 7 the single-type driver asks for blocks 5
    and 7 and not for block 6, which lies between the least and the greatest
    block number of the receipts; both hashes are found. *)
Lemma single_driver_skips_blocks_between :
  ∃ a,
    TpsTest.analyzeBlockTPS (Demo.provider "0xE0") Demo.twoReceipts Demo.expected
      = Ok (Some a) ∧
    TpsTest.requests a = [GetBlock 5 false; GetBlock 7 false] ∧
    TpsTest.verifiedTxCount a = 2%nat ∧
    TpsTest.totalBlockTxCount a = 3%nat.
Proof. eexists. split; [vm_compute; reflexivity|]. vm_compute. done. Qed.

(** The mixed driver, on the same receipts, asks for blocks 5, 6 and 7. *)
Example mixed_driver_fetches_the_range :
  ∃ a,
    TpsTestMixed.analyzeBlockTPS (fun n => Ok (Some (Demo.blockAt n)))
      Demo.twoReceipts Demo.twoHashes = Ok (Some a) ∧
    TpsTestMixed.requests a = [GetBlock 5 false; GetBlock 6 false; GetBlock 7 false] ∧
    TpsTestMixed.verifiedTxCount (TpsTestMixed.tally a) = 2%nat ∧
    TpsTestMixed.totalBlockTxCount (TpsTestMixed.tally a) = 4%nat.
Proof. eexists. split; [vm_compute; reflexivity|]. vm_compute. done. Qed.

(** ** The sample check of the single-type driver *)

Section sample.
Import TpsTest.

Lemma sampleCheck_to_mismatch provider expected receipt tx txReceipt :
  getTransaction provider (r_hash receipt) = Ok (Some tx) →
  getReceipt provider (r_hash receipt) = Ok (Some txReceipt) →
  JS.toLowerCase (from tx) ∈ senderAddresses expected →
  JS.toLowerCase <$> tx_to tx ≠ Some (recipient expected) →
  sampleCheck provider expected receipt
    = SampleFailed (shortHash (r_hash receipt)) "to".
Proof.
  intros Htx Hrc Hfrom Hto. unfold sampleCheck. rewrite Htx, Hrc.
  rewrite (bool_decide_eq_true_2 _ Hfrom), (bool_decide_eq_false_2 _ Hto). done.
Qed.

Lemma sampleCheck_failed provider expected receipt h reason :
  sampleCheck provider expected receipt = SampleFailed h reason ↔
  h = shortHash (r_hash receipt) ∧ failsWith provider expected receipt reason.
Proof.
  unfold sampleCheck, failsWith. split.
  - destruct (getTransaction provider _) as [tx|err] eqn:Htx;
      [|intros [= <- <-]; split; [done|]; left; eauto].
    destruct (getReceipt provider _) as [txReceipt|err] eqn:Hrc;
      [|intros [= <- <-]; split; [done|]; right; left; eauto].
    destruct tx as [tx|];
      [|intros [= <- <-]; split; [done|]; do 2 right; left;
        exists None, txReceipt; auto].
    destruct txReceipt as [txReceipt|];
      [|intros [= <- <-]; split; [done|]; do 2 right; left;
        exists (Some tx), None; auto].
    cbv zeta.
    case_bool_decide as Hfrom; cbn [andb negb];
      [|intros [= <- <-]; split; [done|]; do 3 right; exists tx, txReceipt; tauto].
    case_bool_decide as Hto; cbn [andb negb];
      [|intros [= <- <-]; split; [done|]; do 3 right; exists tx, txReceipt; tauto].
    destruct (Z.eqb_spec (tx_value tx) (exp_value expected)) as [Hv|Hv]; cbn [andb negb];
      [|intros [= <- <-]; split; [done|]; do 3 right; exists tx, txReceipt; tauto].
    destruct (Z.eqb_spec (status txReceipt) 1) as [Hs|Hs]; cbn [andb negb];
      [|intros [= <- <-]; split; [done|]; do 3 right; exists tx, txReceipt; tauto].
    destruct (Z.gtb_spec (blockNumber txReceipt) 0) as [Hb|Hb]; cbn [andb negb];
      [done|].
    intros [= <- <-]. split; [done|]. do 3 right. exists tx, txReceipt.
    split; [done|]. split; [done|]. do 4 right. repeat split; try done. lia.
  - intros [-> [(err & -> & ->)|[(tx & err & -> & -> & ->)|
      [(tx & txReceipt & -> & -> & Hnull & ->)|(tx & txReceipt & -> & -> & Hcase)]]]];
      try done.
    + destruct Hnull as [->| ->]; [done|]. by destruct tx.
    + cbv zeta in Hcase.
      destruct Hcase as [[Hfrom ->]|[(Hfrom & Hto & ->)|[(Hfrom & Hto & Hv & ->)|
        [(Hfrom & Hto & Hv & Hs & ->)|(Hfrom & Hto & Hv & Hs & Hb & ->)]]]].
      * by rewrite (bool_decide_eq_false_2 _ Hfrom).
      * by rewrite (bool_decide_eq_true_2 _ Hfrom), (bool_decide_eq_false_2 _ Hto).
      * rewrite (bool_decide_eq_true_2 _ Hfrom), (bool_decide_eq_true_2 _ Hto).
        by rewrite (proj2 (Z.eqb_neq _ _) Hv).
      * rewrite (bool_decide_eq_true_2 _ Hfrom), (bool_decide_eq_true_2 _ Hto).
        by rewrite (proj2 (Z.eqb_eq _ _) Hv), (proj2 (Z.eqb_neq _ _) Hs).
      * rewrite (bool_decide_eq_true_2 _ Hfrom), (bool_decide_eq_true_2 _ Hto).
        rewrite (proj2 (Z.eqb_eq _ _) Hv), (proj2 (Z.eqb_eq _ _) Hs).
        destruct (Z.gtb_spec (blockNumber txReceipt) 0); [lia | done].
Qed.

Lemma sampleCheck_passed provider expected receipt h f t v b :
  sampleCheck provider expected receipt = SampleOk h f t v b ↔
  ∃ tx txReceipt,
    passesWith provider expected receipt tx txReceipt ∧
    h = shortHash (r_hash receipt) ∧
    f = String.append (String.substring 0 10 (from tx)) "..." ∧
    t = String.append (String.substring 0 10 (default "" (tx_to tx))) "..." ∧
    v = tx_value tx ∧ b = blockNumber txReceipt.
Proof.
  unfold sampleCheck, passesWith. split.
  - destruct (getTransaction provider _) as [[tx|]|err]; try done;
      destruct (getReceipt provider _) as [[txReceipt|]|err']; try done.
    cbv zeta.
    case_bool_decide as Hfrom; cbn [andb negb]; [|done].
    case_bool_decide as Hto; cbn [andb negb]; [|done].
    destruct (Z.eqb_spec (tx_value tx) (exp_value expected)) as [Hv|Hv];
      cbn [andb negb]; [|done].
    destruct (Z.eqb_spec (status txReceipt) 1) as [Hs|Hs]; cbn [andb negb]; [|done].
    destruct (Z.gtb_spec (blockNumber txReceipt) 0) as [Hb|Hb]; cbn [andb negb]; [|done].
    intros [= <- <- <- <- <-]. exists tx, txReceipt. repeat split; done.
  - intros (tx & txReceipt & (-> & -> & Hfrom & Hto & Hv & Hs & Hb) & -> & -> & -> & -> & ->).
    cbv zeta.
    rewrite (bool_decide_eq_true_2 _ Hfrom), (bool_decide_eq_true_2 _ Hto).
    rewrite (proj2 (Z.eqb_eq _ _) Hv), (proj2 (Z.eqb_eq _ _) Hs).
    destruct (Z.gtb_spec (blockNumber txReceipt) 0); [done | lia].
Qed.

Lemma sample_fold_counts (sampled : list Receipt) provider expected : ∀ n results,
  let out := foldl
    (fun '(sampleVerified, sampleResults) receipt =>
       match sampleCheck provider expected receipt with
       | SampleOk h f t v b => (S sampleVerified, sampleResults ++ [SampleOk h f t v b])
       | SampleFailed h reason => (sampleVerified, sampleResults ++ [SampleFailed h reason])
       end) (n, results) sampled in
  out.1 = (n + length (filter isSampleOk (sampleCheck provider expected <$> sampled)))%nat ∧
  out.2 = results ++ (sampleCheck provider expected <$> sampled).
Proof.
  induction sampled as [|r sampled IH]; intros n results.
  { simpl. rewrite app_nil_r. split; [lia|done]. }
  cbn zeta. cbn [foldl]. rewrite fmap_cons, filter_cons.
  destruct (sampleCheck provider expected r) as [h f t v b|h reason] eqn:E.
  - destruct (IH (S n) (results ++ [SampleOk h f t v b])) as [-> ->].
    rewrite decide_True by done. rewrite <-app_assoc. simpl. split; [lia|done].
  - destruct (IH n (results ++ [SampleFailed h reason])) as [-> ->].
    rewrite decide_False by (simpl; auto). rewrite <-app_assoc. simpl. split; [lia|done].
Qed.

Lemma mapM_Forall2 {A B} (f : A → Result B) (l : list A) : ∀ l',
  mapM f l = Ok l' → Forall2 (λ x y, f x = Ok y) l l'.
Proof.
  induction l as [|x l IH]; intros l'; simpl.
  - intros [= <-]. constructor.
  - destruct (f x) as [y|] eqn:Hx; [|done]. cbn [mbind Result_bind].
    destruct (mapM f l) as [rest|]; [|done]. cbn [mbind Result_bind].
    intros [= <-]. constructor; [done | by apply IH].
Qed.

Lemma length_sampleIndices (len : Z) :
  length (sampleIndices len) = Z.to_nat (Z.min 10 len).
Proof. unfold sampleIndices. by rewrite length_fmap, length_seqZ. Qed.

(** Up to ten receipts, the sample positions are all positions, in order. *)
Lemma sampleIndices_small (len : Z) :
  0 ≤ len ≤ 10 → sampleIndices len = Some <$> seqZ 0 len.
Proof.
  intros Hlen.
  assert (len = 0 ∨ len = 1 ∨ len = 2 ∨ len = 3 ∨ len = 4 ∨ len = 5 ∨ len = 6
          ∨ len = 7 ∨ len = 8 ∨ len = 9 ∨ len = 10) as Hcases by lia.
  repeat (destruct Hcases as [->|Hcases]; [vm_compute; reflexivity|]).
  subst. vm_compute. reflexivity.
Qed.

Lemma sampleVerification_counts provider expected receipts n results :
  sampleVerification provider expected receipts = Ok (n, results) →
  n = length (filter isSampleOk results) ∧
  Forall2 (checksReceiptAt provider expected receipts)
    (sampleIndices (Z.of_nat (length receipts))) results.
Proof.
  unfold sampleVerification.
  destruct (mapM _ _) as [sampled|] eqn:Hs; [|done]. cbn [mbind Result_bind].
  intros [= Hout].
  pose proof (sample_fold_counts sampled provider expected 0%nat []) as [H1 H2].
  cbn zeta in H1, H2. rewrite Hout in H1, H2. simpl in H1, H2. subst. split; [done|].
  apply mapM_Forall2 in Hs. apply Forall2_fmap_r.
  eapply Forall2_impl; [exact Hs|]. cbv beta. intros idx receipt Hidx.
  destruct idx as [i|]; [|done]. cbn [mbind option_bind] in Hidx.
  destruct (Z.ltb_spec i 0); [done|].
  destruct (receipts !! Z.to_nat i) as [r|] eqn:Hr; [|done].
  injection Hidx as ->. exists i, receipt. done.
Qed.

Lemma length_filter_lt {A} (P : A → Prop) `{∀ x, Decision (P x)} (l : list A) x :
  x ∈ l → ¬ P x → (length (filter P l) < length l)%nat.
Proof.
  intros Hx Hnot. induction l as [|y l IH]; [by apply elem_of_nil in Hx|].
  rewrite filter_cons. apply elem_of_cons in Hx as [<-|Hx].
  - rewrite decide_False by done. pose proof (length_filter P l). simpl. lia.
  - specialize (IH Hx). destruct (decide (P y)); simpl; lia.
Qed.

Lemma analysis_sample provider receipts expected a :
  analyzeBlockTPS provider receipts expected = Ok (Some a) →
  sampleVerification provider expected receipts
    = Ok (sampleVerified a, sampleResults a).
Proof.
  unfold analyzeBlockTPS. case_bool_decide; [done|].
  destruct (mapM (getBlock provider) _) as [fetched|]; [|done].
  cbn [mbind Result_bind].
  destruct (mapM _ fetched) as [blocks|]; [|done].
  cbn [mbind Result_bind].
  destruct (countIncluded _ _ blocks) as [[v s] t].
  destruct (sampleVerification _ _ _) as [[sv sr]|]; [|done].
  cbn [mbind Result_bind]. by intros [= <-].
Qed.

End sample.

(** The mixed driver fetches no transaction: the two sample fields of its
    analysis are one and the same bound on the hashes found in the blocks. *)
Lemma mixed_sample_fields getBlock receipts metas a :
  TpsTestMixed.analyzeBlockTPS getBlock receipts metas = Ok (Some a) →
  TpsTestMixed.sampleVerified a = TpsTestMixed.sampleSize a ∧
  TpsTestMixed.sampleSize a
    = Nat.min 10 (TpsTestMixed.verifiedTxCount (TpsTestMixed.tally a)).
Proof.
  unfold TpsTestMixed.analyzeBlockTPS. case_bool_decide; [done|].
  destruct (mapM getBlock _) as [blocks|]; [|done].
  cbn [mbind Result_bind]. case_bool_decide; [done|].
  by intros [= <-].
Qed.

Lemma single_sample provider receipts expected a :
  TpsTest.analyzeBlockTPS provider receipts expected = Ok (Some a) →
  receipts ≠ [] ∧
  TpsTest.sampleSize a = Z.min 10 (Z.of_nat (length receipts)) ∧
  length (TpsTest.sampleResults a) = Z.to_nat (TpsTest.sampleSize a) ∧
  TpsTest.sampleVerified a = length (filter isSampleOk (TpsTest.sampleResults a)) ∧
  Forall2 (checksReceiptAt provider expected receipts)
    (TpsTest.sampleIndices (Z.of_nat (length receipts))) (TpsTest.sampleResults a) ∧
  ((length receipts ≤ 10)%nat →
   TpsTest.sampleResults a = TpsTest.sampleCheck provider expected <$> receipts).
Proof.
  intros Ha.
  assert (receipts ≠ []) as Hne.
  { intros ->. by vm_compute in Ha. }
  assert (TpsTest.sampleSize a = Z.min 10 (Z.of_nat (length receipts))) as Hsize.
  { revert Ha. unfold TpsTest.analyzeBlockTPS. case_bool_decide; [done|].
    destruct (mapM (TpsTest.getBlock provider) _) as [fetched|]; [|done].
    cbn [mbind Result_bind].
    destruct (mapM _ fetched) as [blocks|]; [|done].
    cbn [mbind Result_bind].
    destruct (TpsTest.countIncluded _ _ blocks) as [[v s] t].
    destruct (TpsTest.sampleVerification _ _ _) as [[sv sr]|]; [|done].
    cbn [mbind Result_bind]. by intros [= <-]. }
  apply analysis_sample, sampleVerification_counts in Ha as [Hcount Hlines].
  split; [done|]. split; [done|].
  split; [by rewrite <-(Forall2_length _ _ _ Hlines), length_sampleIndices, Hsize|].
  split; [done|]. split; [done|].
  intros Hsmall. rewrite sampleIndices_small in Hlines by lia.
  apply list_eq. intros k. rewrite list_lookup_fmap.
  destruct (receipts !! k) as [r|] eqn:Hr; cbn [fmap option_fmap option_map].
  - assert ((Some <$> seqZ 0 (Z.of_nat (length receipts))) !! k
            = Some (Some (Z.of_nat k))) as Hk.
    { rewrite list_lookup_fmap, lookup_seqZ_lt; [done|].
      apply lookup_lt_Some in Hr. lia. }
    destruct (Forall2_lookup_l _ _ _ _ _ Hlines Hk)
      as (line & -> & i & r' & [= <-] & _ & Hr' & ->).
    rewrite Nat2Z.id, Hr in Hr'. by injection Hr' as <-.
  - apply lookup_ge_None. apply lookup_ge_None in Hr.
    rewrite <-(Forall2_length _ _ _ Hlines), length_fmap, length_seqZ. lia.
Qed.

(** C6 (as amended).  In the sample check of the single-type driver a
    transaction that was fetched with its receipt, whose sender is one of the
    senders and whose recipient is not the expected one, is recorded as failed
    with the reason [to], whatever its value and its status.  A line of the
    sample is a failure exactly in the cases of [failsWith], with the reason
    given there: the message of the error a request threw, [not found], or the
    first of from, to, value, status and block that does not match; it is a
    pass exactly when both were fetched and all five match.  The sample has
    one line for each of the min(10, number of receipts) sample positions, in
    order, and the line is the check of the receipt at that position; up to
    ten receipts every receipt is checked; the number of verified samples
    counts the passes only, so a sampled receipt with a wrong recipient has a
    line with the reason [to] and keeps that number below the sample size.
    The mixed driver checks no sample: it fetches blocks only and reports the
    same number, min(10, hashes found in the blocks), as verified and as
    sample size. *)
Theorem sample_mismatch_is_named :
  (∀ provider expected receipt tx txReceipt,
     TpsTest.getTransaction provider (r_hash receipt) = Ok (Some tx) →
     TpsTest.getReceipt provider (r_hash receipt) = Ok (Some txReceipt) →
     JS.toLowerCase (from tx) ∈ TpsTest.senderAddresses expected →
     JS.toLowerCase <$> tx_to tx ≠ Some (TpsTest.recipient expected) →
     TpsTest.sampleCheck provider expected receipt
       = TpsTest.SampleFailed (TpsTest.shortHash (r_hash receipt)) "to") ∧
  (∀ provider expected receipt h reason,
     TpsTest.sampleCheck provider expected receipt = TpsTest.SampleFailed h reason ↔
     h = TpsTest.shortHash (r_hash receipt) ∧
     failsWith provider expected receipt reason) ∧
  (∀ provider expected receipt h f t v b,
     TpsTest.sampleCheck provider expected receipt = TpsTest.SampleOk h f t v b ↔
     ∃ tx txReceipt,
       passesWith provider expected receipt tx txReceipt ∧
       h = TpsTest.shortHash (r_hash receipt) ∧
       f = String.append (String.substring 0 10 (from tx)) "..." ∧
       t = String.append (String.substring 0 10 (default "" (tx_to tx))) "..." ∧
       v = tx_value tx ∧ b = blockNumber txReceipt) ∧
  (∀ provider receipts expected a,
     TpsTest.analyzeBlockTPS provider receipts expected = Ok (Some a) →
     receipts ≠ [] ∧
     TpsTest.sampleSize a = Z.min 10 (Z.of_nat (length receipts)) ∧
     length (TpsTest.sampleResults a) = Z.to_nat (TpsTest.sampleSize a) ∧
     TpsTest.sampleVerified a
     = length (filter isSampleOk (TpsTest.sampleResults a)) ∧
     Forall2 (checksReceiptAt provider expected receipts)
       (TpsTest.sampleIndices (Z.of_nat (length receipts)))
       (TpsTest.sampleResults a) ∧
     ((length receipts ≤ 10)%nat →
      TpsTest.sampleResults a = TpsTest.sampleCheck provider expected <$> receipts)) ∧
  (∀ provider receipts expected a i receipt tx txReceipt,
     TpsTest.analyzeBlockTPS provider receipts expected = Ok (Some a) →
     Some i ∈ TpsTest.sampleIndices (Z.of_nat (length receipts)) →
     receipts !! Z.to_nat i = Some receipt →
     TpsTest.getTransaction provider (r_hash receipt) = Ok (Some tx) →
     TpsTest.getReceipt provider (r_hash receipt) = Ok (Some txReceipt) →
     JS.toLowerCase (from tx) ∈ TpsTest.senderAddresses expected →
     JS.toLowerCase <$> tx_to tx ≠ Some (TpsTest.recipient expected) →
     TpsTest.SampleFailed (TpsTest.shortHash (r_hash receipt)) "to"
       ∈ TpsTest.sampleResults a ∧
     (Z.of_nat (TpsTest.sampleVerified a) < TpsTest.sampleSize a)) ∧
  (∀ getBlock receipts metas a,
     TpsTestMixed.analyzeBlockTPS getBlock receipts metas = Ok (Some a) →
     TpsTestMixed.sampleVerified a = TpsTestMixed.sampleSize a ∧
     TpsTestMixed.sampleSize a
     = Nat.min 10 (TpsTestMixed.verifiedTxCount (TpsTestMixed.tally a)) ∧
     Forall (λ request, ∃ n, request = GetBlock n false) (TpsTestMixed.requests a)).
Proof.
  split_and!.
  - intros. by eapply sampleCheck_to_mismatch.
  - apply sampleCheck_failed.
  - apply sampleCheck_passed.
  - apply single_sample.
  - intros provider receipts expected a i receipt tx txReceipt Ha Hi Hr Htx Hrc Hfrom Hto.
    destruct (single_sample _ _ _ _ Ha) as (_ & _ & Hlen & Hcount & Hlines & _).
    apply list_elem_of_lookup in Hi as [k Hk].
    destruct (Forall2_lookup_l _ _ _ _ _ Hlines Hk)
      as (line & Hline & i' & r' & [= <-] & _ & Hr' & ->).
    rewrite Hr in Hr'. injection Hr' as <-.
    rewrite (sampleCheck_to_mismatch _ _ _ _ _ Htx Hrc Hfrom Hto) in Hline.
    apply list_elem_of_lookup_2 in Hline. split; [done|].
    pose proof (length_filter_lt (λ r, isSampleOk r) _ _ Hline) as Hlt.
    rewrite Hcount. cbn in Hlt. specialize (Hlt ltac:(auto)). lia.
  - intros getBlock receipts metas a Ha.
    split; [by eapply mixed_sample_fields|]. split; [by eapply mixed_sample_fields|].
    revert Ha. unfold TpsTestMixed.analyzeBlockTPS. case_bool_decide; [done|].
    destruct (mapM getBlock _) as [blocks|]; [|done].
    cbn [mbind Result_bind]. case_bool_decide; [done|].
    intros [= <-]. cbn [TpsTestMixed.requests].
    apply Forall_fmap, Forall_forall. intros n _. by exists n.
Qed.

Lemma sample_mismatch_is_named_witness :
  TpsTest.sampleCheck (Demo.provider "0xBAD") Demo.expected
    {| r_hash := "0x01"; blockNumber := 5; status := 1; gasUsed := 21000 |}
  = TpsTest.SampleFailed "0x01..." "to".
Proof.
  refine (proj1 sample_mismatch_is_named (Demo.provider "0xBAD") Demo.expected
            {| r_hash := "0x01"; blockNumber := 5; status := 1; gasUsed := 21000 |}
            _ _ eq_refl eq_refl _ _).
  - vm_compute. reflexivity.
  - discriminate.
Defined.

(** One chain, on which both transfers went to another recipient than the
    expected one.  The single-type driver fetches both transactions, records
    both with the reason [to] and verifies none.  The mixed driver requests
    the blocks 5 to 7 and nothing else, and reports two of two samples as
    verified. *)
Lemma mixed_driver_reports_unchecked_sample :
  (∃ a,
     TpsTest.analyzeBlockTPS (Demo.provider "0xBAD") Demo.twoReceipts Demo.expected
       = Ok (Some a) ∧
     TpsTest.verifiedTxCount a = 2%nat ∧
     TpsTest.sampleVerified a = 0%nat ∧
     TpsTest.sampleSize a = 2 ∧
     TpsTest.sampleResults a
       = [TpsTest.SampleFailed "0x01..." "to"; TpsTest.SampleFailed "0x02..." "to"]) ∧
  (∃ a,
     TpsTestMixed.analyzeBlockTPS (TpsTest.getBlock (Demo.provider "0xBAD"))
       Demo.twoReceipts Demo.twoHashes = Ok (Some a) ∧
     TpsTestMixed.verifiedTxCount (TpsTestMixed.tally a) = 2%nat ∧
     TpsTestMixed.sampleVerified a = 2%nat ∧
     TpsTestMixed.sampleSize a = 2%nat ∧
     TpsTestMixed.requests a
       = [GetBlock 5 false; GetBlock 6 false; GetBlock 7 false]).
Proof.
  split; (eexists; split; [vm_compute; reflexivity|]); vm_compute; done.
Qed.


(** * The exit code of a run *)

Ltac decompose_run H :=
  repeat match type of H with
         | ∃ _, _ => let x := fresh in destruct H as [x H]
         end;
  repeat match type of H with
         | _ ∧ _ => let H' := fresh "Hc" in destruct H as [H' H]
         end.

(** A run that exits with code 1: it did not run to completion. *)
Ltac not_completed :=
  split;
  [ split; [done|];
    let H := fresh "Hrun" in
    intros H; decompose_run H; simplify_eq; congruence || lia
  | auto ].

Lemma main_single_exit config p :
  (exitCode (TpsTest.main config p) = 0 ↔ runsToCompletionSingle config p) ∧
  (exitCode (TpsTest.main config p) = 0 ∨ exitCode (TpsTest.main config p) = 1).
Proof.
  unfold TpsTest.main, runsToCompletionSingle.
  destruct (TpsTest.connect p) as [[]|e] eqn:Hc; cbn [exitCode]; [|not_completed].
  destruct (TpsTest.funderBalance p) as [balance|] eqn:Hb;
    cbn [mbind Result_bind exitCode]; [|not_completed].
  destruct (Z.ltb_spec balance (TpsTest.requiredBalance p)); cbn [exitCode];
    [not_completed|].
  destruct (TpsTest.getNetwork p) as [chainId|] eqn:Hn;
    cbn [mbind Result_bind exitCode]; [|not_completed].
  destruct (TpsTest.createAndFundSenders p) as [senders|] eqn:Hs;
    cbn [mbind Result_bind exitCode]; [|not_completed].
  case_bool_decide as Hsenders; cbn [exitCode]; [not_completed|].
  destruct (TpsTest.prepareAndSignTransactions _ _ _ _ _) as [[signedTxs expected]|] eqn:Hp;
    cbn [mbind Result_bind exitCode]; [|not_completed].
  case_bool_decide as Hsigned; cbn [exitCode]; [not_completed|].
  destruct (TpsTest.broadcast p signedTxs) as [[txHashes failed]|] eqn:Hbr;
    cbn [mbind Result_bind exitCode]; [|not_completed].
  case_bool_decide as Hhashes; cbn [exitCode]; [not_completed|].
  destruct (TpsTest.confirm p txHashes) as [receipts|] eqn:Hcf;
    cbn [mbind Result_bind exitCode]; [|not_completed].
  destruct (TpsTest.analyze p receipts expected) as [analysis|] eqn:Ha;
    cbn [mbind Result_bind exitCode]; [|not_completed].
  destruct (TpsTest.generateReport p) as [[]|] eqn:Hr;
    cbn [mbind Result_bind exitCode]; [|not_completed].
  split; [|auto]. split; [|done]. intros _.
  exists balance, chainId, senders, signedTxs, expected, txHashes, failed, receipts, analysis.
  repeat split; try done.
Qed.

Lemma main_mixed_exit config p :
  (exitCode (TpsTestMixed.main config p) = 0 ↔ runsToCompletionMixed config p) ∧
  (exitCode (TpsTestMixed.main config p) = 0 ∨ exitCode (TpsTestMixed.main config p) = 1).
Proof.
  unfold TpsTestMixed.main, runsToCompletionMixed.
  destruct (TpsTestMixed.connect p) as [[]|e] eqn:Hc; cbn [exitCode]; [|not_completed].
  destruct (TpsTestMixed.funderBalance p) as [balance|] eqn:Hb;
    cbn [mbind Result_bind exitCode]; [|not_completed].
  destruct (TpsTestMixed.getNetwork p) as [chainId|] eqn:Hn;
    cbn [mbind Result_bind exitCode]; [|not_completed].
  destruct (TpsTestMixed.setupContracts p) as [contracts|] eqn:Hk;
    cbn [mbind Result_bind exitCode]; [|not_completed].
  destruct (TpsTestMixed.createAndFundSenders p) as [senders|] eqn:Hs;
    cbn [mbind Result_bind exitCode]; [|not_completed].
  case_bool_decide as Hsenders; cbn [exitCode]; [not_completed|].
  destruct (TpsTestMixed.prepareAndSignTransactions _ _ _ _ _ _)
    as [[signedTxs expected]|] eqn:Hp;
    cbn [mbind Result_bind exitCode]; [|not_completed].
  case_bool_decide as Hsigned; cbn [exitCode]; [not_completed|].
  destruct (TpsTestMixed.broadcast p signedTxs) as [[txHashes failed]|] eqn:Hbr;
    cbn [mbind Result_bind exitCode]; [|not_completed].
  case_bool_decide as Hhashes; cbn [exitCode]; [not_completed|].
  destruct (TpsTestMixed.confirm p txHashes) as [receipts|] eqn:Hcf;
    cbn [mbind Result_bind exitCode]; [|not_completed].
  destruct (TpsTestMixed.analyze p receipts txHashes) as [analysis|] eqn:Ha;
    cbn [mbind Result_bind exitCode]; [|not_completed].
  destruct (TpsTestMixed.generateReport p) as [[]|] eqn:Hr;
    cbn [mbind Result_bind exitCode]; [|not_completed].
  split; [|auto]. split; [|done]. intros _.
  exists balance, chainId, contracts, senders, signedTxs, expected, txHashes, failed,
    receipts, analysis.
  repeat split; try done.
Qed.

(** C3 (as the code has it).  A run of either driver ends with exit code 0 or
    1.  It ends with 0 exactly when every awaited phase returned, the list of
    senders was not empty, at least one transaction was signed and at least
    one broadcast was accepted (and, for the single-type driver, the funder's
    balance covers the funding).  So a run is fatal also when no broadcast is
    accepted, when the funder cannot pay and when a phase throws; the number
    of failed broadcasts, a list of receipts that is short or empty and an
    analysis that is missing do not change the exit code. *)
Theorem main_exit_codes :
  (∀ config p,
     (exitCode (TpsTest.main config p) = 0 ↔ runsToCompletionSingle config p) ∧
     (exitCode (TpsTest.main config p) = 0 ∨ exitCode (TpsTest.main config p) = 1)) ∧
  (∀ config p,
     (exitCode (TpsTestMixed.main config p) = 0 ↔ runsToCompletionMixed config p) ∧
     (exitCode (TpsTestMixed.main config p) = 0
      ∨ exitCode (TpsTestMixed.main config p) = 1)).
Proof. split; [apply main_single_exit | apply main_mixed_exit]. Qed.

(** A run of the mixed driver with two of three broadcasts failed, no receipt
    in time and no analysis ends with exit code 0. *)
Lemma main_exit_codes_witness :
  exitCode (TpsTestMixed.main (Demo.mixedConfig 3) Demo.degraded) = 0.
Proof.
  apply (proj2 (proj1 (proj2 main_exit_codes (Demo.mixedConfig 3) Demo.degraded))).
  unfold runsToCompletionMixed.
  eexists 1000, 412346, Demo.noContracts, (take 4 Demo.senders), _, _,
    (take 1 Demo.twoHashes), 2%nat, [], None.
  split; [reflexivity|]. split; [reflexivity|]. split; [reflexivity|].
  split; [reflexivity|]. split; [reflexivity|]. split; [discriminate|].
  split; [vm_compute; reflexivity|]. split; [discriminate|].
  split; [reflexivity|]. split; [discriminate|].
  split; [reflexivity|]. split; reflexivity.
Defined.

(** A run of the single-type driver in which the endpoint answers, ten
    senders are funded and three transactions are signed, and the endpoint
    then refuses every broadcast: the pool ends with no hash and three
    failures, and the exit code is 1. *)
Lemma main_exits_when_no_broadcast_succeeds :
  ∃ signedTxs expected final,
    TpsTest.connect Demo.allRefused = Ok tt ∧
    TpsTest.createAndFundSenders Demo.allRefused = Ok Demo.senders ∧
    TpsTest.prepareAndSignTransactions Demo.senders (Demo.singleConfig 3) 412346
      Demo.env (TpsTest.signTransaction Demo.allRefused) = Ok (signedTxs, expected) ∧
    length signedTxs = 3%nat ∧
    final = Broadcaster.runSchedule signedTxs TpsTest.bookFailure Demo.refusals
              (Broadcaster.init (TpsTest.concurrentRequests (Demo.singleConfig 3))) ∧
    Broadcaster.allFinished final = true ∧
    Broadcaster.txHashes final = [] ∧
    Broadcaster.errorCount (Broadcaster.errors final) = 3%nat ∧
    TpsTest.broadcast Demo.allRefused signedTxs
      = Ok (Broadcaster.txHashes final, Broadcaster.errorCount (Broadcaster.errors final)) ∧
    exitCode (TpsTest.main (Demo.singleConfig 3) Demo.allRefused) = 1.
Proof.
  eexists _, _, _. split; [reflexivity|]. split; [reflexivity|].
  split; [vm_compute; reflexivity|]. split; [reflexivity|].
  split; [vm_compute; reflexivity|]. split; [reflexivity|].
  split; [reflexivity|]. split; [reflexivity|]. split; [reflexivity|].
  vm_compute. reflexivity.
Qed.

(** The funder of the single-type driver cannot pay: exit code 1, before any
    sender exists. *)
Example main_exits_when_funder_is_short :
  exitCode (TpsTest.main (Demo.singleConfig 3)
              {| TpsTest.connect := Ok tt;
                 TpsTest.funderBalance := Ok 99;
                 TpsTest.requiredBalance := 100;
                 TpsTest.getNetwork := Ok 412346;
                 TpsTest.createAndFundSenders := Ok Demo.senders;
                 TpsTest.genEnv := Demo.env;
                 TpsTest.signTransaction := fun _ _ => Some "0x02f8";
                 TpsTest.broadcast := fun _ => Ok (Demo.twoHashes, 0%nat);
                 TpsTest.confirm := fun _ => Ok Demo.twoReceipts;
                 TpsTest.analyze := fun _ _ => Ok None;
                 TpsTest.generateReport := Ok tt |}) = 1.
Proof. reflexivity. Qed.

(** * More of the payload generator *)

(** ** Positions, senders and shares *)

Lemma filter_by_position {A} (P : A → Prop) (Q : nat → Prop)
    `{∀ x, Decision (P x)} `{∀ i, Decision (Q i)} (l : list A) : ∀ k,
  (∀ i x, l !! i = Some x → P x ↔ Q (k + i)%nat) →
  length (filter P l) = length (filter Q (seq k (length l))).
Proof.
  induction l as [|x l IH]; intros k Hl; [done|].
  cbn [length seq]. rewrite !filter_cons.
  assert (length (filter P l) = length (filter Q (seq (S k) (length l)))) as IH'.
  { apply IH. intros i y Hi. rewrite (Hl (S i) y Hi). by rewrite Nat.add_succ_r. }
  pose proof (Hl 0%nat x eq_refl) as Hx. rewrite Nat.add_0_r in Hx.
  destruct (decide (P x)), (decide (Q k)); simpl; rewrite ?IH'; tauto || done.
Qed.

(** Of the numbers below [N], those with residue [j] modulo [n]. *)
Lemma count_residue (n j N : nat) :
  (j < n)%nat →
  length (filter (λ i, i mod n = j)%nat (seq 0 N))
  = (N / n + (if decide (j < N mod n)%nat then 1 else 0))%nat.
Proof.
  intros Hj. induction N as [|N IH].
  { simpl. rewrite Nat.Div0.div_0_l, Nat.Div0.mod_0_l. by rewrite decide_False by lia. }
  rewrite seq_S, filter_app, length_app, IH. cbn [Nat.add].
  rewrite filter_cons, filter_nil.
  pose proof (Nat.div_mod_eq N n) as HN.
  pose proof (Nat.mod_upper_bound N n) as Hr.
  destruct (decide (S (N mod n) < n)%nat) as [Hlt|Hge].
  - rewrite <-(Nat.div_unique (S N) n (N / n) (S (N mod n))) by lia.
    rewrite <-(Nat.mod_unique (S N) n (N / n) (S (N mod n))) by lia.
    repeat case_decide; simpl; lia.
  - rewrite <-(Nat.div_unique (S N) n (S (N / n)) 0) by lia.
    rewrite <-(Nat.mod_unique (S N) n (S (N / n)) 0) by lia.
    repeat case_decide; simpl; lia.
Qed.

Section payload_positions.
Import PayloadGenerator.
Context (senders : list Sender) (env : GenEnv) (gasParams : GasParams)
  (chainId : Z) (config : Config) (contracts : Contracts).

Local Abbreviation loop := (buildLoop senders env gasParams chainId config contracts).

(** The descriptor at position [k] of the loop's output. *)
Lemma buildLoop_positions assignments : ∀ i m out k u,
  loop i assignments m = Ok out → out !! k = Some u →
  index u = Z.of_nat (i + k) ∧
  senders !! ((i + k) mod length senders)%nat = Some (sender u) ∧
  assignments !! k = Some (txType u) ∧
  tx u = buildTx env gasParams chainId config contracts (txType u) (sender u)
           (nonce (tx u)).
Proof.
  induction assignments as [|ty rest IH]; intros i m out k u; simpl.
  - intros [= <-]. done.
  - destruct (senders !! _) as [s|] eqn:Hs; [|done].
    destruct (m !! address s) as [n|] eqn:Hn; [|done].
    destruct (loop (S i) rest _) as [more|] eqn:Hmore; [|done].
    intros [= <-]. destruct k as [|k]; simpl.
    + intros [= <-]. simpl. rewrite Nat.add_0_r. split; [done|]. split; [done|].
      split; [done|]. by destruct ty.
    + intros Hk. destruct (IH _ _ _ _ _ Hmore Hk) as (H1 & H2 & H3 & H4).
      rewrite Nat.add_succ_r. done.
Qed.


End payload_positions.

Section payload_facts.
Import PayloadGenerator.

Lemma generatePayload_loop senders env chainId config contracts payload :
  generatePayload senders env chainId config contracts = Ok payload →
  let m := default defaultMix (txMix config) in
  ∃ gasParams assignments,
    deriveGasParams (feeData env) (multiplier env) = Ok gasParams ∧
    txAssignments (ethCount (txCount config) m) (tokenCount (txCount config) m)
      (swapCount (txCount config) m) = Some assignments ∧
    buildLoop senders env gasParams chainId config contracts 0 assignments
      (initialNonces senders ((fun s => getNonce env (address s)) <$> senders))
      = Ok (unsignedTxs payload) ∧
    (tokenCount (txCount config) m >? 0) && negb (JS.truthy (token contracts)) = false ∧
    (swapCount (txCount config) m >? 0) &&
      (negb (JS.truthy (router contracts)) || negb (JS.truthy (weth contracts))
       || negb (JS.truthy (token contracts))) = false.
Proof.
  unfold generatePayload. intros H. cbn zeta.
  destruct (_ && negb (JS.truthy (token contracts))) eqn:Htoken; [done|].
  destruct (_ && (_ || _ || _)) eqn:Hswap; [done|].
  destruct (deriveGasParams _ _) as [gp|]; [|done]. cbn [mbind Result_bind] in H.
  destruct (txAssignments _ _ _) as [assignments|]; [|done].
  destruct (buildLoop _ _ _ _ _ _ _ _ _) as [txs|] eqn:Hloop; [|done].
  cbn [mbind Result_bind] in H. injection H as <-. cbn [unsignedTxs].
  exists gp, assignments. done.
Qed.

(** X1.  The generator deals the descriptors out in turn: the descriptor at
    position [i] carries the index [i] and belongs to the sender at position
    [i mod n] of the [n] senders.  So, the senders being distinct accounts,
    the sender at position [j] gets [N / n] of the [N] descriptors, and one
    more if [j < N mod n]. *)
Theorem generatePayload_round_robin senders env chainId config contracts payload :
  generatePayload senders env chainId config contracts = Ok payload →
  (∀ i u, unsignedTxs payload !! i = Some u →
     index u = Z.of_nat i ∧
     senders !! (i mod length senders)%nat = Some (sender u)) ∧
  (NoDup senders → ∀ j s, senders !! j = Some s →
     length (filter (λ u, sender u = s) (unsignedTxs payload))
     = (length (unsignedTxs payload) / length senders
        + (if decide (j < length (unsignedTxs payload) mod length senders)%nat
           then 1 else 0))%nat).
Proof.
  intros (gp & assignments & _ & _ & Hloop & _)%generatePayload_loop.
  assert (∀ i u, unsignedTxs payload !! i = Some u →
            index u = Z.of_nat i ∧
            senders !! (i mod length senders)%nat = Some (sender u)) as Hpos.
  { intros i u Hi.
    destruct (buildLoop_positions _ _ _ _ _ _ _ _ _ _ _ _ Hloop Hi) as (H1 & H2 & _).
    done. }
  split; [exact Hpos|]. intros Hnd j s Hj.
  rewrite <-count_residue by (by eapply lookup_lt_Some).
  apply filter_by_position. intros i u Hi. rewrite Nat.add_0_l.
  destruct (Hpos i u Hi) as [_ Hs]. split.
  - intros <-. by eapply NoDup_lookup.
  - intros Hm. rewrite Hm in Hs. congruence.
Qed.

Lemma generatePayload_round_robin_witness :
  ∃ payload,
    generatePayload (take 3 Demo.senders) Demo.env 412346 (Demo.config 7 100 0 0)
      Demo.noContracts = Ok payload ∧
    length (filter (λ u, sender u = {| address := "0xA0" |}) (unsignedTxs payload))
      = 3%nat ∧
    length (filter (λ u, sender u = {| address := "0xA2" |}) (unsignedTxs payload))
      = 2%nat.
Proof.
  destruct (generatePayload (take 3 Demo.senders) Demo.env 412346
              (Demo.config 7 100 0 0) Demo.noContracts) as [payload|e] eqn:E;
    [|vm_compute in E; discriminate].
  exists payload. split; [reflexivity|].
  destruct (generatePayload_round_robin _ _ _ _ _ _ E) as [_ Hshare].
  assert (NoDup (take 3 Demo.senders)) as Hnd.
  { refine (bool_decide_unpack _ _). vm_compute. exact I. }
  assert (length (unsignedTxs payload) = 7%nat) as Hlen.
  { vm_compute in E. injection E as <-. reflexivity. }
  rewrite (Hshare Hnd 0%nat _ eq_refl), (Hshare Hnd 2%nat _ eq_refl), Hlen.
  split; reflexivity.
Defined.




End payload_facts.

(** ** Signing *)

(** Signing in batches is signing in order: a batch boundary is not visible
    in the result. *)
Lemma signBatches_omap {D R} (sign : D → option R) : ∀ fuel (l : list D),
  (length l ≤ fuel)%nat → signBatches sign fuel l = omap sign l.
Proof.
  induction fuel as [|fuel IH]; intros l Hl.
  - destruct l; [done|simpl in Hl; lia].
  - destruct l as [|x l']; [done|]. set (l := x :: l') in *.
    change (signBatches sign (S fuel) l)
      with (omap sign (take 100 l) ++ signBatches sign fuel (drop 100 l)).
    rewrite IH.
    + by rewrite <-omap_app, take_drop.
    + rewrite length_drop. subst l. simpl in *. lia.
Qed.

(** X4.  The signed envelopes are the descriptors whose signature succeeded,
    in the order of the descriptors: each keeps its descriptor's index and
    type and names the lower-cased address of its sender.  Nothing is
    reordered or duplicated by the batches of 100, so with a signer that
    never fails there is one envelope per descriptor. *)
Theorem signTransactions_keeps_order
    (signTransaction : Sender → Tx → option string)
    (unsignedTxs : list PayloadGenerator.UnsignedTx) :
  let envelope (u : PayloadGenerator.UnsignedTx) :=
    s ← signTransaction (PayloadGenerator.sender u) (PayloadGenerator.tx u);
    Some {| Broadcaster.signedTx := s;
            Broadcaster.index := PayloadGenerator.index u;
            Broadcaster.expectedFrom :=
              JS.toLowerCase (address (PayloadGenerator.sender u));
            Broadcaster.txType := Some (PayloadGenerator.txType u) |} in
  let signed := TpsTestMixed.signTransactions signTransaction unsignedTxs in
  signed = omap envelope unsignedTxs ∧
  Broadcaster.index <$> signed `sublist_of` PayloadGenerator.index <$> unsignedTxs ∧
  (length signed ≤ length unsignedTxs)%nat ∧
  ((∀ u, u ∈ unsignedTxs →
      is_Some (signTransaction (PayloadGenerator.sender u) (PayloadGenerator.tx u))) →
   Broadcaster.index <$> signed = PayloadGenerator.index <$> unsignedTxs).
Proof.
  cbn zeta. unfold TpsTestMixed.signTransactions.
  rewrite signBatches_omap by done.
  split; [done|].
  induction unsignedTxs as [|u l (Hsub & Hlen & Hall)]; [done|].
  cbn [omap list_omap].
  destruct (signTransaction _ _) as [s|] eqn:Hs; cbn [mbind option_bind].
  - rewrite !fmap_cons. cbn [Broadcaster.index length]. split; [by constructor|].
    split; [lia|]. intros Hok. f_equal. apply Hall. intros v Hv. apply Hok. by right.
  - rewrite fmap_cons. cbn [length]. split; [by constructor|]. split; [lia|].
    intros Hok. destruct (Hok u) as [? Hu]; [by left|]. congruence.
Qed.

(** ** The generator of the single-type driver *)

Section prepare_totals.
Import TpsTest.
Context (config : Config) (chainId : Z) (env : GenEnv) (gasParams : GasParams).

Local Abbreviation inner := (senderTxs config chainId env gasParams).
Local Abbreviation outer := (allSenders config chainId env gasParams).

Lemma senderTxs_indices fuel : ∀ s k i n t,
  utx_index <$> inner fuel s k i n t = seqZ t (Z.of_nat (length (inner fuel s k i n t))).
Proof.
  induction fuel as [|fuel IH]; intros s k i n t; [done|]. simpl.
  destruct ((i <? k) && (t <? txCount config)); [|done].
  cbn [length fmap list_fmap]. rewrite seqZ_S. simpl. f_equal. apply IH.
Qed.

Lemma allSenders_indices txPerSender remaining : ∀ t,
  0 ≤ txPerSender → t ≤ txCount config →
  utx_index <$> outer txPerSender remaining t
    = seqZ t (Z.of_nat (length (outer txPerSender remaining t))) ∧
  Z.of_nat (length (outer txPerSender remaining t))
    = Z.min (txCount config - t) (txPerSender * Z.of_nat (length remaining)).
Proof.
  induction remaining as [|s remaining IH]; intros t Hk Ht.
  { simpl. split; [done|]. lia. }
  cbn [allSenders]. destruct (Z.ltb_spec t (txCount config)) as [Hlt|Hge].
  2:{ simpl. split; [done|]. cbn [length]. lia. }
  set (k := Z.min txPerSender (txCount config - t)).
  pose proof (senderTxs_length config chainId env gasParams (Z.to_nat k) s k 0
                (getNonce env (address s)) t ltac:(lia)) as Hlen.
  pose proof (senderTxs_indices (Z.to_nat k) s k 0 (getNonce env (address s)) t) as Hidx.
  set (txs := senderTxs config chainId env gasParams (Z.to_nat k) s k 0
                (getNonce env (address s)) t) in *.
  destruct (IH (t + Z.of_nat (length txs)) Hk ltac:(lia)) as [IH1 IH2].
  rewrite fmap_app, length_app, Hidx, IH1. split.
  - rewrite Nat2Z.inj_add, seqZ_app by lia. done.
  - rewrite Nat2Z.inj_add, IH2. cbn [length]. lia.
Qed.

End prepare_totals.

(** X5.  With at least one sender and a count that is not negative, the
    single-type driver prepares exactly the requested number of descriptors,
    with the indices 0, 1, 2, ... in order; without a sender it prepares
    none. *)
Theorem prepareTransactions_total senders config chainId env txs expected log :
  TpsTest.prepareTransactions senders config chainId env = Ok (txs, expected, log) →
  0 ≤ TpsTest.txCount config →
  (senders ≠ [] →
   Z.of_nat (length txs) = TpsTest.txCount config ∧
   TpsTest.utx_index <$> txs = seqZ 0 (TpsTest.txCount config)) ∧
  (senders = [] → txs = []).
Proof.
  unfold TpsTest.prepareTransactions. intros H Hcount.
  destruct (deriveGasParams _ _) as [gp|]; [|done]. cbn [mbind Result_bind] in H.
  injection H as <- _ _. split; [|by intros ->].
  intros Hne.
  assert (0 < Z.of_nat (length senders)) as Hn.
  { destruct senders; [done|simpl; lia]. }
  set (n := Z.of_nat (length senders)) in *.
  set (k := - (- TpsTest.txCount config / n)).
  assert (0 ≤ k ∧ TpsTest.txCount config ≤ k * n) as [Hk Hcover].
  { pose proof (Z.div_mod (- TpsTest.txCount config) n ltac:(lia)).
    pose proof (Z.mod_pos_bound (- TpsTest.txCount config) n Hn).
    subst k. split; nia. }
  destruct (allSenders_indices config chainId env gp k senders 0 Hk Hcount) as [Hi Hl].
  fold n in Hl. rewrite Hi, Hl. split; [lia|]. f_equal. lia.
Qed.

Lemma prepareTransactions_total_witness :
  ∃ txs expected log,
    TpsTest.prepareTransactions Demo.senders (Demo.singleConfig 25) 412346 Demo.env
      = Ok (txs, expected, log) ∧
    Z.of_nat (length txs) = 25.
Proof.
  destruct (TpsTest.prepareTransactions Demo.senders (Demo.singleConfig 25) 412346
              Demo.env) as [[[txs expected] log]|e] eqn:E;
    [|vm_compute in E; discriminate].
  exists txs, expected, log. split; [reflexivity|].
  destruct (prepareTransactions_total _ _ _ _ _ _ _ E) as [Hall _]; [simpl; lia|].
  destruct Hall as [Hlen _]; [discriminate|]. exact Hlen.
Defined.

(** * More of the broadcaster *)

Lemma omap_length_le {A B} (f : A → option B) (l : list A) :
  (length (omap f l) ≤ length l)%nat.
Proof.
  induction l as [|x l IH]; [done|]. cbn [omap list_omap].
  destruct (f x); cbn [length]; lia.
Qed.

Section pool_more.
Import Broadcaster Pool.
Context (signedTxs : list SignedTx) (concurrentRequests : Z).
Context (bookFailure : Failure → ErrorBook → ErrorBook).

Local Abbreviation reachable := (reachable signedTxs concurrentRequests bookFailure).

(** A property of the initial state that every step keeps holds of every
    reachable state. *)
Lemma reachable_ind (P : State → Prop) :
  P (init concurrentRequests) →
  (∀ st w reply st', P st → exec signedTxs bookFailure st w reply = Some st' → P st') →
  ∀ st, reachable st → P st.
Proof.
  intros Hinit Hstep. apply rtc_ind_r; [done|].
  intros st st' _ (w & reply & Hexec) Hst. eauto.
Qed.

(** What a step can do to the failures and to the error book: nothing, or
    book one failure. *)
Lemma exec_errors st w reply st' :
  exec signedTxs bookFailure st w reply = Some st' →
  (failures st' = failures st ∧ errors st' = errors st) ∨
  ∃ failure,
    failures st' = failures st ++ [failure] ∧
    errors st' = bookFailure failure (errors st).
Proof.
  unfold exec. destruct (workers st !! w) as [[|idx e|]|]; [| |done|done].
  - destruct (signedTxs !! _); intros [= <-]; by left.
  - intros [= <-]. unfold resume. destruct reply as [result msg|msg].
    + destruct (JS.truthy result); simpl; eauto.
    + simpl. eauto.
Qed.

Lemma reachable_errors (P : list Failure → ErrorBook → Prop) :
  P [] noErrors →
  (∀ failure booked book, P booked book →
                          P (booked ++ [failure]) (bookFailure failure book)) →
  ∀ st, reachable st → P (failures st) (errors st).
Proof.
  intros Hinit Hbook. apply (reachable_ind (λ st, P (failures st) (errors st))); [done|].
  intros st w reply st' Hst [[-> ->]|(f & -> & ->)]%exec_errors; auto.
Qed.


End pool_more.

(** X6.  At no moment of a run are more requests in flight than
    [concurrentRequests]; the requests in flight are for different
    envelopes, each claimed from the queue and not yet answered.  This
    holds for both drivers. *)
Theorem broadcast_in_flight_bound
    (signedTxs : list Broadcaster.SignedTx) (concurrentRequests : Z) :
  ∀ bookFailure,
    bookFailure = TpsTest.bookFailure ∨ bookFailure = TpsTestMixed.bookFailure →
    ∀ st, Broadcaster.reachable signedTxs concurrentRequests bookFailure st →
      (length (Pool.inflight st) ≤ Z.to_nat concurrentRequests)%nat ∧
      NoDup (Pool.inflight st) ∧
      Forall (λ idx, idx < Broadcaster.nextIndex st ∧ idx ∉ Broadcaster.handled st)%nat
        (Pool.inflight st) ∧
      (Broadcaster.nextIndex st ≤ length signedTxs)%nat.
Proof.
  intros bookFailure Hbook st Hst.
  pose proof (reachable_workers signedTxs concurrentRequests bookFailure st Hst) as Hlen.
  assert ((Broadcaster.nextIndex st ≤ length signedTxs)%nat ∧
          Broadcaster.handled st ++ Pool.inflight st
            ≡ₚ seq 0 (Broadcaster.nextIndex st)) as [Hnext Honce].
  { destruct Hbook as [->| ->].
    - by destruct (reachable_inv signedTxs concurrentRequests _ _
                     bookFailure_single_counts st Hst).
    - by destruct (reachable_inv signedTxs concurrentRequests _ _
                     bookFailure_mixed_counts st Hst). }
  assert (NoDup (Broadcaster.handled st ++ Pool.inflight st)) as Hnd.
  { rewrite Honce. apply NoDup_seq. }
  apply NoDup_app in Hnd as (_ & Hdisj & Hnd).
  split; [|split; [done|split; [|done]]].
  - rewrite <-Hlen. unfold Pool.inflight. apply omap_length_le.
  - apply Forall_forall. intros idx Hidx. split.
    + assert (idx ∈ seq 0 (Broadcaster.nextIndex st)) as Hin.
      { rewrite <-Honce. apply elem_of_app. by right. }
      apply elem_of_seq in Hin. lia.
    + intros Hh. by apply (Hdisj idx).
Qed.

Lemma broadcast_in_flight_bound_witness :
  (length (Pool.inflight
     (Broadcaster.runSchedule Demo.queue TpsTest.bookFailure (take 3 Demo.schedule)
        (Broadcaster.init 2))) ≤ 2)%nat.
Proof.
  exact (proj1 (broadcast_in_flight_bound Demo.queue 2 TpsTest.bookFailure
                  (or_introl eq_refl) _
                  (runSchedule_reachable Demo.queue 2 TpsTest.bookFailure
                     (take 3 Demo.schedule)))).
Defined.



(** X8.  With a concurrency of zero or less there is no worker: the run
    consists of its initial state, in which the pool counts as finished, and
    no envelope is sent, however many there are. *)
Theorem broadcast_without_workers
    (signedTxs : list Broadcaster.SignedTx) (concurrentRequests : Z)
    (bookFailure : Broadcaster.Failure → Broadcaster.ErrorBook → Broadcaster.ErrorBook)
    (st : Broadcaster.State) :
  concurrentRequests ≤ 0 →
  Broadcaster.reachable signedTxs concurrentRequests bookFailure st →
  st = Broadcaster.init concurrentRequests ∧
  Broadcaster.allFinished st = true ∧
  Broadcaster.txHashes st = [] ∧
  Broadcaster.successCount st = 0%nat ∧
  Broadcaster.errorCount (Broadcaster.errors st) = 0%nat.
Proof.
  intros Hc Hst.
  assert (Broadcaster.workers (Broadcaster.init concurrentRequests) = []) as Hw.
  { unfold Broadcaster.init. simpl. by rewrite Z2Nat.nonpos. }
  assert (st = Broadcaster.init concurrentRequests) as ->.
  { revert st Hst. apply reachable_ind; [done|].
    intros st w reply st' -> Hexec. unfold Broadcaster.exec in Hexec.
    rewrite Hw, lookup_nil in Hexec. done. }
  split; [done|]. unfold Broadcaster.allFinished. rewrite Hw. done.
Qed.

Lemma broadcast_without_workers_witness :
  Broadcaster.txHashes
    (Broadcaster.runSchedule Demo.queue TpsTest.bookFailure Demo.schedule
       (Broadcaster.init 0)) = [].
Proof.
  exact (proj1 (proj2 (proj2
    (broadcast_without_workers Demo.queue 0 TpsTest.bookFailure _ ltac:(done)
       (runSchedule_reachable Demo.queue 0 TpsTest.bookFailure Demo.schedule))))).
Defined.

(** ** The error book *)

Lemma bookTotal_bump (m : gmap string nat) (k : string) :
  bookTotal (<[k := (default 0 (m !! k) + 1)%nat]> m) = S (bookTotal m).
Proof.
  unfold bookTotal.
  assert (∀ (m' : gmap string nat) (j1 j2 : string) (z1 z2 y : nat),
            j1 ≠ j2 → m' !! j1 = Some z1 → m' !! j2 = Some z2 →
            (z1 + (z2 + y) = z2 + (z1 + y))%nat) as Hcomm by (intros; lia).
  destruct (m !! k) as [v|] eqn:Hk; simpl.
  - rewrite <-insert_delete_eq.
    rewrite map_fold_insert_L; [|by eauto|by rewrite lookup_delete_eq].
    rewrite (map_fold_delete_L _ _ k v m); [lia|by eauto|done].
  - rewrite map_fold_insert_L; [lia|by eauto|done].
Qed.

Lemma category_name_unknown c : category_name c = "unknown" → c = unknown.
Proof. by destruct c. Qed.

Lemma or_else_nonempty (message : option string) (d : string) :
  d ≠ "" → JS.or_else message d ≠ "".
Proof.
  intros Hd. unfold JS.or_else. destruct message as [s|]; [|done].
  destruct (String.eqb_spec s ""); done.
Qed.

Lemma categorizeError_single_known (s : string) :
  s ≠ "" → TpsTest.categorizeError (Some s) ≠ unknown.
Proof.
  intros Hs. unfold TpsTest.categorizeError, JS.truthy.
  destruct (String.eqb_spec s ""); [done|]. cbn [negb].
  repeat (match goal with |- context [if ?b then _ else _] => destruct b end; try done).
Qed.

Lemma substring_length_le (n : nat) : ∀ s : string,
  (String.length (String.substring 0 n s) ≤ n)%nat.
Proof.
  induction n as [|n IH]; intros [|c s]; simpl; try lia.
  specialize (IH s). lia.
Qed.

(** The message the single-type driver books for a failure. *)
Lemma bookFailure_single_message failure book :
  ∃ errorMsg first,
    errorMsg ≠ "" ∧
    TpsTest.bookFailure failure book
    = TpsTest.bookMessage errorMsg
        {| Broadcaster.firstError := first;
           Broadcaster.errorTypes := Broadcaster.errorTypes book;
           Broadcaster.errorExamples := Broadcaster.errorExamples book;
           Broadcaster.errorCount := Broadcaster.errorCount book |} ∧
    (JS.truthyValue (Broadcaster.firstError book) = true →
     first = Broadcaster.firstError book).
Proof.
  destruct book as [n first types examples].
  destruct failure as [[s|[|]]|message]; cbn [TpsTest.bookFailure].
  - exists (JS.or_else (Some s) "unknown error"), first.
    split; [by apply or_else_nonempty|]. done.
  - exists Broadcaster.notAFunction, (Broadcaster.keepFirstError first (JS.NotStr true)).
    split; [done|]. split; [done|]. cbn. unfold Broadcaster.keepFirstError.
    by intros ->.
  - exists "unknown error", first. done.
  - exists (JS.or_else message "unknown error"), first.
    split; [by apply or_else_nonempty|]. done.
Qed.

(** X9.  In every state of a run, in both drivers, the counts per category
    add up to the number of envelopes that failed, and an example is only
    kept for a category that has been counted.  In the single-type driver
    that sum is the failure count; in the mixed driver the failure count
    exceeds it by the number of error replies whose message is truthy and no
    string, each of which is counted twice and filed once. *)
Theorem broadcast_error_book
    (signedTxs : list Broadcaster.SignedTx) (concurrentRequests : Z) :
  (∀ bookFailure,
     bookFailure = TpsTest.bookFailure ∨ bookFailure = TpsTestMixed.bookFailure →
     ∀ st, Broadcaster.reachable signedTxs concurrentRequests bookFailure st →
       bookTotal (Broadcaster.errorTypes (Broadcaster.errors st))
         = length (Broadcaster.failures st) ∧
       ∀ category,
         is_Some (Broadcaster.errorExamples (Broadcaster.errors st) !! category) →
         is_Some (Broadcaster.errorTypes (Broadcaster.errors st) !! category)) ∧
  (∀ st, Broadcaster.reachable signedTxs concurrentRequests TpsTest.bookFailure st →
     Broadcaster.errorCount (Broadcaster.errors st)
     = bookTotal (Broadcaster.errorTypes (Broadcaster.errors st))) ∧
  (∀ st, Broadcaster.reachable signedTxs concurrentRequests TpsTestMixed.bookFailure st →
     Broadcaster.errorCount (Broadcaster.errors st)
     = (bookTotal (Broadcaster.errorTypes (Broadcaster.errors st))
        + length (Pool.oddMessages st))%nat).
Proof.
  assert (∀ bookFailure,
     bookFailure = TpsTest.bookFailure ∨ bookFailure = TpsTestMixed.bookFailure →
     ∀ st, Broadcaster.reachable signedTxs concurrentRequests bookFailure st →
       bookTotal (Broadcaster.errorTypes (Broadcaster.errors st))
         = length (Broadcaster.failures st) ∧
       ∀ category,
         is_Some (Broadcaster.errorExamples (Broadcaster.errors st) !! category) →
         is_Some (Broadcaster.errorTypes (Broadcaster.errors st) !! category)) as Hbooks.
  { intros bookFailure Hbook.
    apply (reachable_errors signedTxs concurrentRequests bookFailure
             (λ booked book,
                bookTotal (Broadcaster.errorTypes book) = length booked ∧
                ∀ category, is_Some (Broadcaster.errorExamples book !! category) →
                            is_Some (Broadcaster.errorTypes book !! category))).
    - split; [done|]. intros category. cbn. rewrite lookup_empty. by intros [? ?].
    - intros failure booked book [Htotal Hex]. rewrite length_app, Nat.add_1_r.
      assert (∀ c category,
        is_Some (Broadcaster.errorExamples book !! category) →
        is_Some (Broadcaster.countErrorType c (Broadcaster.errorTypes book) !! category))
        as Hkeep.
      { intros c category Hc. unfold Broadcaster.countErrorType.
        destruct (decide (category_name c = category)) as [->|Hne].
        - rewrite lookup_insert_eq. eauto.
        - rewrite lookup_insert_ne by done. by apply Hex. }
      assert (∀ c category example,
        is_Some (match Broadcaster.errorExamples book !! category_name c with
                 | Some _ => Broadcaster.errorExamples book
                 | None => <[category_name c := example]> (Broadcaster.errorExamples book)
                 end !! category) →
        is_Some (Broadcaster.countErrorType c (Broadcaster.errorTypes book) !! category))
        as Hnew.
      { intros c category example Hc. unfold Broadcaster.countErrorType.
        destruct (decide (category_name c = category)) as [->|Hne].
        - rewrite lookup_insert_eq. eauto.
        - rewrite lookup_insert_ne by done. apply Hex.
          destruct (Broadcaster.errorExamples book !! category_name c); [done|].
          by rewrite lookup_insert_ne in Hc. }
      destruct Hbook as [->| ->].
      + destruct failure as [[s|[|]]|message];
          cbn [TpsTest.bookFailure TpsTest.bookMessage Broadcaster.errorTypes
               Broadcaster.errorCount Broadcaster.errorExamples];
          unfold Broadcaster.countErrorType at 1; rewrite bookTotal_bump, Htotal;
          (split; [done|]); intros category; apply Hnew.
      + destruct failure as [[s|[|]]|message];
          cbn [TpsTestMixed.bookFailure TpsTestMixed.bookMessage TpsTestMixed.bookThrown
               Broadcaster.errorTypes Broadcaster.errorCount Broadcaster.errorExamples];
          unfold Broadcaster.countErrorType at 1; rewrite bookTotal_bump, Htotal;
          (split; [done|]); intros category;
          first [apply Hnew | apply Hkeep]. }
  split; [exact Hbooks|]. split.
  - intros st Hst.
    destruct (Hbooks _ (or_introl eq_refl) st Hst) as [-> _].
    destruct (reachable_inv signedTxs concurrentRequests _ _
                bookFailure_single_counts st Hst) as [_ _ _ _ -> _ _].
    rewrite sum_once. lia.
  - intros st Hst.
    destruct (Hbooks _ (or_intror eq_refl) st Hst) as [-> _].
    destruct (reachable_inv signedTxs concurrentRequests _ _
                bookFailure_mixed_counts st Hst) as [_ _ _ _ -> _ _].
    by rewrite sum_twiceIfOdd.
Qed.

Lemma broadcast_error_book_witness :
  bookTotal (Broadcaster.errorTypes (Broadcaster.errors
    (Broadcaster.runSchedule Demo.queue TpsTestMixed.bookFailure Demo.schedule
       (Broadcaster.init 2))))
  = length (Broadcaster.failures
      (Broadcaster.runSchedule Demo.queue TpsTestMixed.bookFailure Demo.schedule
         (Broadcaster.init 2))).
Proof.
  exact (proj1 (proj1 (broadcast_error_book Demo.queue 2) TpsTestMixed.bookFailure
                  (or_intror eq_refl) _
                  (runSchedule_reachable Demo.queue 2 TpsTestMixed.bookFailure
                     Demo.schedule))).
Defined.

(** X10.  The single-type driver never counts a failure under [unknown]: a
    failure without a message is booked with the text 'unknown error', which
    is classified [other].  In every state of its run each counted category
    has an example of at most 100 characters, and the first error is set as
    soon as one failure has been counted. *)
Theorem single_driver_books_no_unknown
    (signedTxs : list Broadcaster.SignedTx) (concurrentRequests : Z)
    (st : Broadcaster.State) :
  Broadcaster.reachable signedTxs concurrentRequests TpsTest.bookFailure st →
  Broadcaster.errorTypes (Broadcaster.errors st) !! category_name unknown = None ∧
  (∀ category,
     is_Some (Broadcaster.errorTypes (Broadcaster.errors st) !! category) →
     ∃ example,
       Broadcaster.errorExamples (Broadcaster.errors st) !! category = Some example ∧
       (String.length example ≤ 100)%nat) ∧
  ((0 < Broadcaster.errorCount (Broadcaster.errors st))%nat →
   JS.truthyValue (Broadcaster.firstError (Broadcaster.errors st)) = true) ∧
  TpsTest.categorizeError (Some (JS.or_else None "unknown error")) = other.
Proof.
  intros Hst. split_and!; [| | |done].
  - revert st Hst.
    apply (reachable_errors _ _ _
             (λ _ book, Broadcaster.errorTypes book !! category_name unknown = None));
      [done|].
    intros failure _ book Hbook.
    destruct (bookFailure_single_message failure book) as (msg & first & Hmsg & -> & _).
    cbn [TpsTest.bookMessage Broadcaster.errorTypes]. unfold Broadcaster.countErrorType.
    rewrite lookup_insert_ne; [done|].
    intros Heq%category_name_unknown.
    by eapply categorizeError_single_known.
  - assert ((∀ category,
               is_Some (Broadcaster.errorTypes (Broadcaster.errors st) !! category) →
               is_Some (Broadcaster.errorExamples (Broadcaster.errors st) !! category)) ∧
            (∀ category example,
               Broadcaster.errorExamples (Broadcaster.errors st) !! category = Some example →
               (String.length example ≤ 100)%nat)) as [Hhas Hshort].
    { revert st Hst.
      apply (reachable_errors _ _ _
               (λ _ book,
                  (∀ category, is_Some (Broadcaster.errorTypes book !! category) →
                               is_Some (Broadcaster.errorExamples book !! category)) ∧
                  (∀ category example,
                     Broadcaster.errorExamples book !! category = Some example →
                     (String.length example ≤ 100)%nat))).
      { split; intros category; cbn; rewrite lookup_empty; [by intros [? ?]|done]. }
      intros failure _ book [Hhas Hshort].
      destruct (bookFailure_single_message failure book) as (msg & first & Hmsg & -> & _).
      cbn [TpsTest.bookMessage Broadcaster.errorTypes Broadcaster.errorExamples].
      unfold Broadcaster.countErrorType.
      set (c := TpsTest.categorizeError _). split.
      - intros category.
        destruct (decide (category_name c = category)) as [<-|Hne].
        + intros _. destruct (Broadcaster.errorExamples book !! category_name c) eqn:Hex.
          * rewrite Hex. eauto.
          * rewrite lookup_insert_eq. eauto.
        + rewrite lookup_insert_ne by done. intros Hc%Hhas.
          destruct (Broadcaster.errorExamples book !! category_name c); [done|].
          by rewrite lookup_insert_ne.
      - intros category example.
        destruct (Broadcaster.errorExamples book !! category_name c) eqn:Hex;
          [apply Hshort|].
        destruct (decide (category_name c = category)) as [<-|Hne].
        + rewrite lookup_insert_eq. intros [= <-]. apply substring_length_le.
        + rewrite lookup_insert_ne by done. apply Hshort. }
    intros category [example Hex]%Hhas. eauto.
  - revert st Hst.
    apply (reachable_errors _ _ _
             (λ _ book, (0 < Broadcaster.errorCount book)%nat →
                        JS.truthyValue (Broadcaster.firstError book) = true)).
    { cbn. lia. }
    intros failure _ book Hbook _.
    destruct (bookFailure_single_message failure book) as (msg & first & Hmsg & -> & _).
    cbn [TpsTest.bookMessage Broadcaster.firstError]. unfold Broadcaster.keepFirstError.
    destruct (JS.truthyValue first) eqn:Hf; [done|].
    cbn. by apply negb_true_iff, String.eqb_neq.
Qed.

Lemma single_driver_books_no_unknown_witness :
  Broadcaster.errorTypes (Broadcaster.errors
    (Broadcaster.runSchedule Demo.queue TpsTest.bookFailure Demo.refusals
       (Broadcaster.init 2))) !! "unknown" = None.
Proof.
  exact (proj1 (single_driver_books_no_unknown Demo.queue 2 _
                  (runSchedule_reachable Demo.queue 2 TpsTest.bookFailure
                     Demo.refusals))).
Defined.

(** * More of the confirmation tracker *)

Section poll_invariant.
Context (pollRound : PollState → PollState) (startTime timeoutMs : Z).

(** What every pass keeps, the loop keeps. *)
Lemma pollLoop_invariant (I : PollState → Prop) :
  (∀ st, I st → I (pollRound st)) →
  ∀ fuel st st', pollLoop pollRound startTime timeoutMs fuel st = Some st' → I st → I st'.
Proof.
  intros Hround. induction fuel as [|fuel IH]; intros st st'; simpl;
    destruct (negb (bool_decide (pending st = [])) && (now st - startTime <? timeoutMs));
    try done; try (by intros [= <-]).
  intros Hloop Hst. eapply IH; [exact Hloop|]. by apply Hround.
Qed.

(** The loop makes at most [fuel] passes. *)
Lemma pollLoop_rounds :
  (∀ st, rounds (pollRound st) = S (rounds st)) →
  ∀ fuel st st', pollLoop pollRound startTime timeoutMs fuel st = Some st' →
    (rounds st ≤ rounds st' ≤ rounds st + fuel)%nat.
Proof.
  intros Hround. induction fuel as [|fuel IH]; intros st st'; simpl;
    destruct (negb (bool_decide (pending st = [])) && (now st - startTime <? timeoutMs));
    try done; try (intros [= <-]; lia).
  intros Hloop%IH. rewrite Hround in Hloop. lia.
Qed.

End poll_invariant.

(** X11.  The tracker returns at once, without a single lookup, when it is
    given no hash or a timeout that is not positive.  Otherwise the number
    of poll rounds is at most the timeout divided by the sleep between two
    rounds, plus one: 100 ms in the single-type driver, 500 ms in the mixed
    driver. *)
Theorem confirmations_round_bound
    (env : PollEnv) (txHashes : list Broadcaster.HashMeta) (startTime timeoutMs : Z) :
  (∀ final, TpsTest.waitForConfirmations env txHashes startTime timeoutMs = Some final →
     (rounds final ≤ Z.to_nat (timeoutMs / 100 + 1))%nat ∧
     (txHashes = [] ∨ timeoutMs ≤ 0 →
      rounds final = 0%nat ∧ receipts final = [] ∧ now final = startTime)) ∧
  (∀ final, TpsTestMixed.waitForConfirmations env txHashes startTime timeoutMs = Some final →
     (rounds final ≤ Z.to_nat (timeoutMs / 500 + 1))%nat ∧
     (txHashes = [] ∨ timeoutMs ≤ 0 →
      rounds final = 0%nat ∧ receipts final = [] ∧ now final = startTime)).
Proof.
  split; intros final Hfinal; split.
  - apply pollLoop_rounds in Hfinal; [simpl in Hfinal; lia|done].
  - intros Hedge. unfold TpsTest.waitForConfirmations in Hfinal.
    rewrite pollLoop_stops in Hfinal; [by injection Hfinal as <-|].
    simpl. destruct Hedge as [->|?]; [by left | right; lia].
  - apply pollLoop_rounds in Hfinal; [simpl in Hfinal; lia|done].
  - intros Hedge. unfold TpsTestMixed.waitForConfirmations in Hfinal.
    rewrite pollLoop_stops in Hfinal; [by injection Hfinal as <-|].
    simpl. destruct Hedge as [->|?]; [by left | right; lia].
Qed.

Lemma confirmations_round_bound_witness :
  ∃ final,
    TpsTest.waitForConfirmations Demo.silentEndpoint Demo.twoHashes 1000 400
      = Some final ∧
    (rounds final ≤ 5)%nat.
Proof.
  destruct (single_returns Demo.silentEndpoint Demo.twoHashes 1000 400) as [final E].
  exists final. split; [exact E|].
  exact (proj1 (proj1 (confirmations_round_bound Demo.silentEndpoint Demo.twoHashes
                         1000 400) final E)).
Defined.

(** X12.  The mixed driver looks up the first hundred pending hashes of each
    round and no others.  While none of these hundred has a receipt, no other
    hash is ever looked up: the tracker returns without a receipt, with every
    hash still pending, whatever has been mined of the others. *)
Theorem mixed_tracker_starves_behind_100
    (env : PollEnv) (txHashes : list Broadcaster.HashMeta) (startTime timeoutMs : Z)
    (final : PollState) :
  (∀ round h, h ∈ take 100 (JS.new_Set (Broadcaster.hash <$> txHashes)) →
              ¬ answered env round h) →
  TpsTestMixed.waitForConfirmations env txHashes startTime timeoutMs = Some final →
  receipts final = [] ∧
  pending final = JS.new_Set (Broadcaster.hash <$> txHashes).
Proof.
  intros Hsilent Hfinal.
  set (all := JS.new_Set (Broadcaster.hash <$> txHashes)) in *.
  apply (pollLoop_invariant _ _ _ (λ st, receipts st = [] ∧ pending st = all))
    in Hfinal; [done| |done].
  intros st [Hr Hp]. rewrite mixed_receipts, mixed_pending, Hr, Hp. split.
  - cbn [app]. induction (take 100 all) as [|h l IH]; [done|]. cbn [omap list_omap].
    destruct (receiptOf _) eqn:E.
    + exfalso. apply (Hsilent (rounds st) h); [left|]. unfold answered. rewrite E. eauto.
    + apply IH. intros round h' Hh'. apply Hsilent. by right.
  - apply filter_all, Forall_forall. intros h _ [Hin Ha]. by apply (Hsilent (rounds st) h).
Qed.

Lemma mixed_tracker_starves_behind_100_witness :
  ∃ final,
    TpsTestMixed.waitForConfirmations Demo.lastOnly Demo.manyHashes 0 1000 = Some final ∧
    receipts final = [] ∧
    pending final = JS.new_Set (Broadcaster.hash <$> Demo.manyHashes) ∧
    answered Demo.lastOnly 0
      (String.append "0x" (string_of_list_ascii (replicate 100 "a"%char))).
Proof.
  destruct (mixed_returns Demo.lastOnly Demo.manyHashes 0 1000) as [final Hfinal].
  exists final. split; [exact Hfinal|].
  assert (∀ round h,
            h ∈ take 100 (JS.new_Set (Broadcaster.hash <$> Demo.manyHashes)) →
            ¬ answered Demo.lastOnly round h) as Hsilent.
  { assert (Forall (λ h, String.length h ≠ 102%nat)
              (take 100 (JS.new_Set (Broadcaster.hash <$> Demo.manyHashes)))) as Hall.
    { refine (bool_decide_unpack _ _). vm_compute. exact I. }
    rewrite Forall_forall in Hall.
    intros round h Hh. specialize (Hall h Hh). clear Hh.
    unfold answered, Demo.lastOnly, getTransactionReceipt.
    destruct (Nat.eqb_spec (String.length h) 102) as [Heq|Hne];
      [exact (False_ind _ (Hall Heq))|].
    intros [rc Hrc]. discriminate Hrc. }
  destruct (mixed_tracker_starves_behind_100 Demo.lastOnly Demo.manyHashes 0 1000 final
              Hsilent Hfinal) as [Hr Hp].
  split; [exact Hr|]. split; [exact Hp|].
  exists {| r_hash := String.append "0x" (string_of_list_ascii (replicate 100 "a"%char));
            blockNumber := 7; status := 1; gasUsed := 21000 |}.
  vm_compute. reflexivity.
Defined.

(** * Contract setup and the payload generator *)

Section setup.
Import PayloadGenerator ContractSetup.

Lemma setupContracts_without_swaps txMix configured d contracts log :
  swap txMix ≤ 0 →
  setupContracts txMix configured d = Ok (contracts, log) →
  router contracts = router configured ∧ weth contracts = weth configured ∧
  (log = [] ∨ log = [DeployToken]) ∧
  (log = [] → token contracts = token configured) ∧
  (log = [DeployToken] →
   0 < tokenTransfer txMix ∧ JS.truthy (token configured) = false ∧
   deployToken d = Ok (token contracts)).
Proof.
  intros Hswap. unfold setupContracts, getRequiredContracts.
  destruct (Z.gtb_spec (swap txMix) 0) as [?|_]; [lia|].
  rewrite orb_false_r. cbn [negb andb orb].
  destruct (Z.gtb_spec (tokenTransfer txMix) 0) as [Htoken|Htoken]; cbn [negb andb].
  - destruct (JS.truthy (token configured)) eqn:Ht; cbn [negb andb orb].
    + intros [= <- <-]. split_and!; auto; done.
    + destruct (deployToken d) as [a|e] eqn:Hd; cbn [mbind Result_bind]; [|done].
      intros [= <- <-]. cbn. split_and!; auto; done.
  - intros [= <- <-]. split_and!; auto; done.
Qed.

(** X13.  [setupContracts] deploys by what the mix asks for, and the
    generator plans by the remainder.  For a mix without swaps the router and
    the WETH address stay as configured, and all that is deployed is the
    token, when token transfers are asked for and no token address is
    configured.  Uniswap is only deployed for a mix with swaps and without a
    configured router.  So when the remainder makes the swap count positive
    for a mix without swaps, and no router is configured, generation throws
    on the contracts that were set up: the swap-addresses error when the
    token address is there or no token transfer is planned, the
    token-address error otherwise. *)
Theorem setupContracts_follows_the_mix
    (txMix : TxMix) (configured : Contracts) (d : Deployer)
    (contracts : Contracts) (log : list Deployment) :
  setupContracts txMix configured d = Ok (contracts, log) →
  (DeployUniswap ∈ log → 0 < swap txMix ∧ JS.truthy (router configured) = false) ∧
  (DeployToken ∈ log →
   (0 < tokenTransfer txMix ∨ 0 < swap txMix) ∧ JS.truthy (token configured) = false) ∧
  (swap txMix ≤ 0 →
   router contracts = router configured ∧ weth contracts = weth configured ∧
   (log = [] ∨ log = [DeployToken])) ∧
  (swap txMix ≤ 0 → JS.truthy (router configured) = false →
   ∀ senders env chainId txCount gasLimit,
     0 < swapCount txCount txMix →
     generatePayload senders env chainId
       {| PayloadGenerator.txCount := txCount; PayloadGenerator.txMix := Some txMix;
          cfg_gasLimit := gasLimit |} contracts
     = Throw (if (tokenCount txCount txMix >? 0) && negb (JS.truthy (token contracts))
              then TokenAddressRequired else SwapAddressesRequired)).
Proof.
  intros Hsetup. split_and!.
  - destruct (Z.le_gt_cases (swap txMix) 0) as [Hswap|Hswap].
    + intros Hin. exfalso.
      destruct (setupContracts_without_swaps _ _ _ _ _ Hswap Hsetup)
        as (_ & _ & [->| ->] & _).
      * by apply elem_of_nil in Hin.
      * apply list_elem_of_singleton in Hin. done.
    + intros Hin. split; [done|].
      revert Hsetup Hin. unfold setupContracts, getRequiredContracts.
      destruct (Z.gtb_spec (swap txMix) 0) as [_|?]; [|lia].
      rewrite orb_true_r. cbn [negb andb orb].
      destruct (JS.truthy (router configured)); [|done].
      destruct (JS.truthy (token configured)), (JS.truthy (weth configured));
        cbn [negb andb orb mbind Result_bind];
        try (by intros [= <- <-] ?%elem_of_nil);
        (destruct (deployToken d); cbn [mbind Result_bind]; [|done]);
        intros [= <- <-] Hin; apply list_elem_of_singleton in Hin; done.
  - revert Hsetup. unfold setupContracts, getRequiredContracts.
    destruct ((tokenTransfer txMix >? 0) || (swap txMix >? 0)) eqn:Hneeds.
    2:{ apply orb_false_iff in Hneeds as [_ ->]. cbn [negb andb].
        by intros [= <- <-] ?%elem_of_nil. }
    assert (0 < tokenTransfer txMix ∨ 0 < swap txMix) as Hmix.
    { apply orb_true_iff in Hneeds as [H|H]; [left|right];
        apply Z.gtb_lt in H; lia. }
    cbn [negb andb].
    destruct (JS.truthy (token configured)) eqn:Ht; cbn [negb andb].
    + destruct (negb (swap txMix >? 0) || _); [by intros [= <- <-] ?%elem_of_nil|].
      cbn [mbind Result_bind].
      destruct ((swap txMix >? 0) && _).
      * destruct (deployUniswap d) as [[? ?]|]; cbn [mbind Result_bind]; [|done].
        destruct (addLiquidity d _); cbn [mbind Result_bind]; [|done].
        intros [= <- <-] Hin. cbn in Hin.
        apply elem_of_cons in Hin as [?|Hin]; [done|].
        apply list_elem_of_singleton in Hin. done.
      * by intros [= <- <-] ?%elem_of_nil.
    + done.
  - intros Hswap.
    destruct (setupContracts_without_swaps _ _ _ _ _ Hswap Hsetup) as (? & ? & ? & _).
    done.
  - intros Hswap Hrouter senders env chainId txCount gasLimit Hcount.
    destruct (setupContracts_without_swaps _ _ _ _ _ Hswap Hsetup) as (Hr & _).
    unfold generatePayload.
    cbn [PayloadGenerator.txMix PayloadGenerator.txCount default from_option id].
    destruct ((tokenCount txCount txMix >? 0) && negb (JS.truthy (token contracts)));
      [done|].
    destruct (Z.gtb_spec (swapCount txCount txMix) 0) as [_|?]; [|lia].
    rewrite Hr, Hrouter. done.
Qed.

(** The example of a mix without swaps that adds up to 100: for 67:33:0 and
    ten transactions, with nothing configured, the token is deployed and
    generation throws the swap-addresses error. *)
Lemma setupContracts_follows_the_mix_witness :
  ∃ contracts,
    setupContracts (Demo.mix 67 33 0) Demo.noContracts Demo.deployer
      = Ok (contracts, [DeployToken]) ∧
    generatePayload Demo.senders Demo.env 412346 (Demo.config 10 67 33 0) contracts
      = Throw SwapAddressesRequired.
Proof.
  destruct (setupContracts (Demo.mix 67 33 0) Demo.noContracts Demo.deployer)
    as [[contracts log]|e] eqn:E; [|vm_compute in E; discriminate].
  assert (log = [DeployToken] ∧ JS.truthy (token contracts) = true) as [-> Htoken].
  { vm_compute in E. injection E as <- <-. done. }
  exists contracts. split; [reflexivity|].
  destruct (setupContracts_follows_the_mix _ _ _ _ _ E) as (_ & _ & _ & Hthrow).
  change (Demo.config 10 67 33 0)
    with {| PayloadGenerator.txCount := 10;
            PayloadGenerator.txMix := Some (Demo.mix 67 33 0);
            cfg_gasLimit := None |}.
  rewrite (Hthrow ltac:(done) ltac:(done) Demo.senders Demo.env 412346 10 None
             ltac:(done)).
  by rewrite Htoken.
Defined.

End setup.
